(** * DriftWatch: the buffered ingestion client and the daily metrics job

    A shallow embedding of [app/driftwatch_client.py] (class
    [DriftWatchClient]) and of the PSI and F1 computations of
    [ml_observability_mvp/jobs/compute_daily_metrics.py], with the
    properties the specification states about them.

    Conventions.
    - Python objects mutated in place ([self], the deque) become explicit
      state: every method takes the client and the outside world and returns
      the new client, the new world and whether an exception left the call.
    - The outside world is a clock ([time.time], [time.sleep]), an oracle that
      decides the outcome of each database write attempt, and a trace of the
      calls made to it.
    - Python [float] values carried by feature maps are IEEE-754 values
      ([spec_float]); wall-clock instants and durations are rationals. *)

From Stdlib Require Import ZArith QArith Qround Qabs Reals Lra Lia.
From Stdlib Require Import Floats.SpecFloat.
From Stdlib Require Import Ascii String Numbers.DecimalString.
From stdpp Require Import gmap strings list.

Local Open Scope Z_scope.

#[local] Set Warnings "-register-all".

(** ** Python values *)

(** The values a feature or segment map can hold ([Dict[str, Any]]).
    A nested dictionary keeps its items in insertion order. *)
Inductive pyval : Type :=
  | PNone
  | PBool (b : bool)
  | PInt (z : Z)
  | PFloat (f : spec_float)
  | PStr (s : string)
  | PList (l : list pyval)
  | PDict (d : list (string * pyval)).

(** [math.isnan] and [math.isinf]. *)
Definition math_isnan (f : spec_float) : bool :=
  match f with S754_nan => true | _ => false end.

Definition math_isinf (f : spec_float) : bool :=
  match f with S754_infinity _ => true | _ => false end.

(** A float is finite when it is neither NaN nor an infinity. *)
Definition is_finite (f : spec_float) : bool :=
  negb (math_isnan f || math_isinf f).

(** [v] is a float NaN or infinity (the value itself, not its contents). *)
Definition nonfinite_float (v : pyval) : bool :=
  match v with PFloat f => negb (is_finite f) | _ => false end.

(** No non-finite float anywhere inside [v], at any depth. *)
Fixpoint deep_finite (v : pyval) : bool :=
  match v with
  | PFloat f => is_finite f
  | PList l => forallb deep_finite l
  | PDict d => forallb (fun kv => deep_finite (snd kv)) d
  | _ => true
  end.

(** ** Constants of [driftwatch_client.py] *)

Definition MAX_BUFFER : Z := 5000.
Definition DEFAULT_BATCH_SIZE : Z := 50.
Definition DEFAULT_FLUSH_SECONDS : Z := 5.
Definition MAX_RETRIES : nat := 5.

(** ** Events *)

(** The arguments of one [log_inference] call. *)
Record call : Type := Call {
  a_model_id : string;
  a_model_version : string;
  a_ts : Z;
  a_pred_type : string;
  a_y_pred_num : pyval;
  a_y_pred_text : option string;
  a_latency_ms : option Z;
  a_features_json : gmap string pyval;
  a_segment_json : gmap string pyval;
  a_request_id : option string
}.

(** The ten-field tuple that is buffered and later inserted. *)
Record event : Type := Event {
  ts : Z;
  model_id : string;
  model_version : string;
  request_id : option string;
  pred_type : string;
  latency_ms : option Z;
  features_json : gmap string pyval;
  y_pred_num : pyval;
  y_pred_text : option string;
  segment_json : gmap string pyval
}.

(** ** The bounded buffer: [collections.deque(maxlen=...)] *)

Record deque : Type := Deque {
  items : list event;
  maxlen : Z
}.

Definition deque_len (d : deque) : Z := Z.of_nat (length (items d)).

(** [deque.append]: the element is added on the right and, when the deque
    is then longer than [maxlen], one element is removed on the left. *)
Definition deque_append (d : deque) (e : event) : deque :=
  let grown := items d ++ [e] in
  if maxlen d <? Z.of_nat (length grown)
  then Deque (tail grown) (maxlen d)
  else Deque grown (maxlen d).

(** ** The client object *)

Record client : Type := Client {
  enabled : bool;
  dsn : option string;
  batch_size : Z;
  flush_seconds : Z;
  buffer : deque;
  last_flush_time : Q;
  dropped_events : Z;
  flush_failures : Z;
  insert_success : Z
}.

Definition set_buffer (st : client) (b : deque) : client :=
  Client (enabled st) (dsn st) (batch_size st) (flush_seconds st) b
         (last_flush_time st) (dropped_events st) (flush_failures st)
         (insert_success st).

Definition set_dropped_events (st : client) (n : Z) : client :=
  Client (enabled st) (dsn st) (batch_size st) (flush_seconds st) (buffer st)
         (last_flush_time st) n (flush_failures st) (insert_success st).

Definition set_flush_failures (st : client) (n : Z) : client :=
  Client (enabled st) (dsn st) (batch_size st) (flush_seconds st) (buffer st)
         (last_flush_time st) (dropped_events st) n (insert_success st).

(** The two assignments of a successful attempt, lines 137 and 138. *)
Definition record_success (st : client) (n : Z) (now : Q) : client :=
  Client (enabled st) (dsn st) (batch_size st) (flush_seconds st) (buffer st)
         now (dropped_events st) (flush_failures st) (insert_success st + n).

(** ** The outside world *)

(** What one pass through the body of the [try] of [flush] does: the
    insert commits, or it raises one of the exceptions the [except] clause
    names ([psycopg2.Error], [OSError]), or it raises something else. *)
Inductive write_result : Type :=
  | WriteOk
  | WriteTransient
  | WriteOther.

(** The database as seen by the client: the outcome of the n-th write
    attempt made since the process started. *)
Definition database : Type := nat -> write_result.

Inductive io_event : Type :=
  | IoFlushCall
  | IoWrite (batch : list event) (r : write_result)
  | IoSleep (seconds : Q).

(** [trace] lists the calls made so far, oldest first. *)
Record world : Type := World {
  clock : Q;
  attempts : nat;
  trace : list io_event
}.

Definition emit (w : world) (e : io_event) : world :=
  World (clock w) (attempts w) (trace w ++ [e]).

(** One call of [psycopg2.connect] ... [conn.commit()] with [batch]. *)
Definition attempt_write (db : database) (w : world) (batch : list event)
  : write_result * world :=
  let r := db (attempts w) in
  (r, World (clock w) (S (attempts w)) (trace w ++ [IoWrite batch r])).

(** [time.sleep(d)]. *)
Definition sleep (w : world) (d : Q) : world :=
  World (clock w + d)%Q (attempts w) (trace w ++ [IoSleep d]).

(** Time passing between two calls of the client. *)
Definition advance (w : world) (d : Q) : world :=
  World (clock w + d)%Q (attempts w) (trace w).

(** Whether a call returned or let an exception escape. *)
Inductive status : Type :=
  | Returned
  | Raised.

(** ** [DriftWatchClient.__init__] *)

Definition lower_char (c : ascii) : ascii :=
  let n := nat_of_ascii c in
  if ((65 <=? n)%nat && (n <=? 90)%nat)%bool then ascii_of_nat (n + 32) else c.

(** [str.lower], on the ASCII letters. *)
Fixpoint lower (s : string) : string :=
  match s with
  | EmptyString => EmptyString
  | String c s' => String (lower_char c) (lower s')
  end.

(** [os.getenv(name, default)]: the process environment is a map from
    names to strings. *)
Definition getenv (env : gmap string string) (name : string)
  : option string := env !! name.

(** [int(os.getenv(name, default))], where [py_int] is Python's [int] on
    strings and answers [None] where Python raises [ValueError]. *)
Definition getenv_int (py_int : string -> option Z) (env : gmap string string)
    (name : string) (default : Z) : option Z :=
  match getenv env name with
  | Some s => py_int s
  | None => Some default
  end.

(** Truthiness of [self.dsn]: [None] and the empty string are false. *)
Definition dsn_present (d : option string) : bool :=
  match d with
  | Some (String _ _) => true
  | Some EmptyString => false
  | None => false
  end.

(** The constructor. [now] is what [time.time()] returns on line 37. *)
Definition init (py_int : string -> option Z) (env : gmap string string)
    (now : Q) : client :=
  let enabled0 :=
    String.eqb (lower (default "true"%string (getenv env "DRIFTWATCH_ENABLED")))
               "true" in
  let dsn0 := getenv env "DRIFTWATCH_DATABASE_URL" in
  let '(bs, fs) :=
    match getenv_int py_int env "DRIFTWATCH_BATCH_SIZE" DEFAULT_BATCH_SIZE with
    | Some b =>
        match getenv_int py_int env "DRIFTWATCH_FLUSH_SECONDS"
                         DEFAULT_FLUSH_SECONDS with
        | Some f => (b, f)
        | None => (DEFAULT_BATCH_SIZE, DEFAULT_FLUSH_SECONDS)
        end
    | None => (DEFAULT_BATCH_SIZE, DEFAULT_FLUSH_SECONDS)
    end in
  Client (if (enabled0 && negb (dsn_present dsn0))%bool then false else enabled0)
         dsn0 bs fs (Deque [] MAX_BUFFER) now 0 0 0.

(** A decimal reading of [int] on strings, used to run [init] on concrete
    environments: an optional minus sign followed by decimal digits.
    Python's [int] also reads a string with white space around it, a plus
    sign or underscores between the digits; the environments below hold
    none of these, and the theorems take [py_int] as a parameter. *)
Definition decimal_int (s : string) : option Z :=
  match s with
  | EmptyString => None
  | String c s' =>
      if (Ascii.eqb c "-" && String.eqb s' EmptyString)%bool then None
      else option_map Z.of_int (NilZero.int_of_string s)
  end.

(** ** [DriftWatchClient._sanitize] *)

Definition sanitize (val : pyval) : pyval :=
  match val with
  | PNone => PNone
  | PFloat f => if (math_isnan f || math_isinf f)%bool then PNone else val
  | _ => val
  end.

(** ** [DriftWatchClient.flush] *)

(** The loop of lines 111 and 112; returns what is left of the buffer and
    the batch. *)
Fixpoint pop_batch (size : Z) (buf batch : list event)
  : list event * list event :=
  match buf with
  | [] => (buf, batch)
  | e :: rest =>
      if Z.of_nat (length batch) <? size
      then pop_batch size rest (batch ++ [e])
      else (buf, batch)
  end.

(** The retry loop, lines 121 to 145, over the attempt numbers still to
    run. Returns the client, the world, [success] and whether an exception
    that the [except] clause does not name escaped. *)
Fixpoint retry_loop (db : database) (batch : list event) (todo : list nat)
    (wait : Q) (st : client) (w : world) : client * world * bool * status :=
  match todo with
  | [] => (st, w, false, Returned)
  | attempt :: todo' =>
      let '(r, w1) := attempt_write db w batch in
      match r with
      | WriteOk =>
          (record_success st (Z.of_nat (length batch)) (clock w1),
           w1, true, Returned)
      | WriteOther => (st, w1, false, Raised)
      | WriteTransient =>
          if (attempt <? MAX_RETRIES - 1)%nat
          then retry_loop db batch todo' (wait * 2)%Q st (sleep w1 wait)
          else retry_loop db batch todo' wait st w1
      end
  end.

Definition flush (db : database) (st : client) (w0 : world)
  : client * world * status :=
  let w := emit w0 IoFlushCall in
  if (negb (enabled st) || bool_decide (items (buffer st) = []))%bool
  then (st, w, Returned)
  else
    let '(rest, batch) := pop_batch (batch_size st) (items (buffer st)) [] in
    let st1 := set_buffer st (Deque rest (maxlen (buffer st))) in
    match batch with
    | [] => (st1, w, Returned)
    | _ :: _ =>
        let '(st2, w2, success, s) :=
          retry_loop db batch (seq 0 MAX_RETRIES) (1 # 2)%Q st1 w in
        match s with
        | Raised => (st2, w2, Raised)
        | Returned =>
            if success then (st2, w2, Returned)
            else (set_flush_failures st2 (flush_failures st2 + 1), w2, Returned)
        end
    end.

(** ** [DriftWatchClient.log_inference] *)

(** Lines 78 to 92: the tuple built from the arguments. *)
Definition make_event (a : call) : event :=
  let clean_features := sanitize <$> a_features_json a in
  let clean_segment := sanitize <$> a_segment_json a in
  Event (a_ts a) (a_model_id a) (a_model_version a) (a_request_id a)
        (a_pred_type a) (a_latency_ms a) clean_features
        (sanitize (a_y_pred_num a)) (a_y_pred_text a) clean_segment.

(** Lines 95 to 98: count a drop when the buffer is full, then append. *)
Definition enqueue (st : client) (e : event) : client :=
  let st1 :=
    if deque_len (buffer st) =? MAX_BUFFER
    then set_dropped_events st (dropped_events st + 1)
    else st in
  set_buffer st1 (deque_append (buffer st1) e).

(** The condition of lines 101 and 102. *)
Definition flush_due (st : client) (w : world) : bool :=
  ((batch_size st <=? deque_len (buffer st))
   || Qle_bool (inject_Z (flush_seconds st)) (clock w - last_flush_time st))%bool.

Definition log_inference (db : database) (st : client) (w : world) (a : call)
  : client * world * status :=
  if negb (enabled st) then (st, w, Returned)
  else
    let st1 := enqueue st (make_event a) in
    if flush_due st1 w then flush db st1 w else (st1, w, Returned).

(** ** Sequences of calls *)

(** One call made by the instrumented program, [dt] seconds after the
    previous one. *)
Inductive op : Type :=
  | OpLog (dt : Q) (a : call)
  | OpFlush (dt : Q).

Definition step (db : database) (st : client) (w : world) (o : op)
  : client * world * status :=
  match o with
  | OpLog dt a => log_inference db st (advance w dt) a
  | OpFlush dt => flush db st (advance w dt)
  end.

(** Runs the calls in order; a caller that catches an exception goes on
    with the object as the failed call left it. *)
Fixpoint run (db : database) (st : client) (w : world) (ops : list op)
  : client * world * list status :=
  match ops with
  | [] => (st, w, [])
  | o :: ops' =>
      let '(st1, w1, s) := step db st w o in
      let '(st2, w2, ss) := run db st1 w1 ops' in
      (st2, w2, s :: ss)
  end.

(** The events a sequence of calls hands to an enabled client. *)
Definition logged (ops : list op) : list event :=
  omap (fun o => match o with
                 | OpLog _ a => Some (make_event a)
                 | OpFlush _ => None
                 end) ops.

(** * The metrics job: [compute_daily_metrics.py] *)

(** Python exceptions that matter to the job. *)
Inductive exn : Type :=
  | ValueError
  | IndexError.

Inductive result (A : Type) : Type :=
  | Return (a : A)
  | Raise (e : exn).

Arguments Return {A} a.
Arguments Raise {A} e.

(** ** [compute_psi] *)

(** A bin edge: a number or one of the two infinities the code writes into
    the first and last position. *)
Inductive edge : Type :=
  | NegInf
  | Fin (q : Q)
  | PosInf.

Definition edge_ltb (a b : edge) : bool :=
  match a, b with
  | NegInf, NegInf => false
  | NegInf, _ => true
  | Fin _, NegInf => false
  | Fin x, Fin y => negb (Qle_bool y x)
  | Fin _, PosInf => true
  | PosInf, _ => false
  end.

Definition edge_leb (a b : edge) : bool := negb (edge_ltb b a).

(** [pd.cut(x, bins=bins).value_counts(sort=False)]: one count for each
    pair of consecutive edges, of the values in the interval open on the
    left and closed on the right; a value in no interval is not counted. *)
Fixpoint cut_counts (x : list Q) (bins : list edge) : list Z :=
  match bins with
  | lo :: ((hi :: _) as bins') =>
      Z.of_nat (length (filter (fun v => edge_ltb lo (Fin v) && edge_leb (Fin v) hi = true) x))
      :: cut_counts x bins'
  | _ => []
  end.

(** Lines 35 and 36: [bins[0] = -np.inf] and [bins[-1] = np.inf], which
    raise [IndexError] on an array without elements. *)
Definition clamp_bins (bins : list edge) : result (list edge) :=
  match bins with
  | [] => Raise IndexError
  | _ :: _ =>
      Return (<[(length bins - 1)%nat := PosInf]> (<[0%nat := NegInf]> bins))
  end.

(** Lines 43 and 44: [(counts / n).replace(0, 0.0001)]. *)
Definition percents (counts : list Z) (n : nat) : list Q :=
  map (fun c =>
         let p := (inject_Z c / inject_Z (Z.of_nat n))%Q in
         if Qeq_bool p 0 then (1 # 10000)%Q else p) counts.

(** One term of line 47; the logarithm leaves the rationals, so the terms
    and their sum are real numbers. *)
Definition psi_term (a e : Q) : R :=
  ((Q2R a - Q2R e) * ln (Q2R a / Q2R e))%R.

Definition Rsum (l : list R) : R := foldr Rplus 0%R l.

Section PSI.

(** [pd.qcut(expected, q=buckets, retbins=True, duplicates='drop')],
    second component: the quantile edges of the baseline, or the
    exception it raises. *)
Variable qcut : list Q -> Z -> result (list edge).

Definition compute_psi (expected actual : list Q) (buckets : Z) : result R :=
  if ((length expected =? 0)%nat || (length actual =? 0)%nat)%bool
  then Return 0%R
  else
    match qcut expected buckets with
    | Raise ValueError => Return 0%R
    | Raise e => Raise e
    | Return bins0 =>
        match clamp_bins bins0 with
        | Raise e => Raise e
        | Return bins =>
            let expected_counts := cut_counts expected bins in
            let actual_counts := cut_counts actual bins in
            let expected_percents := percents expected_counts (length expected) in
            let actual_percents := percents actual_counts (length actual) in
            let psi_values := zip_with psi_term actual_percents expected_percents in
            Return (Rsum psi_values)
        end
    end.

End PSI.

(** ** A reading of [pd.qcut] for concrete runs *)

Fixpoint insert_sorted (v : Q) (l : list Q) : list Q :=
  match l with
  | [] => [v]
  | x :: l' => if Qle_bool v x then v :: l else x :: insert_sorted v l'
  end.

Definition sort_values (l : list Q) : list Q := foldr insert_sorted [] l.

(** The [p]-quantile of a sorted sample, by linear interpolation between
    the two closest ranks. *)
Definition quantile (sorted : list Q) (p : Q) : Q :=
  let h := (inject_Z (Z.of_nat (length sorted) - 1) * p)%Q in
  let i := Z.to_nat (Qfloor h) in
  let lo := nth i sorted 0%Q in
  let hi := nth (S i) sorted lo in
  (lo + (h - inject_Z (Qfloor h)) * (hi - lo))%Q.

(** Removes an edge equal to the one before it. *)
Fixpoint drop_duplicates (l : list Q) : list Q :=
  match l with
  | x :: ((y :: _) as l') =>
      if Qeq_bool x y then drop_duplicates l' else x :: drop_duplicates l'
  | _ => l
  end.

(** The edges at the quantiles 0, 1/q, ..., 1 of the sample, duplicates
    dropped; a sample with a single distinct value keeps one edge. The
    quantiles are exact rationals: [pd.qcut] interpolates in floating
    point and can keep two edges that differ by rounding only where this
    reading keeps one; the theorems take [qcut] as a parameter. *)
Definition quantile_bins (x : list Q) (q : Z) : result (list edge) :=
  let sorted := sort_values x in
  let ps := map (fun k => (inject_Z (Z.of_nat k) / inject_Z q)%Q)
                (seq 0 (S (Z.to_nat q))) in
  Return (map Fin (drop_duplicates (map (fun p => Qred (quantile sorted p)) ps))).

(** ** Performance metrics: section D of [process_model_metrics] *)

(** A row of [df_perf]; a SQL NULL (NaN in the data frame) is [None]. *)
Record perf_row : Type := PerfRow {
  r_y_pred_num : option Q;
  r_y_true_num : option Q;
  r_pred_type : string
}.

(** [(df_perf['y_pred_num'] >= 0.5).astype(int)]: a comparison with NaN
    is false. *)
Definition y_pred_binary (r : perf_row) : Z :=
  match r_y_pred_num r with
  | Some p => if Qle_bool (1 # 2) p then 1 else 0
  | None => 0
  end.

(** [df_perf['y_true_num'].astype(int)]: truncation towards zero,
    [ValueError] when a value is missing. *)
Fixpoint y_true_binary (rows : list perf_row) : result (list Z) :=
  match rows with
  | [] => Return []
  | r :: rows' =>
      match r_y_true_num r with
      | None => Raise ValueError
      | Some t =>
          match y_true_binary rows' with
          | Return l => Return (Z.quot (Qnum t) (Z.pos (Qden t)) :: l)
          | Raise e => Raise e
          end
      end
  end.

(** [((a == x) & (b == y)).sum()]. *)
Definition count_pairs (x y : Z) (a b : list Z) : Z :=
  Z.of_nat (length (filter (fun ab => (fst ab =? x) && (snd ab =? y) = true)
                           (zip a b))).

Definition precision_of (tp fp : Z) : Q :=
  if 0 <? tp + fp then (inject_Z tp / inject_Z (tp + fp))%Q else 0%Q.

Definition recall_of (tp fn : Z) : Q :=
  if 0 <? tp + fn then (inject_Z tp / inject_Z (tp + fn))%Q else 0%Q.

Definition f1_of (precision recall : Q) : Q :=
  if Qlt_le_dec 0 (precision + recall)
  then (2 * (precision * recall) / (precision + recall))%Q
  else 0%Q.

(** Lines 182 to 191. *)
Definition f1_score (rows : list perf_row) : result Q :=
  let pred := map y_pred_binary rows in
  match y_true_binary rows with
  | Raise e => Raise e
  | Return truth =>
      let tp := count_pairs 1 1 pred truth in
      let fp := count_pairs 1 0 pred truth in
      let fn := count_pairs 0 1 pred truth in
      Return (f1_of (precision_of tp fp) (recall_of tp fn))
  end.

(** Line 177: [(y_true - y_pred).abs().mean()], which skips the rows where
    either value is missing and is NaN ([None]) when no row is left. *)
Definition mae_score (rows : list perf_row) : option Q :=
  let diffs :=
    omap (fun r => match r_y_true_num r, r_y_pred_num r with
                   | Some t, Some p => Some (Qabs (t - p))
                   | _, _ => None
                   end) rows in
  match diffs with
  | [] => None
  | _ :: _ => Some (foldr Qplus 0%Q diffs / inject_Z (Z.of_nat (length diffs)))%Q
  end.

(** Lines 172 to 194: the metrics appended for one model, version and day,
    given the label-joined rows. *)
Definition performance_metrics (df_perf : list perf_row)
  : result (list (string * option Q)) :=
  match df_perf with
  | first :: _ =>
      if 200 <=? Z.of_nat (length df_perf) then
        if String.eqb (r_pred_type first) "regression"
        then Return [("mae"%string, mae_score df_perf)]
        else if String.eqb (r_pred_type first) "classification"
        then match f1_score df_perf with
             | Return f1 => Return [("f1"%string, Some f1)]
             | Raise e => Raise e
             end
        else Return []
      else Return []
  | [] => Return []
  end.

(** ** Reading a trace *)

(** The durations of the [time.sleep] calls, in order. *)
Definition slept (t : list io_event) : list Q :=
  omap (fun e => match e with IoSleep d => Some d | _ => None end) t.

(** The batches handed to the database, with the outcome of each attempt. *)
Definition writes (t : list io_event) : list (list event * write_result) :=
  omap (fun e => match e with IoWrite b r => Some (b, r) | _ => None end) t.

(** Between the worlds [w] and [w'] the event [e] was part of a batch
    handed to the database. *)
Definition handed_over (w w' : world) (e : event) : Prop :=
  exists (ext : list io_event) (batch : list event) (r : write_result),
    trace w' = trace w ++ ext /\ IoWrite batch r ∈ ext /\ e ∈ batch.

(** How many times [flush] was entered. *)
Definition is_flush_call (e : io_event) : bool :=
  match e with IoFlushCall => true | _ => false end.

Definition flush_calls (t : list io_event) : nat :=
  length (filter (fun e => is_flush_call e = true) t).

(** The fields that neither [flush] nor [log_inference] assigns, and the
    drop counter, which only [log_inference] does. *)
Definition same_config (st st' : client) : Prop :=
  enabled st' = enabled st /\ dsn st' = dsn st /\
  batch_size st' = batch_size st /\ flush_seconds st' = flush_seconds st /\
  maxlen (buffer st') = maxlen (buffer st).

(** Every value of the map is free of non-finite floats at every depth. *)
Definition map_deep_finite (m : gmap string pyval) : Prop :=
  map_Forall (fun _ v => deep_finite v = true) m.

(** ** Concrete environments, clients and calls *)

Definition env_ok : gmap string string :=
  {[ "DRIFTWATCH_DATABASE_URL" := "postgresql://metrics/driftwatch" ]}.

(** No connection string. *)
Definition env_no_dsn : gmap string string :=
  {[ "DRIFTWATCH_ENABLED" := "true"; "DRIFTWATCH_BATCH_SIZE" := "10" ]}.

(** A batch size above the capacity and a long flush interval, so that
    nothing drains the buffer. *)
Definition env_slow : gmap string string :=
  {[ "DRIFTWATCH_DATABASE_URL" := "postgresql://metrics/driftwatch";
     "DRIFTWATCH_BATCH_SIZE" := "10000";
     "DRIFTWATCH_FLUSH_SECONDS" := "3600" ]}.

(** An attempt to set the capacity from the environment. *)
Definition env_capacity : gmap string string :=
  {[ "DRIFTWATCH_DATABASE_URL" := "postgresql://metrics/driftwatch";
     "DRIFTWATCH_MAX_BUFFER" := "10";
     "MAX_BUFFER" := "10" ]}.

Definition world0 : world := World 0 0 [].

Definition db_up : database := fun _ => WriteOk.
Definition db_down : database := fun _ => WriteTransient.

Definition float_one : spec_float := S754_finite false 4503599627370496 (-52).

(** A regression call with request number [n] and numeric prediction [y]. *)
Definition sample_call (n : Z) (y : pyval) : call :=
  Call "smoke_test_model" "v0.0.1" n "regression" y None (Some (10 + n))
       {[ "sigma20_pct" := PFloat float_one; "null_check" := PNone;
          "nan_check" := PFloat S754_nan ]}
       {[ "env" := PStr "smoke_test"; "sym" := PStr "TEST" ]}
       None.

(** A call whose feature map holds a NaN inside a list. *)
Definition nested_call : call :=
  Call "smoke_test_model" "v0.0.1" 0 "regression" (PFloat float_one) None None
       {[ "window" := PList [PFloat float_one; PFloat S754_nan] ]}
       {[ "env" := PStr "smoke_test" ]}
       None.

Definition default_client : client := init decimal_int env_ok 0.

(** A client that nothing drains, its buffer holding [MAX_BUFFER] events. *)
Definition full_client : client :=
  set_buffer (init decimal_int env_slow 0)
    (Deque (map (fun n => make_event (sample_call (Z.of_nat n) PNone))
                (seq 0 (Z.to_nat MAX_BUFFER)))
           MAX_BUFFER).

(** ** The confusion counts, row by row *)

(** The prediction of the row is positive: present and at least 0.5. *)
Definition predicted_positive (r : perf_row) : bool :=
  match r_y_pred_num r with
  | Some p => Qle_bool (1 # 2) p
  | None => false
  end.

(** The true value of the row, cast to an integer, is [z]. *)
Definition truth_is (z : Z) (r : perf_row) : bool :=
  match r_y_true_num r with
  | Some t => Z.quot (Qnum t) (Z.pos (Qden t)) =? z
  | None => false
  end.

(** The number of rows predicted positive (or not, with [positive] false)
    whose true class is [z]. *)
Definition confusion_count (positive : bool) (z : Z) (rows : list perf_row) : Z :=
  Z.of_nat (length (filter
    (fun r => Bool.eqb (predicted_positive r) positive && truth_is z r = true) rows)).

(** The example of the specification: predictions 0.9, 0.1, 0.6, 0.4
    against the truths 1, 0, 1, 0. *)
Definition example_rows : list perf_row :=
  [ PerfRow (Some (9 # 10)%Q) (Some 1%Q) "classification";
    PerfRow (Some (1 # 10)%Q) (Some 0%Q) "classification";
    PerfRow (Some (6 # 10)%Q) (Some 1%Q) "classification";
    PerfRow (Some (4 # 10)%Q) (Some 0%Q) "classification" ].

(** A day with 200 label-joined rows: the example, fifty times. *)
Definition example_day : list perf_row :=
  concat (replicate 50 example_rows).

(** * More of the client: what a run delivers, and [close] *)

(** The part of the trace added between the worlds [w] and [w']. *)
Definition since (w w' : world) : list io_event :=
  drop (length (trace w)) (trace w').

(** The events of the batches whose insert committed, in commit order. *)
Definition committed (t : list io_event) : list event :=
  concat (omap (fun e => match e with
                         | IoWrite b WriteOk => Some b
                         | _ => None
                         end) t).

Definition Qsum (l : list Q) : Q := foldr Qplus 0%Q l.

(** The sleeps of [k] failed attempts in a row: [wait], then twice the one
    before each time. *)
Fixpoint backoffs (wait : Q) (k : nat) : list Q :=
  match k with
  | O => []
  | S k' => wait :: backoffs (wait * 2)%Q k'
  end.

(** ** [DriftWatchClient.close] *)

(** The loop of lines 157 and 158. It need not end, so it is run for at
    most [fuel] calls of [flush]; [None] says that the buffer was still not
    empty after them. An exception that escapes [flush] ends the loop. *)
Fixpoint close_loop (fuel : nat) (db : database) (st : client) (w : world)
  : option (client * world * status) :=
  match items (buffer st) with
  | [] => Some (st, w, Returned)
  | _ :: _ =>
      match fuel with
      | O => None
      | S fuel' =>
          let '(st1, w1, s) := flush db st w in
          match s with
          | Raised => Some (st1, w1, Raised)
          | Returned => close_loop fuel' db st1 w1
          end
      end
  end.

Definition close (fuel : nat) (db : database) (st : client) (w : world)
  : option (client * world * status) :=
  if enabled st then close_loop fuel db st w else Some (st, w, Returned).

(** * More of the metrics job *)

(** The edges grow strictly from each one to the next, as [pd.cut]
    requires of its bins. *)
Fixpoint increasing (bins : list edge) : bool :=
  match bins with
  | a :: ((b :: _) as rest) => edge_ltb a b && increasing rest
  | _ => true
  end.

Definition Zsum (l : list Z) : Z := foldr Z.add 0 l.

(** The value [v] lies in the bin open at [lo] and closed at [hi]. *)
Definition in_bin (lo hi : edge) (v : Q) : bool :=
  edge_ltb lo (Fin v) && edge_leb (Fin v) hi.

(** ** Reliability metrics: section B of [process_model_metrics] *)

(** [df_current['latency_ms']] without its missing values. *)
Definition present_latencies (lat : list (option Z)) : list Q :=
  omap (fun o => inject_Z <$> o) lat.

(** [float(s.quantile(p)) if not s.isnull().all() else 0.0]; the median of
    line 122 is the quantile at one half. *)
Definition latency_quantile (lat : list (option Z)) (p : Q) : Q :=
  match present_latencies lat with
  | [] => 0%Q
  | _ :: _ => quantile (sort_values (present_latencies lat)) p
  end.

(** Lines 121 to 127. *)
Definition reliability_metrics (lat : list (option Z))
  : list (string * option Q) :=
  [ ("count_inferences"%string, Some (inject_Z (Z.of_nat (length lat))));
    ("p50_latency_ms"%string, Some (latency_quantile lat (1 # 2)));
    ("p95_latency_ms"%string, Some (latency_quantile lat (95 # 100))) ].

(** ** The feature whitelist: MODEL_DRIFT_FEATURES *)

(** [s.split(sep)] for a separator of one character: the pieces between
    the separators, the empty ones included; never an empty list. *)
Fixpoint split_on (sep : ascii) (s : string) : list string :=
  match s with
  | EmptyString => [EmptyString]
  | String c s' =>
      if Ascii.eqb c sep then EmptyString :: split_on sep s'
      else match split_on sep s' with
           | piece :: pieces => String c piece :: pieces
           | [] => [String c EmptyString]
           end
  end.

(** The characters below 256 that [str.isspace] accepts: tab to carriage
    return, the separators 28 to 31, the space, the next-line character
    133 and the no-break space 160. *)
Definition is_space (c : ascii) : bool :=
  let n := nat_of_ascii c in
  ((9 <=? n)%nat && (n <=? 13)%nat) || ((28 <=? n)%nat && (n <=? 32)%nat)
  || (n =? 133)%nat || (n =? 160)%nat.

Fixpoint lstrip (s : string) : string :=
  match s with
  | EmptyString => EmptyString
  | String c s' => if is_space c then lstrip s' else s
  end.

Fixpoint rstrip (s : string) : string :=
  match s with
  | EmptyString => EmptyString
  | String c s' =>
      match rstrip s' with
      | EmptyString => if is_space c then EmptyString else String c EmptyString
      | String _ _ as r => String c r
      end
  end.

(** The first character, if there is one, is not a space. *)
Definition starts_clean (s : string) : Prop :=
  match s with
  | EmptyString => True
  | String c _ => is_space c = false
  end.

(** [str.strip()]. *)
Definition strip (s : string) : string := rstrip (lstrip s).

Definition nonempty (s : string) : bool :=
  match s with EmptyString => false | String _ _ => true end.

(** Line 11: the module constant, from the process environment. *)
Definition DRIFT_Features (env : gmap string string) : list string :=
  split_on "," (default EmptyString (getenv env "MODEL_DRIFT_FEATURES")).

(** Line 144: [[f.strip() for f in DRIFT_Features if f.strip()]]. *)
Definition drift_feats_config (features : list string) : list string :=
  map strip (filter (fun f => nonempty (strip f) = true) features).

(** The character [c] occurs in [s]. *)
Fixpoint occurs (c : ascii) (s : string) : bool :=
  match s with
  | EmptyString => false
  | String c' s' => Ascii.eqb c' c || occurs c s'
  end.

(** ** [process_model_metrics], from the rows its queries return *)

(** What the job stores: a rational it computed exactly, a real number
    (the PSI, which takes a logarithm), or NaN. *)
Inductive metric_value : Type :=
  | Rational (q : Q)
  | Real (r : R)
  | NotANumber.

Definition of_float (o : option Q) : metric_value :=
  match o with Some q => Rational q | None => NotANumber end.

(** A row of [df_current], with the columns the job reads. *)
Record current_row : Type := CurrentRow {
  c_features_json : gmap string pyval;
  c_latency_ms : option Z
}.

Section Job.

(** [pd.qcut], as in [compute_psi]. *)
Variable qcut : list Q -> Z -> result (list edge).

(** [pd.json_normalize(df['features_json']).columns]. *)
Variable columns : list (gmap string pyval) -> list string.

(** The column [feat] of the normalized frame when its dtype is numeric,
    with the missing values dropped; [None] for any other dtype. *)
Variable numeric_column : list (gmap string pyval) -> string -> option (list Q).

(** The loop of lines 148 to 157. *)
Fixpoint drift_metrics (candidates : list string)
    (cur base : list (gmap string pyval))
  : result (list (string * metric_value)) :=
  match candidates with
  | [] => Return []
  | feat :: rest =>
      if bool_decide (feat ∈ columns cur) && bool_decide (feat ∈ columns base)
      then
        match numeric_column cur feat, numeric_column base feat with
        | Some cur_values, Some base_values =>
            match compute_psi qcut base_values cur_values 10 with
            | Raise e => Raise e
            | Return psi_val =>
                match drift_metrics rest cur base with
                | Raise e => Raise e
                | Return l => Return (("psi__" ++ feat, Real psi_val) :: l)%string
                end
            end
        | _, _ => drift_metrics rest cur base
        end
      else drift_metrics rest cur base
  end.

(** Sections B, C and D of [process_model_metrics]: the metrics handed to
    the upsert, in the order they are appended, from the rows of the
    current day, of the baseline window and of the label join. *)
Definition process_model_metrics (features : list string)
    (df_current : list current_row) (df_baseline : list (gmap string pyval))
    (df_perf : list perf_row) : result (list (string * metric_value)) :=
  match df_current with
  | [] => Return []
  | _ :: _ =>
      let reliability :=
        map (fun m => (m.1, of_float m.2))
            (reliability_metrics (map c_latency_ms df_current)) in
      let cur := map c_features_json df_current in
      let drift :=
        if (Z.of_nat (length df_baseline) <? 200)
           || (Z.of_nat (length df_current) <? 200)
        then Return []
        else
          let drift_feats := drift_feats_config features in
          drift_metrics (match drift_feats with
                         | [] => columns cur
                         | _ :: _ => drift_feats
                         end) cur df_baseline in
      match drift with
      | Raise e => Raise e
      | Return drift_l =>
          match performance_metrics df_perf with
          | Raise e => Raise e
          | Return perf_l =>
              Return (reliability ++ drift_l
                      ++ map (fun m => (m.1, of_float m.2)) perf_l)
          end
      end
  end.

End Job.

(** * More concrete inputs *)

(** A database that refuses the first two attempts and then commits. *)
Definition db_flaky : database :=
  fun n => if (n <? 2)%nat then WriteTransient else WriteOk.

(** A database whose second attempt raises an exception that [flush] does
    not catch. *)
Definition db_broken : database :=
  fun n => if (n <? 1)%nat then WriteTransient else WriteOther.

(** The default client with one event in its buffer. *)
Definition one_event_client : client :=
  enqueue default_client (make_event (sample_call 0 PNone)).

(** A batch size of zero. *)
Definition env_batch_zero : gmap string string :=
  {[ "DRIFTWATCH_DATABASE_URL" := "postgresql://metrics/driftwatch";
     "DRIFTWATCH_BATCH_SIZE" := "0" ]}.

Definition unbatched_client : client := init decimal_int env_batch_zero 0.

(** A whitelist of two features, written loosely. *)
Definition env_whitelist : gmap string string :=
  {[ "MODEL_DRIFT_FEATURES" := "age, income ," ]}.

(** The same whitelist, written with commas only. *)
Definition env_two_features : gmap string string :=
  {[ "MODEL_DRIFT_FEATURES" := "age,income" ]}.

(** A reading of [pd.json_normalize] for flat rows: the columns are the
    keys of the rows. *)
Definition key_columns (df : list (gmap string pyval)) : list string :=
  remove_dups (concat (map (fun m => map fst (map_to_list m)) df)).

(** The column [feat] when every row holds an integer there. *)
Definition int_column (df : list (gmap string pyval)) (feat : string)
  : option (list Q) :=
  mapM (fun m => match m !! feat with
                 | Some (PInt z) => Some (inject_Z z)
                 | _ => None
                 end) df.

(** Two hundred rows with an age that goes round from [low] to [low + 39]
    and a plan that is not a number. *)
Definition age_rows (low : Z) : list (gmap string pyval) :=
  map (fun n => {[ "age" := PInt (low + Z.of_nat n `mod` 40);
                   "plan" := PStr "basic" ]})
      (seq 0 200).

(** A day of two hundred inferences, older than the baseline by five
    years, with latencies from 10 to 209 ms. *)
Definition age_day : list current_row :=
  zip_with CurrentRow (age_rows 25) (map (fun n => Some (10 + Z.of_nat n)) (seq 0 200)).

(** A day of three inferences, one of them without a latency. *)
Definition short_day : list current_row :=
  [ CurrentRow {[ "age" := PInt 31 ]} (Some 12);
    CurrentRow {[ "age" := PInt 47 ]} None;
    CurrentRow {[ "age" := PInt 52 ]} (Some 40) ].

(** A day of 201 label-joined rows, the first of them without a true
    value. *)
Definition unlabelled_day : list perf_row :=
  PerfRow (Some (7 # 10)%Q) None "classification" :: example_day.

(** * Properties of the ingestion client *)

(** ** The batch taken by [flush] *)

Lemma pop_batch_spec (size : Z) (buf batch : list event) :
  let k := Z.to_nat (size - Z.of_nat (length batch)) in
  pop_batch size buf batch = (drop k buf, batch ++ take k buf).
Proof.
  revert batch. induction buf as [|e rest IH]; intros batch k.
  - simpl. by rewrite drop_nil, take_nil, app_nil_r.
  - simpl. destruct (Z.ltb_spec (Z.of_nat (length batch)) size) as [Hlt|Hge].
    + rewrite IH. rewrite length_app. simpl length.
      replace k with (S (Z.to_nat (size - Z.of_nat (length batch + 1)))) by lia.
      simpl. by rewrite <- app_assoc.
    + replace k with 0%nat by lia. simpl. by rewrite app_nil_r.
Qed.

Lemma pop_batch_fresh (size : Z) (buf : list event) :
  pop_batch size buf [] = (drop (Z.to_nat size) buf, take (Z.to_nat size) buf).
Proof.
  rewrite pop_batch_spec. simpl. by rewrite Z.sub_0_r.
Qed.

(** ** What the retry loop leaves alone *)

Lemma same_config_refl (st : client) : same_config st st.
Proof. by repeat split. Qed.

Lemma same_config_trans (a b c : client) :
  same_config a b -> same_config b c -> same_config a c.
Proof.
  unfold same_config. intros (?&?&?&?&?) (?&?&?&?&?).
  repeat split; congruence.
Qed.

Lemma retry_loop_client (db : database) (batch : list event) (todo : list nat)
    (wait : Q) (st : client) (w : world) :
  let r := retry_loop db batch todo wait st w in
  buffer r.1.1.1 = buffer st /\ same_config st r.1.1.1 /\
  flush_failures r.1.1.1 = flush_failures st /\
  dropped_events r.1.1.1 = dropped_events st.
Proof.
  revert wait w. induction todo as [|attempt todo IH]; intros wait w; simpl.
  - split; [done|]. split; [apply same_config_refl | done].
  - destruct (db (attempts w)); simpl.
    + split; [done|]. split; [by repeat split | done].
    + destruct (Nat.ltb _ _); apply IH.
    + split; [done|]. split; [apply same_config_refl | done].
Qed.

(** ** [flush] only removes events, from the old end *)

Lemma flush_client (db : database) (st : client) (w : world) :
  let r := flush db st w in
  same_config st r.1.1 /\
  exists k : nat, items (buffer r.1.1) = drop k (items (buffer st)).
Proof.
  unfold flush.
  destruct (negb (enabled st) || bool_decide (items (buffer st) = [])).
  { split; [apply same_config_refl | by exists 0%nat]. }
  rewrite pop_batch_fresh.
  destruct (take (Z.to_nat (batch_size st)) (items (buffer st))) as [|e batch] eqn:Hb.
  { split; [by repeat split | eauto]. }
  set (st1 := set_buffer st _).
  pose proof (retry_loop_client db (e :: batch) (seq 0 MAX_RETRIES) (1 # 2)%Q st1
                (emit w IoFlushCall)) as (Hbuf & Hcfg & _).
  destruct (retry_loop _ _ _ _ _ _) as [[[st2 w2] ok] s].
  cbn [fst snd] in Hbuf, Hcfg.
  assert (Hcfg1 : same_config st st1) by by repeat split.
  destruct (same_config_trans _ _ _ Hcfg1 Hcfg) as (?&?&?&?&?).
  destruct s, ok; cbn [fst snd]; (split; [by repeat split|]);
    exists (Z.to_nat (batch_size st)); cbn; by rewrite Hbuf.
Qed.

Lemma flush_dropped_events (db : database) (st : client) (w : world) :
  dropped_events (flush db st w).1.1 = dropped_events st.
Proof.
  unfold flush.
  destruct (negb (enabled st) || bool_decide (items (buffer st) = [])); [done|].
  destruct (pop_batch _ _ _) as [rest [|e batch]]; [done|].
  pose proof (retry_loop_client db (e :: batch) (seq 0 MAX_RETRIES) (1 # 2)%Q
    (set_buffer st (Deque rest (maxlen (buffer st)))) (emit w IoFlushCall))
    as (_ & _ & _ & Hd).
  destruct (retry_loop _ _ _ _ _ _) as [[[st2 w2] ok] s]. cbn [fst snd] in Hd.
  by destruct s, ok.
Qed.

(** ** [enqueue] on a buffer within its capacity *)

Lemma MAX_BUFFER_pos : 0 < MAX_BUFFER.
Proof. reflexivity. Qed.

Lemma enqueue_items (st : client) (e : event) :
  maxlen (buffer st) = MAX_BUFFER ->
  deque_len (buffer st) <= MAX_BUFFER ->
  items (buffer (enqueue st e)) =
    (if deque_len (buffer st) =? MAX_BUFFER
     then tail (items (buffer st)) else items (buffer st)) ++ [e].
Proof.
  unfold enqueue, deque_append, deque_len. intros Hmax Hlen.
  destruct (Z.eqb_spec (Z.of_nat (length (items (buffer st)))) MAX_BUFFER) as [Heq|Hne];
    simpl; rewrite Hmax, length_app; simpl length.
  - destruct (Z.ltb_spec MAX_BUFFER (Z.of_nat (length (items (buffer st)) + 1)));
      [|lia]. simpl.
    destruct (items (buffer st)); [by vm_compute in Heq | done].
  - destruct (Z.ltb_spec MAX_BUFFER (Z.of_nat (length (items (buffer st)) + 1)));
      [lia | done].
Qed.

Lemma enqueue_config (st : client) (e : event) :
  enabled (enqueue st e) = enabled st /\
  maxlen (buffer (enqueue st e)) = maxlen (buffer st) /\
  batch_size (enqueue st e) = batch_size st /\
  flush_seconds (enqueue st e) = flush_seconds st /\
  last_flush_time (enqueue st e) = last_flush_time st.
Proof.
  unfold enqueue, deque_append.
  destruct (deque_len (buffer st) =? MAX_BUFFER); simpl;
    destruct (maxlen (buffer st) <? _); by repeat split.
Qed.

Lemma enqueue_bounded (st : client) (e : event) :
  maxlen (buffer st) = MAX_BUFFER ->
  deque_len (buffer st) <= MAX_BUFFER ->
  deque_len (buffer (enqueue st e)) <= MAX_BUFFER.
Proof.
  intros Hmax Hlen. unfold deque_len at 1. rewrite enqueue_items by done.
  unfold deque_len in *. rewrite length_app. simpl length.
  destruct (Z.eqb_spec (Z.of_nat (length (items (buffer st)))) MAX_BUFFER) as [Heq|Hne].
  - pose proof MAX_BUFFER_pos.
    destruct (items (buffer st)); cbn [tail length] in *; lia.
  - lia.
Qed.

Lemma enqueue_suffix (st : client) (e : event) :
  maxlen (buffer st) = MAX_BUFFER ->
  deque_len (buffer st) <= MAX_BUFFER ->
  items (buffer (enqueue st e)) `suffix_of` items (buffer st) ++ [e].
Proof.
  intros Hmax Hlen. rewrite enqueue_items by done.
  destruct (deque_len (buffer st) =? MAX_BUFFER); [|done].
  apply suffix_app. destruct (items (buffer st)); [done|]. by apply suffix_cons_r.
Qed.

(** ** [log_inference] on an enabled client *)

Lemma log_inference_enabled (db : database) (st : client) (w : world) (a : call) :
  enabled st = true ->
  log_inference db st w a =
    if flush_due (enqueue st (make_event a)) w
    then flush db (enqueue st (make_event a)) w
    else (enqueue st (make_event a), w, Returned).
Proof. intros He. unfold log_inference. by rewrite He. Qed.

Lemma flush_bounded (db : database) (st : client) (w : world) :
  deque_len (buffer (flush db st w).1.1) <= deque_len (buffer st).
Proof.
  destruct (flush_client db st w) as (_ & k & Hk).
  unfold deque_len. rewrite Hk, length_drop. lia.
Qed.

Lemma flush_suffix (db : database) (st : client) (w : world) :
  items (buffer (flush db st w).1.1) `suffix_of` items (buffer st).
Proof.
  destruct (flush_client db st w) as (_ & k & Hk). rewrite Hk. apply suffix_drop.
Qed.

(** One call keeps the client enabled and the buffer within its capacity,
    and what it retains is the newest part of what it held plus the event
    of the call. *)
Lemma step_invariant (db : database) (st : client) (w : world) (o : op) :
  enabled st = true ->
  maxlen (buffer st) = MAX_BUFFER ->
  deque_len (buffer st) <= MAX_BUFFER ->
  let st' := (step db st w o).1.1 in
  enabled st' = true /\ maxlen (buffer st') = MAX_BUFFER /\
  deque_len (buffer st') <= MAX_BUFFER /\
  items (buffer st') `suffix_of` items (buffer st) ++ logged [o].
Proof.
  intros He Hmax Hlen. destruct o as [dt a|dt]; cbn [step logged omap].
  - rewrite log_inference_enabled by done.
    set (st1 := enqueue st (make_event a)).
    destruct (enqueue_config st (make_event a)) as (He1 & Hmax1 & _).
    pose proof (enqueue_bounded st (make_event a) Hmax Hlen) as Hlen1.
    pose proof (enqueue_suffix st (make_event a) Hmax Hlen) as Hsuf1.
    fold st1 in He1, Hmax1, Hlen1, Hsuf1.
    destruct (flush_due st1 (advance w dt)); cbn [fst snd].
    + destruct (flush_client db st1 (advance w dt)) as ((He2 & _ & _ & _ & Hmax2) & _).
      pose proof (flush_bounded db st1 (advance w dt)).
      pose proof (flush_suffix db st1 (advance w dt)).
      repeat split; [congruence | congruence | lia | by etrans].
    + repeat split; [congruence | congruence | done | done].
  - destruct (flush_client db st (advance w dt)) as ((He2 & _ & _ & _ & Hmax2) & _).
    pose proof (flush_bounded db st (advance w dt)).
    pose proof (flush_suffix db st (advance w dt)).
    rewrite app_nil_r. repeat split; [congruence | congruence | lia | done].
Qed.

Lemma logged_cons (o : op) (ops : list op) :
  logged (o :: ops) = logged [o] ++ logged ops.
Proof. unfold logged. simpl. by destruct o. Qed.

Lemma run_invariant (db : database) (ops : list op) (st : client) (w : world) :
  enabled st = true ->
  maxlen (buffer st) = MAX_BUFFER ->
  deque_len (buffer st) <= MAX_BUFFER ->
  let st' := (run db st w ops).1.1 in
  enabled st' = true /\ maxlen (buffer st') = MAX_BUFFER /\
  deque_len (buffer st') <= MAX_BUFFER /\
  items (buffer st') `suffix_of` items (buffer st) ++ logged ops.
Proof.
  revert st w. induction ops as [|o ops IH]; intros st w He Hmax Hlen.
  - simpl. rewrite app_nil_r. done.
  - cbn [run].
    destruct (step_invariant db st w o He Hmax Hlen) as (He1 & Hmax1 & Hlen1 & Hsuf1).
    destruct (step db st w o) as [[st1 w1] s]. cbn [fst snd] in *.
    specialize (IH st1 w1 He1 Hmax1 Hlen1).
    destruct (run db st1 w1 ops) as [[st2 w2] ss]. cbn [fst snd] in *.
    destruct IH as (He2 & Hmax2 & Hlen2 & Hsuf2).
    repeat split; try done.
    rewrite logged_cons, app_assoc.
    etrans; [exact Hsuf2|]. by apply suffix_app.
Qed.

(** C1. Whatever calls an enabled client receives, its buffer never holds
    more than [MAX_BUFFER] = 5000 events, and the events it holds are the
    most recently enqueued ones, in the order they were enqueued (a suffix
    of everything enqueued). When [log_inference] finds the buffer at
    capacity, its enqueue discards the oldest event, appends the new one
    and leaves the buffer at capacity, and the call increments the drop
    counter by exactly 1; below capacity nothing is discarded and the
    counter does not move. *)
Theorem C1_buffer_bounded_drop_oldest
    (db : database) (st : client) (w : world) (ops : list op) (a : call) :
  enabled st = true ->
  maxlen (buffer st) = MAX_BUFFER ->
  deque_len (buffer st) <= MAX_BUFFER ->
  let e := make_event a in
  MAX_BUFFER = 5000 /\
  deque_len (buffer (run db st w ops).1.1) <= MAX_BUFFER /\
  items (buffer (run db st w ops).1.1) `suffix_of` items (buffer st) ++ logged ops /\
  (deque_len (buffer st) = MAX_BUFFER ->
     items (buffer (enqueue st e)) = tail (items (buffer st)) ++ [e] /\
     deque_len (buffer (enqueue st e)) = MAX_BUFFER /\
     items (buffer (log_inference db st w a).1.1)
       `suffix_of` tail (items (buffer st)) ++ [e] /\
     dropped_events (log_inference db st w a).1.1 = dropped_events st + 1) /\
  (deque_len (buffer st) < MAX_BUFFER ->
     items (buffer (enqueue st e)) = items (buffer st) ++ [e] /\
     dropped_events (log_inference db st w a).1.1 = dropped_events st).
Proof.
  intros He Hmax Hlen e.
  destruct (run_invariant db ops st w He Hmax Hlen) as (_ & _ & Hlen' & Hsuf).
  split; [reflexivity|]. split; [done|]. split; [done|].
  pose proof (enqueue_items st e Hmax Hlen) as Hitems.
  assert (Hlog : items (buffer (log_inference db st w a).1.1)
                   `suffix_of` items (buffer (enqueue st e)) /\
                 dropped_events (log_inference db st w a).1.1
                   = dropped_events (enqueue st e)).
  { rewrite log_inference_enabled by done. fold e.
    destruct (flush_due (enqueue st e) w); cbn [fst]; [|done].
    split; [apply flush_suffix | apply flush_dropped_events]. }
  destruct Hlog as (Hlsuf & Hldrop).
  split; intros Hcap.
  - rewrite Hcap, Z.eqb_refl in Hitems. split; [done|]. split; [|split].
    + unfold deque_len in *. rewrite Hitems, length_app. cbn [length].
      pose proof MAX_BUFFER_pos.
      destruct (items (buffer st)); cbn [tail length] in *; lia.
    + by rewrite <- Hitems.
    + rewrite Hldrop. unfold enqueue. rewrite Hcap, Z.eqb_refl. reflexivity.
  - destruct (Z.eqb_spec (deque_len (buffer st)) MAX_BUFFER) as [Heq|Hne]; [lia|].
    split; [done|]. rewrite Hldrop. unfold enqueue.
    destruct (Z.eqb_spec (deque_len (buffer st)) MAX_BUFFER) as [Heq|_]; [lia|].
    reflexivity.
Qed.

(** ** A flush whose five attempts all fail *)

Lemma retry_loop_exhausted (db : database) (batch : list event) (st : client)
    (w : world) :
  (forall k : nat, (k < MAX_RETRIES)%nat -> db (attempts w + k)%nat = WriteTransient) ->
  retry_loop db batch (seq 0 MAX_RETRIES) (1 # 2)%Q st w =
    (st,
     World (clock w + (1 # 2) + (1 # 2) * 2 + (1 # 2) * 2 * 2 + (1 # 2) * 2 * 2 * 2)%Q
           (attempts w + 5)
           (trace w ++
              [IoWrite batch WriteTransient; IoSleep (1 # 2)%Q;
               IoWrite batch WriteTransient; IoSleep ((1 # 2) * 2)%Q;
               IoWrite batch WriteTransient; IoSleep ((1 # 2) * 2 * 2)%Q;
               IoWrite batch WriteTransient; IoSleep ((1 # 2) * 2 * 2 * 2)%Q;
               IoWrite batch WriteTransient]),
     false, Returned).
Proof.
  intros Hdb.
  assert (H0 : db (attempts w) = WriteTransient)
    by (rewrite <- (Nat.add_0_r (attempts w)); apply Hdb; unfold MAX_RETRIES; lia).
  assert (H1 : db (S (attempts w)) = WriteTransient)
    by (replace (S (attempts w)) with (attempts w + 1)%nat by lia;
        apply Hdb; unfold MAX_RETRIES; lia).
  assert (H2 : db (S (S (attempts w))) = WriteTransient)
    by (replace (S (S (attempts w))) with (attempts w + 2)%nat by lia;
        apply Hdb; unfold MAX_RETRIES; lia).
  assert (H3 : db (S (S (S (attempts w)))) = WriteTransient)
    by (replace (S (S (S (attempts w)))) with (attempts w + 3)%nat by lia;
        apply Hdb; unfold MAX_RETRIES; lia).
  assert (H4 : db (S (S (S (S (attempts w))))) = WriteTransient)
    by (replace (S (S (S (S (attempts w))))) with (attempts w + 4)%nat by lia;
        apply Hdb; unfold MAX_RETRIES; lia).
  unfold MAX_RETRIES. cbn [seq retry_loop attempt_write attempts clock trace sleep].
  rewrite H0. cbn [Nat.ltb Nat.leb Nat.sub attempts clock trace sleep].
  rewrite H1. cbn [Nat.ltb Nat.leb Nat.sub attempts clock trace sleep].
  rewrite H2. cbn [Nat.ltb Nat.leb Nat.sub attempts clock trace sleep].
  rewrite H3. cbn [Nat.ltb Nat.leb Nat.sub attempts clock trace sleep].
  rewrite H4. cbn [Nat.ltb Nat.leb Nat.sub attempts clock trace sleep].
  repeat rewrite <- app_assoc. cbn [app].
  replace (attempts w + 5)%nat with (S (S (S (S (S (attempts w)))))) by lia.
  reflexivity.
Qed.

(** C2. When each of the 5 write attempts of a flush fails with an error
    the [except] clause names, [flush] returns without raising, the
    failure counter grows by exactly 1, the batch is gone from the buffer
    and is not put back, no success is recorded, and the sleeps between
    consecutive attempts are 0.5 s, then twice the previous one each time
    (0.5, 1, 2, 4), with no sleep after the last attempt. *)
Theorem C2_flush_exhausted_retries (db : database) (st : client) (w : world) :
  enabled st = true ->
  items (buffer st) <> [] ->
  0 < batch_size st ->
  (forall k : nat, (k < MAX_RETRIES)%nat -> db (attempts w + k)%nat = WriteTransient) ->
  let n := Z.to_nat (batch_size st) in
  let batch := take n (items (buffer st)) in
  let r := flush db st w in
  MAX_RETRIES = 5%nat /\
  r.2 = Returned /\
  flush_failures r.1.1 = flush_failures st + 1 /\
  items (buffer r.1.1) = drop n (items (buffer st)) /\
  insert_success r.1.1 = insert_success st /\
  last_flush_time r.1.1 = last_flush_time st /\
  trace r.1.2 =
    trace w ++
      [IoFlushCall;
       IoWrite batch WriteTransient; IoSleep (1 # 2)%Q;
       IoWrite batch WriteTransient; IoSleep ((1 # 2) * 2)%Q;
       IoWrite batch WriteTransient; IoSleep ((1 # 2) * 2 * 2)%Q;
       IoWrite batch WriteTransient; IoSleep ((1 # 2) * 2 * 2 * 2)%Q;
       IoWrite batch WriteTransient] /\
  Forall2 Qeq (drop (length (slept (trace w))) (slept (trace r.1.2)))
          [0.5; 1; 2; 4]%Q.
Proof.
  intros He Hne Hbs Hdb n batch r.
  assert (Hr : r =
    (set_flush_failures
       (set_buffer st (Deque (drop n (items (buffer st))) (maxlen (buffer st))))
       (flush_failures st + 1),
     World (clock w + (1 # 2) + (1 # 2) * 2 + (1 # 2) * 2 * 2 + (1 # 2) * 2 * 2 * 2)%Q
           (attempts w + 5)
           (trace w ++
              [IoFlushCall;
               IoWrite batch WriteTransient; IoSleep (1 # 2)%Q;
               IoWrite batch WriteTransient; IoSleep ((1 # 2) * 2)%Q;
               IoWrite batch WriteTransient; IoSleep ((1 # 2) * 2 * 2)%Q;
               IoWrite batch WriteTransient; IoSleep ((1 # 2) * 2 * 2 * 2)%Q;
               IoWrite batch WriteTransient]),
     Returned)).
  { subst r. unfold flush. rewrite He. cbn [negb orb].
    rewrite bool_decide_eq_false_2 by done.
    rewrite pop_batch_fresh. fold n. fold batch.
    destruct batch as [|e0 batch0] eqn:Hbatch.
    { exfalso. subst batch. destruct (items (buffer st)); [done|].
      replace n with (S (Z.to_nat (batch_size st - 1))) in Hbatch by lia. done. }
    rewrite retry_loop_exhausted by (cbn [emit attempts]; exact Hdb).
    cbn [emit attempts clock trace set_flush_failures set_buffer flush_failures].
    rewrite <- app_assoc. reflexivity. }
  rewrite Hr. cbn [fst snd trace].
  repeat split; try reflexivity.
  unfold slept. rewrite omap_app. cbn [omap].
  rewrite drop_app_length.
  repeat constructor.
Qed.

(** ** Where a buffered event goes *)

Lemma retry_loop_trace (db : database) (batch : list event) (todo : list nat)
    (wait : Q) (st : client) (w : world) :
  exists ext : list io_event,
    trace (retry_loop db batch todo wait st w).1.1.2 = trace w ++ ext /\
    (todo <> [] -> IoWrite batch (db (attempts w)) ∈ ext).
Proof.
  revert wait w. induction todo as [|attempt todo IH]; intros wait w.
  - exists []. cbn [retry_loop fst snd]. by rewrite app_nil_r.
  - cbn [retry_loop attempt_write].
    destruct (db (attempts w)) eqn:Hr; cbn [fst snd trace].
    + exists [IoWrite batch WriteOk]. split; [done|]. intros _. apply list_elem_of_singleton. done.
    + destruct (Nat.ltb _ _).
      * destruct (IH (wait * 2)%Q
          (sleep (World (clock w) (S (attempts w))
                        (trace w ++ [IoWrite batch WriteTransient])) wait))
          as (ext & Hext & _).
        rewrite Hext. cbn [sleep trace]. rewrite <- !app_assoc.
        eexists. split; [reflexivity|]. intros _. cbn [app]. apply list_elem_of_here.
      * destruct (IH wait
          (World (clock w) (S (attempts w))
                 (trace w ++ [IoWrite batch WriteTransient])))
          as (ext & Hext & _).
        rewrite Hext. cbn [trace]. rewrite <- !app_assoc.
        eexists. split; [reflexivity|]. intros _. cbn [app]. apply list_elem_of_here.
    + exists [IoWrite batch WriteOther]. split; [done|]. intros _. apply list_elem_of_singleton. done.
Qed.

(** An event that [flush] finds in the buffer is afterwards still in the
    buffer or was part of the batch handed to the database. *)
Lemma flush_keeps_or_writes (db : database) (st : client) (w : world) (e : event) :
  e ∈ items (buffer st) ->
  e ∈ items (buffer (flush db st w).1.1) \/
  handed_over w (flush db st w).1.2 e.
Proof.
  intros Hin. unfold flush.
  destruct (negb (enabled st) || bool_decide (items (buffer st) = [])); [by left|].
  rewrite pop_batch_fresh.
  set (n := Z.to_nat (batch_size st)).
  rewrite <- (take_drop n (items (buffer st))) in Hin.
  apply elem_of_app in Hin.
  destruct (take n (items (buffer st))) as [|e0 batch] eqn:Hb.
  { left. cbn [fst set_buffer buffer items]. destruct Hin as [Hin|Hin]; [|done].
    by apply elem_of_nil in Hin. }
  set (st1 := set_buffer st _).
  pose proof (retry_loop_client db (e0 :: batch) (seq 0 MAX_RETRIES) (1 # 2)%Q st1
                (emit w IoFlushCall)) as (Hbuf & _).
  destruct (retry_loop_trace db (e0 :: batch) (seq 0 MAX_RETRIES) (1 # 2)%Q st1
                (emit w IoFlushCall)) as (ext & Hext & Hfirst).
  destruct (retry_loop _ _ _ _ _ _) as [[[st2 w2] ok] s].
  cbn [fst snd] in Hbuf, Hext.
  assert (Hst2 : items (buffer st2) = drop n (items (buffer st))) by by rewrite Hbuf.
  destruct Hin as [Hin|Hin].
  - right.
    assert (Hw : handed_over w w2 e).
    { exists (IoFlushCall :: ext), (e0 :: batch), (db (attempts (emit w IoFlushCall))).
      split; [rewrite Hext; cbn [emit trace]; by rewrite <- app_assoc|].
      split; [|done]. apply list_elem_of_further, Hfirst. done. }
    by destruct s, ok.
  - left. destruct s, ok; cbn [fst set_flush_failures buffer]; by rewrite Hst2.
Qed.

(** The event built by [log_inference] on an enabled client is, when the
    call ends, in the buffer or in a batch handed to the database. *)
Lemma log_inference_lands (db : database) (st : client) (w : world) (a : call) :
  enabled st = true ->
  maxlen (buffer st) = MAX_BUFFER ->
  deque_len (buffer st) <= MAX_BUFFER ->
  make_event a ∈ items (buffer (log_inference db st w a).1.1) \/
  handed_over w (log_inference db st w a).1.2 (make_event a).
Proof.
  intros He Hmax Hlen.
  assert (Hin : make_event a ∈ items (buffer (enqueue st (make_event a)))).
  { rewrite enqueue_items by done. apply elem_of_app. right.
    by apply list_elem_of_singleton. }
  rewrite log_inference_enabled by done.
  destruct (flush_due _ _); [|by left].
  by apply flush_keeps_or_writes.
Qed.

(** ** When [last_flush_time] moves *)

Lemma retry_loop_success (db : database) (batch : list event) (todo : list nat)
    (wait : Q) (st : client) (w : world) :
  let r := retry_loop db batch todo wait st w in
  (r.1.2 = false /\ last_flush_time r.1.1.1 = last_flush_time st /\
   insert_success r.1.1.1 = insert_success st) \/
  (r.1.2 = true /\ last_flush_time r.1.1.1 = clock r.1.1.2 /\
   insert_success r.1.1.1 = insert_success st + Z.of_nat (length batch) /\
   last (trace r.1.1.2) = Some (IoWrite batch WriteOk)).
Proof.
  revert wait w. induction todo as [|attempt todo IH]; intros wait w.
  - left. by repeat split.
  - cbn [retry_loop attempt_write].
    destruct (db (attempts w)); cbn [fst snd].
    + right. cbn [record_success last_flush_time insert_success clock trace].
      repeat split. apply last_snoc.
    + destruct (Nat.ltb _ _); apply IH.
    + left. by repeat split.
Qed.

(** [flush] leaves [last_flush_time] and the success counter alone unless
    its last write attempt committed. *)
Lemma flush_last_flush_time (db : database) (st : client) (w : world) :
  let r := flush db st w in
  (last_flush_time r.1.1 = last_flush_time st /\
   insert_success r.1.1 = insert_success st) \/
  (exists batch : list event,
     last (trace r.1.2) = Some (IoWrite batch WriteOk) /\
     last_flush_time r.1.1 = clock r.1.2 /\
     insert_success r.1.1 = insert_success st + Z.of_nat (length batch)).
Proof.
  unfold flush.
  destruct (negb (enabled st) || bool_decide (items (buffer st) = [])); [by left|].
  destruct (pop_batch _ _ _) as [rest [|e batch]]; [by left|].
  pose proof (retry_loop_success db (e :: batch) (seq 0 MAX_RETRIES) (1 # 2)%Q
    (set_buffer st (Deque rest (maxlen (buffer st)))) (emit w IoFlushCall)) as Hr.
  destruct (retry_loop _ _ _ _ _ _) as [[[st2 w2] ok] s]. cbn [fst snd] in Hr.
  destruct Hr as [(-> & Hl & Hi)|(-> & Hl & Hi & Ht)].
  - left. by destruct s.
  - right. exists (e :: batch). by destruct s.
Qed.

(** ** When [flush] is entered *)

Lemma flush_calls_snoc (t : list io_event) (e : io_event) :
  flush_calls (t ++ [e]) =
    (flush_calls t + (if is_flush_call e then 1 else 0))%nat.
Proof.
  unfold flush_calls. rewrite filter_app, length_app.
  destruct e; reflexivity.
Qed.

Lemma retry_loop_flush_calls (db : database) (batch : list event)
    (todo : list nat) (wait : Q) (st : client) (w : world) :
  flush_calls (trace (retry_loop db batch todo wait st w).1.1.2) =
    flush_calls (trace w).
Proof.
  revert wait w. induction todo as [|attempt todo IH]; intros wait w.
  - reflexivity.
  - cbn [retry_loop attempt_write].
    destruct (db (attempts w)); cbn [fst snd trace].
    + rewrite flush_calls_snoc. cbn. lia.
    + destruct (Nat.ltb _ _); rewrite IH; cbn [sleep trace];
        rewrite ?flush_calls_snoc; cbn; lia.
    + rewrite flush_calls_snoc. cbn. lia.
Qed.

Lemma flush_counts_once (db : database) (st : client) (w : world) :
  flush_calls (trace (flush db st w).1.2) = S (flush_calls (trace w)).
Proof.
  assert (Hw : flush_calls (trace (emit w IoFlushCall)) = S (flush_calls (trace w))).
  { cbn [emit trace]. rewrite flush_calls_snoc. cbn. lia. }
  unfold flush.
  destruct (negb (enabled st) || bool_decide (items (buffer st) = [])); [done|].
  destruct (pop_batch _ _ _) as [rest [|e batch]]; [done|].
  pose proof (retry_loop_flush_calls db (e :: batch) (seq 0 MAX_RETRIES) (1 # 2)%Q
    (set_buffer st (Deque rest (maxlen (buffer st)))) (emit w IoFlushCall)) as Hr.
  destruct (retry_loop _ _ _ _ _ _) as [[[st2 w2] ok] s]. cbn [fst snd] in Hr.
  destruct s, ok; cbn [fst snd]; congruence.
Qed.

Lemma flush_empty (db : database) (st : client) (w : world) :
  items (buffer st) = [] ->
  flush db st w = (st, emit w IoFlushCall, Returned).
Proof.
  intros Hnil. unfold flush. rewrite Hnil.
  rewrite bool_decide_eq_true_2 by done. by rewrite orb_true_r.
Qed.

Lemma flush_due_spec (st : client) (w : world) :
  flush_due st w = true <->
  batch_size st <= deque_len (buffer st) \/
  (inject_Z (flush_seconds st) <= clock w - last_flush_time st)%Q.
Proof.
  unfold flush_due. rewrite orb_true_iff, Z.leb_le, Qle_bool_iff. reflexivity.
Qed.

(** C3. On an enabled client, after the enqueue of [log_inference], [flush]
    is entered exactly when the buffered count has reached the batch size
    or the time elapsed since [last_flush_time] (the construction of the
    client or its last successful flush) has reached the flush interval;
    otherwise the call ends with the enqueue. A [flush] that finds the
    buffer empty changes nothing and makes no write attempt, and a [flush]
    moves [last_flush_time] only when its last write attempt committed. *)
Theorem C3_flush_trigger (db : database) (st : client) (w : world) (a : call) :
  enabled st = true ->
  let st1 := enqueue st (make_event a) in
  let due :=
    batch_size st <= deque_len (buffer st1) \/
    (inject_Z (flush_seconds st) <= clock w - last_flush_time st)%Q in
  let r := log_inference db st w a in
  (due <-> flush_calls (trace r.1.2) = S (flush_calls (trace w))) /\
  (due -> r = flush db st1 w) /\
  (~ due -> r = (st1, w, Returned)) /\
  (forall (st' : client) (w' : world),
     items (buffer st') = [] ->
     flush db st' w' = (st', emit w' IoFlushCall, Returned) /\
     attempts (flush db st' w').1.2 = attempts w' /\
     writes (trace (flush db st' w').1.2) = writes (trace w')) /\
  (forall (st' : client) (w' : world),
     last_flush_time (flush db st' w').1.1 = last_flush_time st' \/
     exists batch : list event,
       last (trace (flush db st' w').1.2) = Some (IoWrite batch WriteOk) /\
       last_flush_time (flush db st' w').1.1 = clock (flush db st' w').1.2).
Proof.
  intros He st1 due r.
  assert (Hdue : flush_due st1 w = true <-> due).
  { rewrite flush_due_spec. subst due.
    destruct (enqueue_config st (make_event a)) as (_ & _ & Hbs & Hfs & Hlt).
    fold st1 in Hbs, Hfs, Hlt. by rewrite Hbs, Hfs, Hlt. }
  assert (Hr : r = if flush_due st1 w then flush db st1 w else (st1, w, Returned)).
  { subst r. by rewrite log_inference_enabled. }
  split; [|split; [|split; [|split]]].
  - rewrite <- Hdue, Hr. destruct (flush_due st1 w).
    + split; [intros _; apply flush_counts_once | done].
    + cbn [fst snd]. split; [done | lia].
  - intros Hd. apply Hdue in Hd. by rewrite Hr, Hd.
  - intros Hd. rewrite Hr. destruct (flush_due st1 w); [|done].
    exfalso. by apply Hd, Hdue.
  - intros st' w' Hnil. rewrite (flush_empty db st' w' Hnil). cbn [fst snd emit attempts trace].
    split; [done|]. split; [done|].
    unfold writes. rewrite omap_app. cbn [omap]. by rewrite app_nil_r.
  - intros st' w'.
    destruct (flush_last_flush_time db st' w') as [(Hl & _)|(batch & Ht & Hl & _)];
      [by left | right; by exists batch].
Qed.

(** ** A disabled client *)

(** The three ways the [try] of the constructor can end: both settings
    parse, the second does not, the first does not. *)
Ltac case_parsed_config :=
  match goal with
  | |- context [getenv_int ?p ?env "DRIFTWATCH_BATCH_SIZE" ?d] =>
      destruct (getenv_int p env "DRIFTWATCH_BATCH_SIZE" d);
      [ match goal with
        | |- context [getenv_int ?p' ?env' "DRIFTWATCH_FLUSH_SECONDS" ?d'] =>
            destruct (getenv_int p' env' "DRIFTWATCH_FLUSH_SECONDS" d')
        end
      | ]
  end.

Lemma log_inference_disabled (db : database) (st : client) (w : world) (a : call) :
  enabled st = false -> log_inference db st w a = (st, w, Returned).
Proof. intros He. unfold log_inference. by rewrite He. Qed.

Lemma flush_disabled (db : database) (st : client) (w : world) :
  enabled st = false -> flush db st w = (st, emit w IoFlushCall, Returned).
Proof. intros He. unfold flush. by rewrite He. Qed.

Lemma run_disabled (db : database) (st : client) (ops : list op) (w : world) :
  enabled st = false ->
  let r := run db st w ops in
  r.1.1 = st /\ Forall (fun s => s = Returned) r.2 /\
  attempts r.1.2 = attempts w /\
  writes (trace r.1.2) = writes (trace w) /\
  slept (trace r.1.2) = slept (trace w).
Proof.
  intros He. revert w. induction ops as [|o ops IH]; intros w.
  - by repeat split.
  - cbn [run].
    assert (Hstep : exists w1, step db st w o = (st, w1, Returned) /\
              attempts w1 = attempts w /\ writes (trace w1) = writes (trace w) /\
              slept (trace w1) = slept (trace w)).
    { destruct o as [dt a|dt]; cbn [step].
      - rewrite log_inference_disabled by done. by eexists.
      - rewrite flush_disabled by done. eexists. split; [done|].
        cbn [emit advance attempts trace]. unfold writes, slept.
        rewrite !omap_app. cbn [omap]. by rewrite !app_nil_r. }
    destruct Hstep as (w1 & -> & Ha & Hw & Hs).
    specialize (IH w1). destruct (run db st w1 ops) as [[st2 w2] ss].
    cbn [fst snd] in *. destruct IH as (-> & Hall & Ha2 & Hw2 & Hs2).
    repeat split; [by constructor | congruence | congruence | congruence].
Qed.

(** C4. A client constructed without [DRIFTWATCH_DATABASE_URL] is disabled
    (the constructor is total: it has no failing path), and from then on
    every [log_inference] and every [flush] returns normally and leaves the
    client as it was: nothing is buffered, no counter moves, no write
    attempt and no sleep is made. *)
Theorem C4_missing_dsn_noop (py_int : string -> option Z)
    (env : gmap string string) (now : Q) (db : database) (w : world)
    (ops : list op) (a : call) :
  getenv env "DRIFTWATCH_DATABASE_URL" = None ->
  let st := init py_int env now in
  let r := run db st w ops in
  enabled st = false /\
  log_inference db st w a = (st, w, Returned) /\
  (flush db st w).1.1 = st /\ (flush db st w).2 = Returned /\
  r.1.1 = st /\ items (buffer r.1.1) = [] /\
  Forall (fun s => s = Returned) r.2 /\
  attempts r.1.2 = attempts w /\
  writes (trace r.1.2) = writes (trace w) /\
  slept (trace r.1.2) = slept (trace w).
Proof.
  intros Hdsn st r.
  assert (He : enabled st = false).
  { subst st. unfold init. rewrite Hdsn. cbn [dsn_present negb].
    case_parsed_config; cbn [enabled]; by destruct (String.eqb _ _). }
  destruct (run_disabled db st ops w He) as (Hst & Hall & Ha & Hw & Hs).
  fold r in Hst, Hall, Ha, Hw, Hs.
  split; [done|]. split; [by apply log_inference_disabled|].
  rewrite (flush_disabled db st w He). cbn [fst snd].
  repeat split; try done.
  rewrite Hst. subst st. unfold init. case_parsed_config; reflexivity.
Qed.

(** ** What is buffered *)

Lemma sanitize_spec (v : pyval) :
  sanitize v = if nonfinite_float v then PNone else v.
Proof.
  destruct v as [| | |f| | |]; try reflexivity.
  unfold sanitize, nonfinite_float, is_finite. rewrite negb_involutive.
  by destruct (math_isnan f || math_isinf f).
Qed.

Lemma sanitize_top_level (v : pyval) : nonfinite_float (sanitize v) = false.
Proof.
  rewrite sanitize_spec. destruct (nonfinite_float v) eqn:Hv; [reflexivity | exact Hv].
Qed.

Lemma sanitized_map_lookup (m : gmap string pyval) (k : string) (v : pyval) :
  (sanitize <$> m) !! k = Some v -> nonfinite_float v = false.
Proof.
  rewrite lookup_fmap. destruct (m !! k) as [v0|]; [|done].
  intros [= <-]. apply sanitize_top_level.
Qed.

Lemma enqueue_last (st : client) (e : event) :
  maxlen (buffer st) = MAX_BUFFER ->
  deque_len (buffer st) <= MAX_BUFFER ->
  last (items (buffer (enqueue st e))) = Some e.
Proof.
  intros Hmax Hlen. rewrite enqueue_items by done. apply last_snoc.
Qed.

(** C5, as the code has it. On an enabled client the event appended by
    [log_inference] (which is then in the buffer or in the batch being
    written) carries the feature and segment maps with the sanitizer
    applied once to each of their values: a value that is itself a float
    NaN or infinity becomes [None], every other value is kept as it is,
    lists and dictionaries included, whatever they contain. So no value of
    the two buffered maps is itself a non-finite float. *)
Theorem C5_top_level_values_sanitized (db : database) (st : client) (w : world)
    (a : call) :
  enabled st = true ->
  maxlen (buffer st) = MAX_BUFFER ->
  deque_len (buffer st) <= MAX_BUFFER ->
  let e := make_event a in
  last (items (buffer (enqueue st e))) = Some e /\
  (e ∈ items (buffer (log_inference db st w a).1.1) \/
   handed_over w (log_inference db st w a).1.2 e) /\
  (forall v, sanitize v = if nonfinite_float v then PNone else v) /\
  (forall l, sanitize (PList l) = PList l) /\
  (forall d, sanitize (PDict d) = PDict d) /\
  (forall k, features_json e !! k = sanitize <$> a_features_json a !! k) /\
  (forall k, segment_json e !! k = sanitize <$> a_segment_json a !! k) /\
  (forall k v, features_json e !! k = Some v -> nonfinite_float v = false) /\
  (forall k v, segment_json e !! k = Some v -> nonfinite_float v = false).
Proof.
  intros He Hmax Hlen e.
  split; [by apply enqueue_last|].
  split; [by apply log_inference_lands|].
  split; [apply sanitize_spec|].
  split; [done|]. split; [done|].
  split; [intros k; apply lookup_fmap|].
  split; [intros k; apply lookup_fmap|].
  split; intros k v; apply sanitized_map_lookup.
Qed.

(** C10. On an enabled client the event appended by [log_inference] (which
    is then in the buffer or in the batch being written) stores the numeric
    prediction sanitized: a NaN or an infinity is stored as [None], a
    finite float is stored unchanged. *)
Theorem C10_prediction_sanitized (db : database) (st : client) (w : world)
    (a : call) (f : spec_float) :
  enabled st = true ->
  maxlen (buffer st) = MAX_BUFFER ->
  deque_len (buffer st) <= MAX_BUFFER ->
  a_y_pred_num a = PFloat f ->
  let e := make_event a in
  log_inference db st w a =
    (if flush_due (enqueue st e) w then flush db (enqueue st e) w
     else (enqueue st e, w, Returned)) /\
  last (items (buffer (enqueue st e))) = Some e /\
  (e ∈ items (buffer (log_inference db st w a).1.1) \/
   handed_over w (log_inference db st w a).1.2 e) /\
  y_pred_num e = (if is_finite f then PFloat f else PNone) /\
  (f = S754_nan -> y_pred_num e = PNone) /\
  (forall s, f = S754_infinity s -> y_pred_num e = PNone).
Proof.
  intros He Hmax Hlen Hy e.
  split; [by apply log_inference_enabled|].
  split; [by apply enqueue_last|].
  split; [by apply log_inference_lands|].
  subst e. unfold make_event. cbn [y_pred_num]. rewrite Hy.
  split; [|split].
  - unfold sanitize, is_finite. by destruct (math_isnan f || math_isinf f).
  - by intros ->.
  - by intros s ->.
Qed.

(** ** The capacity *)

Lemma step_maxlen (db : database) (st : client) (w : world) (o : op) :
  maxlen (buffer (step db st w o).1.1) = maxlen (buffer st).
Proof.
  destruct o as [dt a|dt]; cbn [step].
  - unfold log_inference. destruct (enabled st); cbn [negb fst]; [|done].
    destruct (enqueue_config st (make_event a)) as (_ & Hmax & _).
    destruct (flush_due _ _); cbn [fst]; [|done].
    destruct (flush_client db (enqueue st (make_event a)) (advance w dt))
      as ((_ & _ & _ & _ & Hmax2) & _). congruence.
  - by destruct (flush_client db st (advance w dt)) as ((_ & _ & _ & _ & Hmax2) & _).
Qed.

Lemma run_maxlen (db : database) (ops : list op) (st : client) (w : world) :
  maxlen (buffer (run db st w ops).1.1) = maxlen (buffer st).
Proof.
  revert st w. induction ops as [|o ops IH]; intros st w; [done|].
  cbn [run]. pose proof (step_maxlen db st w o) as Hs.
  destruct (step db st w o) as [[st1 w1] s]. cbn [fst] in Hs.
  specialize (IH st1 w1). destruct (run db st1 w1 ops) as [[st2 w2] ss].
  cbn [fst] in *. congruence.
Qed.

Lemma init_maxlen (py_int : string -> option Z) (env : gmap string string) (now : Q) :
  maxlen (buffer (init py_int env now)) = MAX_BUFFER.
Proof.
  unfold init. case_parsed_config; reflexivity.
Qed.

(** C6, as the code has it. The capacity of the buffer is the constant
    [MAX_BUFFER] = 5000: the constructor gives the deque that bound whatever
    the environment holds, and no call changes it. The environment sets
    the batch size and the flush interval only. *)
Theorem C6_capacity_is_fixed (py_int : string -> option Z)
    (env : gmap string string) (now : Q) (db : database) (w : world)
    (ops : list op) :
  MAX_BUFFER = 5000 /\
  maxlen (buffer (init py_int env now)) = 5000 /\
  maxlen (buffer (run db (init py_int env now) w ops).1.1) = 5000.
Proof.
  split; [reflexivity|]. rewrite run_maxlen, init_maxlen. done.
Qed.

(** * Properties of the metrics job *)

(** ** PSI *)

Lemma psi_term_self (p : Q) : psi_term p p = 0%R.
Proof. unfold psi_term. rewrite Rminus_diag. apply Rmult_0_l. Qed.

Lemma Rsum_psi_self (l : list Q) : Rsum (zip_with psi_term l l) = 0%R.
Proof.
  induction l as [|p l IH]; [reflexivity|].
  cbn [zip_with Rsum foldr]. fold (Rsum (zip_with psi_term l l)).
  rewrite IH, psi_term_self. apply Rplus_0_l.
Qed.

(** The floor of line 43 leaves no proportion equal to zero, so every
    ratio under the logarithm is a ratio of non-zero numbers. *)
Lemma percents_nonzero (counts : list Z) (n : nat) :
  Forall (fun p => ~ (p == 0)%Q) (percents counts n).
Proof.
  unfold percents. apply Forall_map, Forall_forall. intros c _. cbn beta zeta.
  destruct (Qeq_bool _ 0) eqn:Hz.
  - intros H. discriminate H.
  - by apply Qeq_bool_neq.
Qed.

Lemma clamp_bins_single (b : edge) : clamp_bins [b] = Return [PosInf].
Proof. reflexivity. Qed.

(** C7. [compute_psi] returns 0.0 when the baseline sample is empty, when
    the current sample is empty, and when the quantile binning of the
    baseline gives no bin at all: [pd.qcut] raises [ValueError], or it
    returns a single edge, between which no interval lies. *)
Theorem C7_psi_zero_when_empty_or_degenerate
    (qcut : list Q -> Z -> result (list edge))
    (expected actual : list Q) (buckets : Z) :
  expected = [] \/ actual = [] \/
  qcut expected buckets = Raise ValueError \/
  (exists b, qcut expected buckets = Return [b]) ->
  compute_psi qcut expected actual buckets = Return 0%R.
Proof.
  intros H. unfold compute_psi.
  destruct expected as [|x xs]; [reflexivity|].
  destruct actual as [|y ys]; [reflexivity|].
  cbn [length Nat.eqb orb].
  destruct H as [H|[H|[H|[b H]]]]; try discriminate H; rewrite H.
  - reflexivity.
  - rewrite clamp_bins_single. reflexivity.
Qed.

(** C8. For a non-empty sample used as both baseline and current sample,
    [compute_psi] returns 0: both samples fall into the bins of the
    baseline in the same proportions, so every term of the sum is zero.
    (The quantile binning is any function that, on this sample, raises
    [ValueError] or returns at least one edge.) *)
Theorem C8_psi_of_sample_against_itself
    (qcut : list Q -> Z -> result (list edge)) (x : list Q) (buckets : Z) :
  x <> [] ->
  qcut x buckets = Raise ValueError \/
  (exists b bins, qcut x buckets = Return (b :: bins)) ->
  compute_psi qcut x x buckets = Return 0%R.
Proof.
  intros Hx H. unfold compute_psi.
  destruct x as [|v vs]; [done|]. cbn [length Nat.eqb orb].
  destruct H as [H|(b & bins & H)]; rewrite H; [reflexivity|].
  cbn [clamp_bins]. by rewrite Rsum_psi_self.
Qed.

(** ** F1 *)

Lemma y_true_binary_length (rows : list perf_row) (truth : list Z) :
  y_true_binary rows = Return truth -> length truth = length rows.
Proof.
  revert truth. induction rows as [|r rows IH]; intros truth; cbn [y_true_binary].
  - by intros [= <-].
  - destruct (r_y_true_num r); [|done].
    destruct (y_true_binary rows) as [l|]; [|done].
    intros [= <-]. cbn [length]. by rewrite (IH l).
Qed.

(** The counts taken over the two binarised columns are the counts of the
    rows with that prediction and that true class. *)
Lemma count_pairs_rows (positive : bool) (z : Z) (rows : list perf_row)
    (truth : list Z) :
  y_true_binary rows = Return truth ->
  count_pairs (if positive then 1 else 0) z (map y_pred_binary rows) truth =
    confusion_count positive z rows.
Proof.
  unfold count_pairs, confusion_count. intros H. f_equal. revert truth H.
  induction rows as [|r rows IH]; intros truth; cbn [y_true_binary].
  - by intros [= <-].
  - destruct (r_y_true_num r) as [t|] eqn:Ht; [|done].
    destruct (y_true_binary rows) as [l|]; [|done].
    intros [= <-]. cbn [map zip zip_with]. rewrite !filter_cons.
    specialize (IH l eq_refl).
    assert (Heq : ((y_pred_binary r =? (if positive then 1 else 0)) &&
                   (Z.quot (Qnum t) (Z.pos (Qden t)) =? z)) =
                  (Bool.eqb (predicted_positive r) positive && truth_is z r)).
    { unfold y_pred_binary, predicted_positive, truth_is. rewrite Ht.
      destruct (r_y_pred_num r) as [p|]; [destruct (Qle_bool (1 # 2) p)|];
        by destruct positive. }
    cbn [fst snd]. rewrite Heq.
    destruct (Bool.eqb (predicted_positive r) positive && truth_is z r) eqn:Hc.
    + rewrite decide_True by done. rewrite decide_True by done.
      cbn [length]. by rewrite IH.
    + rewrite decide_False by done. rewrite decide_False by done. exact IH.
Qed.
Lemma y_true_binary_present (rows : list perf_row) :
  Forall (fun r => is_Some (r_y_true_num r)) rows ->
  exists truth : list Z, y_true_binary rows = Return truth.
Proof.
  induction 1 as [|r rows [t Ht] _ [truth IH]]; [by exists []|].
  cbn [y_true_binary]. rewrite Ht, IH. by eexists.
Qed.

(** C9, amended. For a day with at least 200 label-joined rows whose first
    row says [classification] and whose rows all have a numeric true value,
    the cast of the true values to integers succeeds and the job appends
    exactly one performance metric, [f1], computed as follows: a row is
    predicted positive when its prediction is at least 0.5, its true class
    is its true value cast to an integer, tp, fp and fn count the rows
    (positive, 1), (positive, 0) and (not positive, 1), and precision,
    recall and F1 are tp/(tp+fp), tp/(tp+fn) and 2pr/(p+r), each taken to
    be 0 when its denominator is 0. On the predictions 0.9, 0.1, 0.6, 0.4
    against the truths 1, 0, 1, 0 this F1 is 1, and so it is for a day made
    of 200 such rows. *)
Theorem C9_classification_f1 (df_perf : list perf_row) (first : perf_row) :
  head df_perf = Some first ->
  r_pred_type first = "classification"%string ->
  200 <= Z.of_nat (length df_perf) ->
  Forall (fun r => is_Some (r_y_true_num r)) df_perf ->
  let tp := confusion_count true 1 df_perf in
  let fp := confusion_count true 0 df_perf in
  let fn := confusion_count false 1 df_perf in
  let precision := precision_of tp fp in
  let recall := recall_of tp fn in
  performance_metrics df_perf =
    Return [("f1"%string, Some (f1_of precision recall))] /\
  (0 < tp + fp -> precision = (inject_Z tp / inject_Z (tp + fp))%Q) /\
  (tp + fp = 0 -> precision = 0%Q) /\
  (0 < tp + fn -> recall = (inject_Z tp / inject_Z (tp + fn))%Q) /\
  (tp + fn = 0 -> recall = 0%Q) /\
  ((0 < precision + recall)%Q ->
     f1_of precision recall =
       (2 * (precision * recall) / (precision + recall))%Q) /\
  ((precision + recall == 0)%Q -> f1_of precision recall = 0%Q) /\
  (exists f, f1_score example_rows = Return f /\ (f == 1)%Q) /\
  (exists f, performance_metrics example_day = Return [("f1"%string, Some f)] /\
             (f == 1)%Q) /\
  (exists truth : list Z,
     y_true_binary df_perf = Return truth /\ length truth = length df_perf).
Proof.
  intros Hhead Htype Hlen Hpresent tp fp fn precision recall.
  destruct (y_true_binary_present df_perf Hpresent) as (truth & Htruth).
  split.
  { destruct df_perf as [|r rows]; [done|]. injection Hhead as ->.
    unfold performance_metrics. rewrite Htype.
    destruct (Z.leb_spec 200 (Z.of_nat (length (first :: rows)))); [|lia].
    cbn [String.eqb Ascii.eqb Bool.eqb]. unfold f1_score. rewrite Htruth.
    rewrite (count_pairs_rows true 1 _ _ Htruth).
    rewrite (count_pairs_rows true 0 _ _ Htruth).
    rewrite (count_pairs_rows false 1 _ _ Htruth).
    reflexivity. }
  split. { intros H. subst precision. unfold precision_of.
           by destruct (Z.ltb_spec 0 (tp + fp)); [|lia]. }
  split. { intros H. subst precision. unfold precision_of. by rewrite H. }
  split. { intros H. subst recall. unfold recall_of.
           by destruct (Z.ltb_spec 0 (tp + fn)); [|lia]. }
  split. { intros H. subst recall. unfold recall_of. by rewrite H. }
  split. { intros H. unfold f1_of.
           destruct (Qlt_le_dec 0 (precision + recall)) as [_|Hle]; [done|].
           exfalso. by apply (Qlt_not_le _ _ H). }
  split. { intros H. unfold f1_of.
           destruct (Qlt_le_dec 0 (precision + recall)) as [Hlt|_]; [|done].
           exfalso. rewrite H in Hlt. by apply (Qlt_irrefl 0). }
  split. { eexists. split; [vm_compute; reflexivity | reflexivity]. }
  split. { eexists. split; [vm_compute; reflexivity | reflexivity]. }
  exists truth. split; [exact Htruth|]. by apply y_true_binary_length.
Qed.

(** * Concrete runs *)

(** The constructor reads the batch size and the flush interval, and falls
    back to both defaults when either does not parse. *)
Example init_reads_environment :
  batch_size (init decimal_int env_slow 0) = 10000 /\
  flush_seconds (init decimal_int env_slow 0) = 3600 /\
  batch_size (init decimal_int
    (<["DRIFTWATCH_FLUSH_SECONDS" := "soon"]> env_slow) 0) = DEFAULT_BATCH_SIZE /\
  enabled (init decimal_int (<["DRIFTWATCH_ENABLED" := "False"]> env_ok) 0) = false /\
  enabled (init decimal_int (<["DRIFTWATCH_ENABLED" := "TRUE"]> env_ok) 0) = true.
Proof. repeat split; vm_compute; reflexivity. Qed.

(** Fifty calls on a fresh client with the database up: the fiftieth
    reaches the batch size, and one write empties the buffer. *)
Example fifty_calls_one_write :
  let ops := map (fun n => OpLog 0 (sample_call (Z.of_nat n) PNone)) (seq 0 50) in
  let r := run db_up default_client world0 ops in
  items (buffer r.1.1) = [] /\ insert_success r.1.1 = 50 /\
  flush_calls (trace r.1.2) = 1%nat /\ length (writes (trace r.1.2)) = 1%nat /\
  dropped_events r.1.1 = 0.
Proof. repeat split; vm_compute; reflexivity. Qed.

(** With the database down each flush costs five attempts and four sleeps,
    and the events of the batch are lost. *)
Example database_down_loses_batch :
  let ops := map (fun n => OpLog 0 (sample_call (Z.of_nat n) PNone)) (seq 0 50) in
  let r := run db_down default_client world0 ops in
  items (buffer r.1.1) = [] /\ insert_success r.1.1 = 0 /\
  flush_failures r.1.1 = 1 /\ length (writes (trace r.1.2)) = 5%nat /\
  Forall2 Qeq (slept (trace r.1.2)) [0.5; 1; 2; 4]%Q.
Proof.
  repeat split; try (vm_compute; reflexivity).
  vm_compute. repeat constructor.
Qed.

(** An exception that the [except] clause does not name leaves [flush]
    with the batch already taken out of the buffer. *)
Example other_exception_escapes :
  let st := enqueue default_client (make_event (sample_call 0 PNone)) in
  let r := flush (fun _ => WriteOther) st world0 in
  r.2 = Raised /\ items (buffer r.1.1) = [] /\ flush_failures r.1.1 = 0.
Proof. repeat split; vm_compute; reflexivity. Qed.

(** A time-triggered flush: one event, six seconds after construction. *)
Example flush_after_interval :
  let r := run db_up default_client world0 [OpLog 6 (sample_call 0 PNone)] in
  items (buffer r.1.1) = [] /\ insert_success r.1.1 = 1 /\
  Qeq (last_flush_time r.1.1) 6.
Proof. repeat split; vm_compute; reflexivity. Qed.

(** The sanitizer on the values of the smoke test. *)
Example sanitize_values :
  sanitize (PFloat S754_nan) = PNone /\
  sanitize (PFloat (S754_infinity true)) = PNone /\
  sanitize (PFloat float_one) = PFloat float_one /\
  sanitize (PStr "TEST") = PStr "TEST" /\
  sanitize (PList [PFloat S754_nan]) = PList [PFloat S754_nan].
Proof. repeat split. Qed.

(** Quantile edges and bin counts of a small baseline. *)
Example bins_of_small_sample :
  quantile_bins [1; 2; 2; 2; 2; 5; 7]%Q 4
    = Return [Fin 1; Fin 2; Fin (7 # 2); Fin 7] /\
  clamp_bins [Fin 1; Fin 2; Fin (7 # 2); Fin 7]
    = Return [NegInf; Fin 2; Fin (7 # 2); PosInf] /\
  cut_counts [1; 2; 2; 2; 2; 5; 7]%Q [NegInf; Fin 2; Fin (7 # 2); PosInf]
    = [5; 0; 2] /\
  percents [5; 0; 2] 7 = [(5 # 7)%Q; (1 # 10000)%Q; (2 # 7)%Q].
Proof. repeat split; vm_compute; reflexivity. Qed.

(** Fewer than 200 joined rows: no performance metric. *)
Example too_few_labels : performance_metrics example_rows = Return [].
Proof. reflexivity. Qed.

(** * The theorems on concrete runs *)

(** C1 on a full buffer that nothing drains: two more events and a flush. *)
Lemma C1_witness :
  enabled full_client = true /\
  maxlen (buffer full_client) = MAX_BUFFER /\
  deque_len (buffer full_client) <= MAX_BUFFER /\
  deque_len (buffer full_client) = MAX_BUFFER /\
  deque_len (buffer (run db_down full_client world0
     [OpLog 1 (sample_call 5000 PNone); OpLog 1 (sample_call 5001 PNone);
      OpFlush 0]).1.1) <= MAX_BUFFER /\
  dropped_events
    (log_inference db_down full_client world0 (sample_call 5000 PNone)).1.1 = 1.
Proof.
  assert (He : enabled full_client = true) by (vm_compute; reflexivity).
  assert (Hmax : maxlen (buffer full_client) = MAX_BUFFER) by reflexivity.
  assert (Hcap : deque_len (buffer full_client) = MAX_BUFFER)
    by (vm_compute; reflexivity).
  assert (Hlen : deque_len (buffer full_client) <= MAX_BUFFER)
    by (rewrite Hcap; apply Z.le_refl).
  destruct (C1_buffer_bounded_drop_oldest db_down full_client world0
    [OpLog 1 (sample_call 5000 PNone); OpLog 1 (sample_call 5001 PNone); OpFlush 0]
    (sample_call 5000 PNone) He Hmax Hlen)
    as (_ & Hbound & _ & Hfull & _).
  destruct (Hfull Hcap) as (_ & _ & _ & Hdrop).
  split; [exact He|]. split; [exact Hmax|]. split; [exact Hlen|].
  split; [exact Hcap|]. split; [exact Hbound|].
  rewrite Hdrop. vm_compute. reflexivity.
Defined.

(** C2 on a client holding one event, with the database down. *)
Lemma C2_witness :
  let st := enqueue default_client (make_event (sample_call 0 PNone)) in
  enabled st = true /\ items (buffer st) <> [] /\ 0 < batch_size st /\
  (forall k : nat, (k < MAX_RETRIES)%nat -> db_down (attempts world0 + k)%nat = WriteTransient) /\
  (flush db_down st world0).2 = Returned /\
  flush_failures (flush db_down st world0).1.1 = flush_failures st + 1 /\
  items (buffer (flush db_down st world0).1.1) = [].
Proof.
  intros st.
  assert (He : enabled st = true) by (vm_compute; reflexivity).
  assert (Hne : items (buffer st) <> []) by (vm_compute; discriminate).
  assert (Hbs : 0 < batch_size st) by (vm_compute; reflexivity).
  assert (Hdb : forall k : nat, (k < MAX_RETRIES)%nat ->
                  db_down (attempts world0 + k)%nat = WriteTransient)
    by (intros k _; reflexivity).
  destruct (C2_flush_exhausted_retries db_down st world0 He Hne Hbs Hdb)
    as (_ & Hret & Hfail & Hbuf & _).
  split; [exact He|]. split; [exact Hne|]. split; [exact Hbs|].
  split; [exact Hdb|]. split; [exact Hret|]. split; [exact Hfail|].
  rewrite Hbuf. vm_compute. reflexivity.
Defined.

(** C3 on the first call of a fresh client: one event, no time elapsed. *)
Lemma C3_witness :
  enabled default_client = true /\
  log_inference db_up default_client world0 (sample_call 0 PNone) =
    (enqueue default_client (make_event (sample_call 0 PNone)), world0, Returned).
Proof.
  assert (He : enabled default_client = true) by (vm_compute; reflexivity).
  split; [exact He|].
  destruct (C3_flush_trigger db_up default_client world0 (sample_call 0 PNone) He)
    as (_ & _ & Hnot & _).
  apply Hnot. intros [H|H]; vm_compute in H; by apply H.
Defined.

(** C4 on an environment without the connection string. *)
Lemma C4_witness :
  getenv env_no_dsn "DRIFTWATCH_DATABASE_URL" = None /\
  enabled (init decimal_int env_no_dsn 0) = false /\
  (run db_up (init decimal_int env_no_dsn 0) world0
     [OpLog 1 (sample_call 0 PNone); OpFlush 6; OpLog 1 (sample_call 1 PNone)]).1.1
    = init decimal_int env_no_dsn 0.
Proof.
  assert (Hdsn : getenv env_no_dsn "DRIFTWATCH_DATABASE_URL" = None)
    by (vm_compute; reflexivity).
  destruct (C4_missing_dsn_noop decimal_int env_no_dsn 0 db_up world0
    [OpLog 1 (sample_call 0 PNone); OpFlush 6; OpLog 1 (sample_call 1 PNone)]
    (sample_call 0 PNone) Hdsn) as (He & _ & _ & _ & Hrun & _).
  split; [exact Hdsn|]. split; [exact He | exact Hrun].
Defined.

(** C5, as the code has it, on the call of the smoke test: the NaN that is
    a value of the feature map is stored as [None]. *)
Lemma C5_witness :
  enabled default_client = true /\
  maxlen (buffer default_client) = MAX_BUFFER /\
  deque_len (buffer default_client) <= MAX_BUFFER /\
  a_features_json (sample_call 0 PNone) !! "nan_check"%string = Some (PFloat S754_nan) /\
  features_json (make_event (sample_call 0 PNone)) !! "nan_check"%string = Some PNone.
Proof.
  assert (He : enabled default_client = true) by (vm_compute; reflexivity).
  assert (Hmax : maxlen (buffer default_client) = MAX_BUFFER) by reflexivity.
  assert (Hlen : deque_len (buffer default_client) <= MAX_BUFFER)
    by (apply Z.leb_le; vm_compute; reflexivity).
  assert (Hin : a_features_json (sample_call 0 PNone) !! "nan_check"%string
                = Some (PFloat S754_nan)) by (vm_compute; reflexivity).
  destruct (C5_top_level_values_sanitized db_up default_client world0
              (sample_call 0 PNone) He Hmax Hlen) as (_ & _ & _ & _ & _ & Hfeat & _).
  split; [exact He|]. split; [exact Hmax|]. split; [exact Hlen|].
  split; [exact Hin|]. rewrite Hfeat, Hin. reflexivity.
Defined.

(** C5 as the specification states it fails: a NaN inside a list that is a
    value of the feature map reaches the buffer unchanged. *)
Lemma C5_nested_nan_is_buffered :
  exists e : event,
    items (buffer (log_inference db_up default_client world0 nested_call).1.1) = [e] /\
    features_json e !! "window"%string = Some (PList [PFloat float_one; PFloat S754_nan]) /\
    deep_finite (PList [PFloat float_one; PFloat S754_nan]) = false /\
    ~ map_deep_finite (features_json e).
Proof.
  exists (make_event nested_call).
  split; [vm_compute; reflexivity|].
  assert (Hl : features_json (make_event nested_call) !! "window"%string
               = Some (PList [PFloat float_one; PFloat S754_nan]))
    by (vm_compute; reflexivity).
  split; [exact Hl|]. split; [reflexivity|].
  intros Hall. specialize (Hall _ _ Hl). discriminate Hall.
Qed.

(** C6 as the specification states it fails: no environment gives the
    buffer another capacity, not even one that names a capacity. *)
Lemma C6_capacity_ignores_environment :
  maxlen (buffer (init decimal_int env_capacity 0)) = 5000 /\
  ~ (exists (py_int : string -> option Z) (env : gmap string string) (now : Q),
       maxlen (buffer (init py_int env now)) <> 5000).
Proof.
  split; [apply init_maxlen|].
  intros (py_int & env & now & H). apply H, init_maxlen.
Qed.

(** C7 on an empty baseline, an empty current sample and a constant
    baseline, with the quantile edges of [quantile_bins], and on a binning
    that raises [ValueError]. *)
Lemma C7_witness :
  compute_psi quantile_bins [] [1; 2; 3]%Q 10 = Return 0%R /\
  compute_psi quantile_bins [1; 2; 3]%Q [] 10 = Return 0%R /\
  (exists b, quantile_bins [4; 4; 4]%Q 10 = Return [b]) /\
  compute_psi quantile_bins [4; 4; 4]%Q [1; 2; 3]%Q 10 = Return 0%R /\
  compute_psi (fun _ _ => Raise ValueError) [4; 4; 4]%Q [1; 2; 3]%Q 10 = Return 0%R.
Proof.
  assert (Hdeg : exists b, quantile_bins [4; 4; 4]%Q 10 = Return [b])
    by (eexists; vm_compute; reflexivity).
  split; [|split; [|split; [exact Hdeg|split]]].
  - apply C7_psi_zero_when_empty_or_degenerate. by left.
  - apply C7_psi_zero_when_empty_or_degenerate. right. by left.
  - apply C7_psi_zero_when_empty_or_degenerate. right. right. right. exact Hdeg.
  - apply C7_psi_zero_when_empty_or_degenerate. right. right. left. reflexivity.
Defined.

(** C8 on a sample of seven values. *)
Lemma C8_witness :
  [1; 2; 2; 2; 2; 5; 7]%Q <> [] /\
  (exists b bins, quantile_bins [1; 2; 2; 2; 2; 5; 7]%Q 4 = Return (b :: bins)) /\
  compute_psi quantile_bins [1; 2; 2; 2; 2; 5; 7]%Q [1; 2; 2; 2; 2; 5; 7]%Q 4
    = Return 0%R.
Proof.
  assert (Hx : [1; 2; 2; 2; 2; 5; 7]%Q <> []) by discriminate.
  assert (Hb : exists b bins,
             quantile_bins [1; 2; 2; 2; 2; 5; 7]%Q 4 = Return (b :: bins))
    by (do 2 eexists; vm_compute; reflexivity).
  split; [exact Hx|]. split; [exact Hb|].
  apply (C8_psi_of_sample_against_itself quantile_bins _ 4 Hx). right. exact Hb.
Defined.

(** C9 on a day of 200 rows. *)
Lemma C9_witness :
  head example_day = Some (PerfRow (Some (9 # 10)%Q) (Some 1%Q) "classification") /\
  200 <= Z.of_nat (length example_day) /\
  Forall (fun r => is_Some (r_y_true_num r)) example_day /\
  performance_metrics example_day =
    Return [("f1"%string,
             Some (f1_of (precision_of (confusion_count true 1 example_day)
                                       (confusion_count true 0 example_day))
                         (recall_of (confusion_count true 1 example_day)
                                    (confusion_count false 1 example_day))))].
Proof.
  assert (Hh : head example_day
               = Some (PerfRow (Some (9 # 10)%Q) (Some 1%Q) "classification"))
    by reflexivity.
  assert (Hlen : 200 <= Z.of_nat (length example_day))
    by (apply Z.leb_le; vm_compute; reflexivity).
  assert (Hp : Forall (fun r => is_Some (r_y_true_num r)) example_day)
    by (apply (bool_decide_unpack _); vm_compute; reflexivity).
  destruct (C9_classification_f1 example_day _ Hh eq_refl Hlen Hp) as (Hm & _).
  split; [exact Hh|]. split; [exact Hlen|]. split; [exact Hp | exact Hm].
Defined.

(** C9 as the specification states it fails: on a day of 201 label-joined
    classification rows, the first of them without a numeric true value,
    the cast of the true values to integers raises [ValueError] and the
    job computes no F1. *)
Lemma C9_missing_label_raises :
  (exists first : perf_row,
     head unlabelled_day = Some first /\
     r_pred_type first = "classification"%string) /\
  Forall (fun r => r_pred_type r = "classification"%string) unlabelled_day /\
  200 <= Z.of_nat (length unlabelled_day) /\
  performance_metrics unlabelled_day = Raise ValueError /\
  ~ (forall (df_perf : list perf_row) (first : perf_row),
       head df_perf = Some first ->
       r_pred_type first = "classification"%string ->
       200 <= Z.of_nat (length df_perf) ->
       exists f : option Q,
         performance_metrics df_perf = Return [("f1"%string, f)]).
Proof.
  assert (Hh : exists first : perf_row,
             head unlabelled_day = Some first /\
             r_pred_type first = "classification"%string)
    by (eexists; split; reflexivity).
  assert (Hall : Forall (fun r => r_pred_type r = "classification"%string)
                        unlabelled_day)
    by (apply (bool_decide_unpack _); vm_compute; reflexivity).
  assert (Hlen : 200 <= Z.of_nat (length unlabelled_day))
    by (apply Z.leb_le; vm_compute; reflexivity).
  assert (Hr : performance_metrics unlabelled_day = Raise ValueError)
    by (vm_compute; reflexivity).
  split; [exact Hh|]. split; [exact Hall|]. split; [exact Hlen|].
  split; [exact Hr|].
  intros H. destruct Hh as (first & Hhead & Htype).
  destruct (H unlabelled_day first Hhead Htype Hlen) as (f & Hf).
  rewrite Hr in Hf. discriminate Hf.
Qed.

(** C10 on a NaN prediction. *)
Lemma C10_witness :
  enabled default_client = true /\
  maxlen (buffer default_client) = MAX_BUFFER /\
  deque_len (buffer default_client) <= MAX_BUFFER /\
  y_pred_num (make_event (sample_call 0 (PFloat S754_nan))) = PNone.
Proof.
  assert (He : enabled default_client = true) by (vm_compute; reflexivity).
  assert (Hmax : maxlen (buffer default_client) = MAX_BUFFER) by reflexivity.
  assert (Hlen : deque_len (buffer default_client) <= MAX_BUFFER)
    by (apply Z.leb_le; vm_compute; reflexivity).
  destruct (C10_prediction_sanitized db_up default_client world0
              (sample_call 0 (PFloat S754_nan)) S754_nan He Hmax Hlen eq_refl)
    as (_ & _ & _ & _ & Hnan & _).
  split; [exact He|]. split; [exact Hmax|]. split; [exact Hlen|].
  apply Hnan. reflexivity.
Defined.

(** * What a run delivers *)

Lemma since_ext (w w' : world) (ext : list io_event) :
  trace w' = trace w ++ ext -> since w w' = ext.
Proof. intros H. unfold since. rewrite H. apply drop_app_length. Qed.

Lemma committed_app (t1 t2 : list io_event) :
  committed (t1 ++ t2) = committed t1 ++ committed t2.
Proof. unfold committed. by rewrite omap_app, concat_app. Qed.

Lemma writes_app (t1 t2 : list io_event) :
  writes (t1 ++ t2) = writes t1 ++ writes t2.
Proof. unfold writes. by rewrite omap_app. Qed.

Lemma slept_app (t1 t2 : list io_event) :
  slept (t1 ++ t2) = slept t1 ++ slept t2.
Proof. unfold slept. by rewrite omap_app. Qed.

Lemma committed_ok (b : list event) : committed [IoWrite b WriteOk] = b.
Proof. unfold committed. simpl. apply app_nil_r. Qed.

(** What the retry loop adds to the trace, and how the client follows. *)
Lemma retry_loop_account (db : database) (batch : list event) (todo : list nat)
    (wait : Q) (st : client) (w : world) :
  let r := retry_loop db batch todo wait st w in
  exists ext : list io_event,
    trace r.1.1.2 = trace w ++ ext /\
    attempts r.1.1.2 = (attempts w + length (writes ext))%nat /\
    (length (writes ext) <= length todo)%nat /\
    Forall (fun br => br.1 = batch) (writes ext) /\
    committed ext = (if r.1.2 then batch else []) /\
    insert_success r.1.1.1 =
      insert_success st + Z.of_nat (length (committed ext)) /\
    (r.2 = Raised -> r.1.2 = false) /\
    ((forall n, db n <> WriteOther) -> r.2 = Returned).
Proof.
  revert wait w. induction todo as [|attempt todo IH]; intros wait w.
  - exists []. cbn. rewrite app_nil_r, Nat.add_0_r, Z.add_0_r.
    repeat split; try done; try lia.
  - cbn [retry_loop attempt_write].
    destruct (db (attempts w)) eqn:Hr; cbn [fst snd].
    + exists [IoWrite batch WriteOk].
      simpl. repeat split; try done; try lia.
      all: first [ by repeat constructor | by rewrite committed_ok ].
    + assert (Hstep : forall wait' w1,
                attempts w1 = S (attempts w) ->
                (exists pre, trace w1 = trace w ++ IoWrite batch WriteTransient :: pre
                             /\ writes pre = [] /\ committed pre = []) ->
                let r := retry_loop db batch todo wait' st w1 in
                exists ext : list io_event,
                  trace r.1.1.2 = trace w ++ ext /\
                  attempts r.1.1.2 = (attempts w + length (writes ext))%nat /\
                  (length (writes ext) <= length (attempt :: todo))%nat /\
                  Forall (fun br => br.1 = batch) (writes ext) /\
                  committed ext = (if r.1.2 then batch else []) /\
                  insert_success r.1.1.1 =
                    insert_success st + Z.of_nat (length (committed ext)) /\
                  (r.2 = Raised -> r.1.2 = false) /\
                  ((forall n, db n <> WriteOther) -> r.2 = Returned)).
      { intros wait' w1 Ha (pre & Ht & Hwp & Hcp).
        destruct (IH wait' w1) as (ext & He & Hat & Hlen & Hall & Hc & Hi & Hs & Hn).
        exists (IoWrite batch WriteTransient :: pre ++ ext).
        assert (Hw : writes (IoWrite batch WriteTransient :: pre ++ ext)
                     = (batch, WriteTransient) :: writes ext).
        { change (IoWrite batch WriteTransient :: pre ++ ext)
            with ([IoWrite batch WriteTransient] ++ pre ++ ext).
          rewrite !writes_app, Hwp. reflexivity. }
        assert (Hcm : committed (IoWrite batch WriteTransient :: pre ++ ext)
                      = committed ext).
        { change (IoWrite batch WriteTransient :: pre ++ ext)
            with ([IoWrite batch WriteTransient] ++ pre ++ ext).
          rewrite !committed_app, Hcp. reflexivity. }
        rewrite Hw, Hcm. cbn [length].
        split; [rewrite He, Ht, <- app_assoc; reflexivity|].
        split; [rewrite Hat, Ha; lia|].
        split; [lia|].
        split; [by constructor|].
        by repeat split. }
      destruct (Nat.ltb _ _); apply Hstep; cbn [sleep attempts trace]; try done.
      * exists [IoSleep wait]. by rewrite <- app_assoc.
      * exists []. done.
    + exists [IoWrite batch WriteOther].
      simpl. rewrite Z.add_0_r. repeat split; try done; try lia.
      * by repeat constructor.
      * intros Hno. by destruct (Hno (attempts w)).
Qed.

(** The same for a whole [flush]: at most [MAX_RETRIES] attempts, all with
    the batch taken from the old end of the buffer; the committed events
    followed by what is left of the buffer were the buffer, in order. *)
Lemma flush_account (db : database) (st : client) (w : world) :
  let r := flush db st w in
  exists ext : list io_event,
    trace r.1.2 = trace w ++ ext /\
    attempts r.1.2 = (attempts w + length (writes ext))%nat /\
    (length (writes ext) <= MAX_RETRIES)%nat /\
    Forall (fun br => br.1 = take (Z.to_nat (batch_size st)) (items (buffer st)))
           (writes ext) /\
    insert_success r.1.1 = insert_success st + Z.of_nat (length (committed ext)) /\
    committed ext ++ items (buffer r.1.1) `sublist_of` items (buffer st) /\
    (committed ext <> [] ->
       committed ext ++ items (buffer r.1.1) = items (buffer st)) /\
    ((forall n, db n <> WriteOther) -> r.2 = Returned).
Proof.
  unfold flush.
  destruct (negb (enabled st) || bool_decide (items (buffer st) = [])).
  { exists [IoFlushCall]. cbn. repeat split; try done; try lia. }
  rewrite pop_batch_fresh.
  set (n := Z.to_nat (batch_size st)).
  destruct (take n (items (buffer st))) as [|e batch] eqn:Hb.
  { exists [IoFlushCall]. simpl.
    repeat split; try done; try (unfold MAX_RETRIES; lia).
    all: try apply sublist_drop. }
  set (st1 := set_buffer st _).
  pose proof (retry_loop_client db (e :: batch) (seq 0 MAX_RETRIES) (1 # 2)%Q st1
                (emit w IoFlushCall)) as (Hbuf & _).
  destruct (retry_loop_account db (e :: batch) (seq 0 MAX_RETRIES) (1 # 2)%Q st1
                (emit w IoFlushCall))
    as (ext & He & Hat & Hlen & Hall & Hc & Hi & Hs & Hn).
  destruct (retry_loop _ _ _ _ _ _) as [[[st2 w2] ok] s].
  cbn [fst snd] in *.
  assert (Hitems : items (buffer st2) = drop n (items (buffer st)))
    by by rewrite Hbuf.
  exists (IoFlushCall :: ext).
  assert (Hw : writes (IoFlushCall :: ext) = writes ext) by reflexivity.
  assert (Hcm : committed (IoFlushCall :: ext) = committed ext) by reflexivity.
  rewrite Hw, Hcm. rewrite length_seq in Hlen.
  assert (Hsub : committed ext ++ drop n (items (buffer st))
                 `sublist_of` items (buffer st)).
  { rewrite Hc. destruct ok.
    - rewrite <- Hb. by rewrite take_drop.
    - apply sublist_drop. }
  assert (Heq : committed ext <> [] ->
                committed ext ++ drop n (items (buffer st)) = items (buffer st)).
  { rewrite Hc. destruct ok; [|done]. intros _. rewrite <- Hb. apply take_drop. }
  assert (Htr : trace w2 = trace w ++ IoFlushCall :: ext)
    by (rewrite He; cbn [emit trace]; by rewrite <- app_assoc).
  destruct s, ok; cbn [fst snd set_flush_failures buffer insert_success];
    rewrite ?Hitems; repeat split; try done.
  all: by specialize (Hs eq_refl).
Qed.

Lemma deque_append_sublist (d : deque) (e : event) :
  items (deque_append d e) `sublist_of` items d ++ [e].
Proof.
  unfold deque_append. destruct (maxlen d <? _); cbn [items]; [|done].
  destruct (items d ++ [e]); [done|]. by apply sublist_cons.
Qed.

Lemma enqueue_sublist (st : client) (e : event) :
  items (buffer (enqueue st e)) `sublist_of` items (buffer st) ++ [e].
Proof.
  unfold enqueue. destruct (deque_len (buffer st) =? MAX_BUFFER);
    cbn [set_buffer buffer set_dropped_events]; apply deque_append_sublist.
Qed.

Lemma enqueue_insert_success (st : client) (e : event) :
  insert_success (enqueue st e) = insert_success st.
Proof. unfold enqueue. by destruct (deque_len (buffer st) =? MAX_BUFFER). Qed.

(** One call: what it adds to the trace and what it does to the client. *)
Lemma step_account (db : database) (st : client) (w : world) (o : op) :
  let r := step db st w o in
  exists ext : list io_event,
    trace r.1.2 = trace w ++ ext /\
    attempts r.1.2 = (attempts w + length (writes ext))%nat /\
    (length (writes ext) <= MAX_RETRIES)%nat /\
    insert_success r.1.1 = insert_success st + Z.of_nat (length (committed ext)) /\
    committed ext ++ items (buffer r.1.1)
      `sublist_of` items (buffer st) ++ logged [o] /\
    ((forall n, db n <> WriteOther) -> r.2 = Returned).
Proof.
  destruct o as [dt a|dt]; cbn [step logged omap].
  - unfold log_inference. destruct (enabled st); cbn [negb].
    + set (st1 := enqueue st (make_event a)).
      destruct (flush_due st1 (advance w dt)).
      * destruct (flush_account db st1 (advance w dt))
          as (ext & He & Hat & Hlen & _ & Hi & Hsub & _ & Hn).
        exists ext. split; [exact He|]. split; [exact Hat|]. split; [exact Hlen|].
        split; [by rewrite Hi; unfold st1; rewrite enqueue_insert_success|].
        split; [|exact Hn].
        etrans; [exact Hsub|]. apply enqueue_sublist.
      * exists []. cbn [fst snd]. unfold st1. rewrite enqueue_insert_success.
        split; [by rewrite app_nil_r|]. split; [cbn; lia|].
        split; [cbn; lia|]. split; [cbn; lia|].
        split; [apply enqueue_sublist | done].
    + exists []. cbn. rewrite app_nil_r, Nat.add_0_r, Z.add_0_r.
      repeat split; try done; try (unfold MAX_RETRIES; lia).
      by apply sublist_inserts_r.
  - destruct (flush_account db st (advance w dt))
      as (ext & He & Hat & Hlen & _ & Hi & Hsub & _ & Hn).
    exists ext. rewrite app_nil_r. by repeat split.
Qed.

Lemma run_account (db : database) (ops : list op) (st : client) (w : world) :
  let r := run db st w ops in
  exists ext : list io_event,
    trace r.1.2 = trace w ++ ext /\
    attempts r.1.2 = (attempts w + length (writes ext))%nat /\
    (length (writes ext) <= MAX_RETRIES * length ops)%nat /\
    insert_success r.1.1 = insert_success st + Z.of_nat (length (committed ext)) /\
    committed ext ++ items (buffer r.1.1)
      `sublist_of` items (buffer st) ++ logged ops /\
    ((forall n, db n <> WriteOther) -> Forall (fun s => s = Returned) r.2).
Proof.
  revert st w. induction ops as [|o ops IH]; intros st w.
  - exists []. cbn. rewrite !app_nil_r, Nat.add_0_r, Z.add_0_r.
    repeat split; try done; try lia.
  - cbn [run].
    destruct (step_account db st w o) as (e1 & He1 & Ha1 & Hl1 & Hi1 & Hs1 & Hn1).
    destruct (step db st w o) as [[st1 w1] s]. cbn [fst snd] in *.
    destruct (IH st1 w1) as (e2 & He2 & Ha2 & Hl2 & Hi2 & Hs2 & Hn2).
    destruct (run db st1 w1 ops) as [[st2 w2] ss]. cbn [fst snd] in *.
    exists (e1 ++ e2).
    rewrite writes_app, committed_app, !length_app.
    split; [rewrite He2, He1; by rewrite <- app_assoc|].
    split; [lia|]. split; [cbn [length]; lia|].
    split; [lia|]. split.
    + rewrite logged_cons, app_assoc, <- app_assoc.
      etrans; [apply sublist_app; [reflexivity | exact Hs2]|].
      rewrite !app_assoc. by apply sublist_app.
    + intros Hno. constructor; [by apply Hn1 | by apply Hn2].
Qed.

(** X1. The success counter counts the events of the committed batches, no
    more and no less, over any sequence of calls and whatever the database
    answers. *)
Theorem insert_success_counts_committed
    (db : database) (st : client) (w : world) (ops : list op) :
  insert_success (run db st w ops).1.1 =
    insert_success st
    + Z.of_nat (length (committed (since w (run db st w ops).1.2))).
Proof.
  destruct (run_account db ops st w) as (ext & He & _ & _ & Hi & _).
  by rewrite (since_ext _ _ _ He).
Qed.

(** X2. Delivery is at most once and in order: the events committed during a
    run, followed by the events still buffered, are a subsequence of what
    was buffered at the start followed by the events logged, whatever the
    database answers. No event is committed twice, none is committed
    after a later one, and none is invented. *)
Theorem delivery_at_most_once_in_order
    (db : database) (st : client) (w : world) (ops : list op) :
  committed (since w (run db st w ops).1.2) ++ items (buffer (run db st w ops).1.1)
    `sublist_of` items (buffer st) ++ logged ops.
Proof.
  destruct (run_account db ops st w) as (ext & He & _ & _ & _ & Hs & _).
  by rewrite (since_ext _ _ _ He).
Qed.

(** X3. Storage failures never reach the caller: as long as every failing
    write attempt raises [psycopg2.Error] or [OSError], every
    [log_inference] and [flush] of a run returns normally. *)
Theorem storage_errors_never_propagate
    (db : database) (st : client) (w : world) (ops : list op) :
  (forall n, db n <> WriteOther) ->
  Forall (fun s => s = Returned) (run db st w ops).2.
Proof.
  intros Hno. destruct (run_account db ops st w) as (ext & _ & _ & _ & _ & _ & Hn).
  by apply Hn.
Qed.

(** * One flush, attempt by attempt *)

(** [k] failed attempts in a row, each followed by its sleep: the loop
    goes on from attempt [a + k] with the wait doubled [k] times. *)
Lemma retry_loop_after_failures (db : database) (batch : list event) (st : client)
    (k : nat) :
  forall (a m : nat) (wait : Q) (w : world),
    (k <= m)%nat ->
    (a + k <= MAX_RETRIES - 1)%nat ->
    (forall j : nat, (j < k)%nat -> db (attempts w + j)%nat = WriteTransient) ->
    exists (wait' : Q) (w' : world) (ext : list io_event),
      retry_loop db batch (seq a m) wait st w =
        retry_loop db batch (seq (a + k) (m - k)) wait' st w' /\
      attempts w' = (attempts w + k)%nat /\
      trace w' = trace w ++ ext /\
      writes ext = replicate k (batch, WriteTransient) /\
      slept ext = backoffs wait k /\
      committed ext = [] /\
      (clock w' == clock w + Qsum (backoffs wait k))%Q.
Proof.
  induction k as [|k IH]; intros a m wait w Hkm Hak Hdb.
  - exists wait, w, []. rewrite Nat.add_0_r, Nat.sub_0_r, Nat.add_0_r, app_nil_r.
    repeat split; try done. cbn. ring.
  - destruct m as [|m]; [lia|]. cbn [seq retry_loop attempt_write].
    assert (H0 : db (attempts w) = WriteTransient).
    { rewrite <- (Nat.add_0_r (attempts w)). apply Hdb. lia. }
    rewrite H0.
    destruct (Nat.ltb_spec a (MAX_RETRIES - 1)) as [_|Hge]; [|lia].
    set (w1 := sleep _ wait).
    destruct (IH (S a) m (wait * 2)%Q w1) as (wait' & w' & ext & Hr & Ha & Ht & Hw & Hs & Hc & Hcl).
    { lia. } { lia. }
    { intros j Hj. subst w1. cbn [sleep attempts].
      replace (S (attempts w) + j)%nat with (attempts w + S j)%nat by lia.
      apply Hdb. lia. }
    exists wait', w', (IoWrite batch WriteTransient :: IoSleep wait :: ext).
    split; [rewrite Hr; replace (a + S k)%nat with (S a + k)%nat by lia; reflexivity|].
    split; [rewrite Ha; subst w1; cbn [sleep attempts]; lia|].
    split; [rewrite Ht; subst w1; cbn [sleep trace]; by rewrite <- !app_assoc|].
    change (IoWrite batch WriteTransient :: IoSleep wait :: ext)
      with ([IoWrite batch WriteTransient; IoSleep wait] ++ ext).
    rewrite writes_app, slept_app, committed_app, Hw, Hs, Hc.
    split; [done|]. split; [done|]. split; [done|].
    rewrite Hcl. subst w1. cbn [sleep clock backoffs Qsum foldr].
    fold (Qsum (backoffs (wait * 2) k)). ring.
Qed.

(** A [flush] whose first [k] attempts fail and whose next attempt ends the
    loop with [r], a commit or an exception the [except] clause does not
    name. *)
Lemma flush_ends_at (db : database) (st : client) (w : world) (k : nat)
    (r : write_result) :
  enabled st = true ->
  items (buffer st) <> [] ->
  0 < batch_size st ->
  (k < MAX_RETRIES)%nat ->
  (forall j : nat, (j < k)%nat -> db (attempts w + j)%nat = WriteTransient) ->
  db (attempts w + k)%nat = r ->
  r <> WriteTransient ->
  let n := Z.to_nat (batch_size st) in
  let batch := take n (items (buffer st)) in
  let st1 := set_buffer st (Deque (drop n (items (buffer st))) (maxlen (buffer st))) in
  exists (w' : world) (ext : list io_event),
    flush db st w =
      (match r with
       | WriteOk => record_success st1 (Z.of_nat (length batch)) (clock w')
       | _ => st1
       end, w', match r with WriteOk => Returned | _ => Raised end) /\
    trace w' = trace w ++ ext /\
    attempts w' = (attempts w + S k)%nat /\
    writes ext = replicate k (batch, WriteTransient) ++ [(batch, r)] /\
    slept ext = backoffs (1 # 2) k /\
    committed ext = (match r with WriteOk => batch | _ => [] end) /\
    (clock w' == clock w + Qsum (backoffs (1 # 2) k))%Q.
Proof.
  intros He Hne Hbs Hk Hdb Hr Hnt n batch st1.
  unfold flush. rewrite He. cbn [negb orb].
  rewrite bool_decide_eq_false_2 by done.
  rewrite pop_batch_fresh. fold n. fold batch. fold st1.
  destruct batch as [|e0 batch0] eqn:Hbatch.
  { exfalso. subst batch. destruct (items (buffer st)); [done|].
    replace n with (S (Z.to_nat (batch_size st - 1))) in Hbatch by lia. done. }
  destruct (retry_loop_after_failures db (e0 :: batch0) st1 k 0 MAX_RETRIES
              (1 # 2)%Q (emit w IoFlushCall))
    as (wait' & w1 & ext & Hloop & Ha & Ht & Hw & Hs & Hc & Hcl).
  { lia. } { unfold MAX_RETRIES in *. lia. } { exact Hdb. }
  rewrite Hloop.
  destruct (MAX_RETRIES - k)%nat as [|m] eqn:Hm; [lia|].
  cbn [seq retry_loop attempt_write]. rewrite Ha. cbn [emit attempts].
  rewrite Hr. cbn [emit attempts clock trace] in *.
  exists (World (clock w1) (S (attempts w1)) (trace w1 ++ [IoWrite (e0 :: batch0) r])),
         (IoFlushCall :: ext ++ [IoWrite (e0 :: batch0) r]).
  assert (Hg : trace w1 ++ [IoWrite (e0 :: batch0) r]
               = trace w ++ IoFlushCall :: ext ++ [IoWrite (e0 :: batch0) r]).
  { rewrite Ht, <- !app_assoc. reflexivity. }
  change (IoFlushCall :: ext ++ [IoWrite (e0 :: batch0) r])
    with ([IoFlushCall] ++ ext ++ [IoWrite (e0 :: batch0) r]).
  rewrite !writes_app, !slept_app, !committed_app, Hw, Hs, Hc.
  cbn [clock attempts trace].
  destruct r; [| done |]; cbn [fst snd]; rewrite Ha.
  - repeat split; try done; try lia.
    + simpl. apply app_nil_r.
    + by rewrite committed_ok.
  - repeat split; try done; try lia.
    simpl. apply app_nil_r.
Qed.

(** X4. A [flush] that commits at its [k+1]-th attempt, after [k] failures the
    [except] clause names ([k] from 0 to 4): it returns normally, the batch
    (the [batch_size] oldest events) leaves the buffer and is committed
    once, the success counter grows by its size, the failure counter does
    not move, the sleeps are the first [k] of 0.5, 1, 2, 4 seconds, and
    [last_flush_time] becomes the time of the commit. *)
Theorem flush_commits_after_failures (db : database) (st : client) (w : world)
    (k : nat) :
  enabled st = true ->
  items (buffer st) <> [] ->
  0 < batch_size st ->
  (k < MAX_RETRIES)%nat ->
  (forall j : nat, (j < k)%nat -> db (attempts w + j)%nat = WriteTransient) ->
  db (attempts w + k)%nat = WriteOk ->
  let n := Z.to_nat (batch_size st) in
  let batch := take n (items (buffer st)) in
  let r := flush db st w in
  r.2 = Returned /\
  items (buffer r.1.1) = drop n (items (buffer st)) /\
  insert_success r.1.1 = insert_success st + Z.of_nat (length batch) /\
  flush_failures r.1.1 = flush_failures st /\
  committed (since w r.1.2) = batch /\
  writes (since w r.1.2) = replicate k (batch, WriteTransient) ++ [(batch, WriteOk)] /\
  slept (since w r.1.2) = backoffs (1 # 2) k /\
  (last_flush_time r.1.1 == clock w + Qsum (backoffs (1 # 2) k))%Q.
Proof.
  intros He Hne Hbs Hk Hdb Hok n batch r.
  destruct (flush_ends_at db st w k WriteOk He Hne Hbs Hk Hdb Hok)
    as (w' & ext & Hf & Ht & Ha & Hw & Hs & Hc & Hcl); [done|].
  subst r. fold n batch in Hf, Hw, Hc. rewrite Hf. cbn [fst snd].
  rewrite (since_ext _ _ _ Ht).
  repeat split; try done.
Qed.

(** X5. A [flush] whose attempt raises an exception that the [except] clause
    does not name, after [k] failures it does name: the exception escapes,
    the batch has already left the buffer and is in no counter: neither
    the success counter nor the failure counter moves, and
    [last_flush_time] stays. *)
Theorem flush_unexpected_exception_loses_batch (db : database) (st : client)
    (w : world) (k : nat) :
  enabled st = true ->
  items (buffer st) <> [] ->
  0 < batch_size st ->
  (k < MAX_RETRIES)%nat ->
  (forall j : nat, (j < k)%nat -> db (attempts w + j)%nat = WriteTransient) ->
  db (attempts w + k)%nat = WriteOther ->
  let n := Z.to_nat (batch_size st) in
  let batch := take n (items (buffer st)) in
  let r := flush db st w in
  r.2 = Raised /\
  items (buffer r.1.1) = drop n (items (buffer st)) /\
  insert_success r.1.1 = insert_success st /\
  flush_failures r.1.1 = flush_failures st /\
  dropped_events r.1.1 = dropped_events st /\
  last_flush_time r.1.1 = last_flush_time st /\
  committed (since w r.1.2) = [] /\
  writes (since w r.1.2) = replicate k (batch, WriteTransient) ++ [(batch, WriteOther)].
Proof.
  intros He Hne Hbs Hk Hdb Hok n batch r.
  destruct (flush_ends_at db st w k WriteOther He Hne Hbs Hk Hdb Hok)
    as (w' & ext & Hf & Ht & Ha & Hw & Hs & Hc & Hcl); [done|].
  subst r. fold n batch in Hf, Hw, Hc. rewrite Hf. cbn [fst snd].
  rewrite (since_ext _ _ _ Ht).
  repeat split; try done.
Qed.

(** ** How long one call can keep the caller *)

Lemma retry_loop_sleeps (db : database) (batch : list event) (st : client)
    (m : nat) :
  forall (a : nat) (wait : Q) (w : world),
    exists (k : nat) (ext : list io_event),
      trace (retry_loop db batch (seq a m) wait st w).1.1.2 = trace w ++ ext /\
      slept ext = backoffs wait k /\
      (k <= MAX_RETRIES - 1 - a)%nat.
Proof.
  induction m as [|m IH]; intros a wait w.
  - exists 0%nat, []. cbn. rewrite app_nil_r. repeat split; try done. lia.
  - cbn [seq retry_loop attempt_write].
    destruct (db (attempts w)); cbn [fst snd trace].
    + exists 0%nat, [IoWrite batch WriteOk]. repeat split; try done. lia.
    + destruct (Nat.ltb_spec a (MAX_RETRIES - 1)) as [Hlt|Hge].
      * destruct (IH (S a) (wait * 2)%Q
          (sleep (World (clock w) (S (attempts w))
                        (trace w ++ [IoWrite batch WriteTransient])) wait))
          as (k & ext & Ht & Hs & Hk).
        exists (S k), (IoWrite batch WriteTransient :: IoSleep wait :: ext).
        split; [rewrite Ht; cbn [sleep trace]; by rewrite <- !app_assoc|].
        split; [|lia].
        change (IoWrite batch WriteTransient :: IoSleep wait :: ext)
          with ([IoWrite batch WriteTransient; IoSleep wait] ++ ext).
        rewrite slept_app, Hs. reflexivity.
      * destruct (IH (S a) wait
          (World (clock w) (S (attempts w))
                 (trace w ++ [IoWrite batch WriteTransient])))
          as (k & ext & Ht & Hs & Hk).
        exists k, (IoWrite batch WriteTransient :: ext).
        split; [rewrite Ht; cbn [trace]; by rewrite <- !app_assoc|].
        split; [|lia].
        change (IoWrite batch WriteTransient :: ext)
          with ([IoWrite batch WriteTransient] ++ ext).
        rewrite slept_app, Hs. reflexivity.
    + exists 0%nat, [IoWrite batch WriteOther]. repeat split; try done. lia.
Qed.

Lemma backoffs_total (k : nat) :
  (k <= MAX_RETRIES - 1)%nat -> (Qsum (backoffs (1 # 2) k) <= 15 # 2)%Q.
Proof.
  unfold MAX_RETRIES. intros Hk.
  do 5 (destruct k as [|k]; [by vm_compute|]). lia.
Qed.

Lemma flush_sleeps (db : database) (st : client) (w : world) :
  exists k : nat,
    slept (since w (flush db st w).1.2) = backoffs (1 # 2) k /\
    (k <= MAX_RETRIES - 1)%nat.
Proof.
  unfold flush.
  destruct (negb (enabled st) || bool_decide (items (buffer st) = [])).
  { exists 0%nat. cbn [fst snd]. rewrite (since_ext _ _ [IoFlushCall]) by done.
    split; [done|lia]. }
  destruct (pop_batch _ _ _) as [rest [|e batch]].
  { exists 0%nat. cbn [fst snd]. rewrite (since_ext _ _ [IoFlushCall]) by done.
    split; [done|lia]. }
  destruct (retry_loop_sleeps db (e :: batch)
              (set_buffer st (Deque rest (maxlen (buffer st)))) MAX_RETRIES
              0 (1 # 2)%Q (emit w IoFlushCall)) as (k & ext & Ht & Hs & Hk).
  destruct (retry_loop _ _ _ _ _ _) as [[[st2 w2] ok] s]. cbn [fst snd] in Ht.
  exists k. split; [|lia].
  assert (Hsince : since w w2 = IoFlushCall :: ext).
  { apply since_ext. rewrite Ht. cbn [emit trace]. by rewrite <- app_assoc. }
  destruct s, ok; cbn [fst snd]; rewrite Hsince; exact Hs.
Qed.

(** X6. One call of [log_inference] or [flush] makes at most [MAX_RETRIES] = 5
    write attempts and sleeps at most four times, for 0.5, 1, 2 and 4
    seconds in that order: never more than 7.5 seconds in all, whatever the
    database answers. *)
Theorem one_call_bounded_retries (db : database) (st : client) (w : world)
    (o : op) :
  let w' := (step db st w o).1.2 in
  (attempts w' <= attempts w + 5)%nat /\
  (length (writes (since w w')) <= 5)%nat /\
  (exists k : nat, (k <= 4)%nat /\ slept (since w w') = backoffs (1 # 2) k) /\
  (Qsum (slept (since w w')) <= 15 # 2)%Q.
Proof.
  intros w'.
  destruct (step_account db st w o) as (ext & He & Ha & Hl & _).
  fold w' in He, Ha. rewrite (since_ext _ _ _ He).
  unfold MAX_RETRIES in Hl.
  split; [lia|]. split; [lia|].
  assert (Hk : exists k : nat,
             slept (since w w') = backoffs (1 # 2) k /\ (k <= MAX_RETRIES - 1)%nat).
  { subst w'. destruct o as [dt a|dt]; cbn [step].
    - unfold log_inference. destruct (enabled st); cbn [negb].
      + destruct (flush_due _ _).
        * apply (flush_sleeps db _ (advance w dt)).
        * exists 0%nat. cbn [fst snd]. unfold since. cbn [advance trace].
          rewrite drop_all. split; [done|lia].
      + exists 0%nat. cbn [fst snd]. unfold since. cbn [advance trace].
        rewrite drop_all. split; [done|lia].
    - apply (flush_sleeps db st (advance w dt)). }
  rewrite (since_ext _ _ _ He) in Hk. destruct Hk as (k & Hs & Hk).
  split; [exists k; split; [unfold MAX_RETRIES in Hk; lia | done]|].
  rewrite Hs. by apply backoffs_total.
Qed.

(** * Two regimes: the database up, and a batch size that is not positive *)

Lemma flush_first_try (db : database) (st : client) (w : world) :
  enabled st = true ->
  items (buffer st) <> [] ->
  0 < batch_size st ->
  db (attempts w) = WriteOk ->
  let n := Z.to_nat (batch_size st) in
  let r := flush db st w in
  r.2 = Returned /\
  items (buffer r.1.1) = drop n (items (buffer st)) /\
  committed (since w r.1.2) = take n (items (buffer st)) /\
  attempts r.1.2 = S (attempts w) /\
  dropped_events r.1.1 = dropped_events st /\
  flush_failures r.1.1 = flush_failures st /\
  same_config st r.1.1.
Proof.
  intros He Hne Hbs Hok n r.
  destruct (flush_ends_at db st w 0 WriteOk He Hne Hbs) as
    (w' & ext & Hf & Ht & Ha & _ & _ & Hc & _);
    [unfold MAX_RETRIES; lia | intros j Hj; lia | by rewrite Nat.add_0_r | done |].
  subst r. rewrite Hf. cbn [fst snd]. rewrite (since_ext _ _ _ Ht).
  repeat split; try done. lia.
Qed.

(** With the database up, one call loses nothing and leaves the buffer
    shorter than a batch. *)
Lemma step_database_up (db : database) (st : client) (w : world) (o : op) :
  (forall n, db n = WriteOk) ->
  enabled st = true ->
  maxlen (buffer st) = MAX_BUFFER ->
  0 < batch_size st <= MAX_BUFFER ->
  deque_len (buffer st) < batch_size st ->
  let r := step db st w o in
  exists ext : list io_event,
    trace r.1.2 = trace w ++ ext /\
    committed ext ++ items (buffer r.1.1) = items (buffer st) ++ logged [o] /\
    dropped_events r.1.1 = dropped_events st /\
    flush_failures r.1.1 = flush_failures st /\
    same_config st r.1.1 /\
    deque_len (buffer r.1.1) < batch_size st.
Proof.
  intros Hup He Hmax Hbs Hlen.
  assert (Hflush : forall (st0 : client) (w0 : world),
            enabled st0 = true -> 0 < batch_size st0 ->
            deque_len (buffer st0) <= batch_size st0 ->
            let r := flush db st0 w0 in
            exists ext : list io_event,
              trace r.1.2 = trace w0 ++ ext /\
              committed ext ++ items (buffer r.1.1) = items (buffer st0) /\
              dropped_events r.1.1 = dropped_events st0 /\
              flush_failures r.1.1 = flush_failures st0 /\
              same_config st0 r.1.1 /\
              items (buffer r.1.1) = []).
  { intros st0 w0 He0 Hbs0 Hlen0.
    destruct (items (buffer st0)) as [|x l] eqn:Hitems.
    - exists [IoFlushCall]. rewrite (flush_empty db st0 w0 Hitems). cbn [fst snd].
      rewrite Hitems. repeat split; done.
    - assert (Hne : items (buffer st0) <> []) by by rewrite Hitems.
      destruct (flush_first_try db st0 w0 He0 Hne Hbs0 (Hup _))
        as (_ & Hi & Hc & _ & Hd & Hf & Hcfg).
      destruct (flush_account db st0 w0) as (ext & Ht & _).
      exists ext. rewrite (since_ext _ _ _ Ht) in Hc.
      unfold deque_len in Hlen0.
      assert (Hdrop : drop (Z.to_nat (batch_size st0)) (items (buffer st0)) = [])
        by (apply drop_ge; lia).
      rewrite Hc, Hi, Hdrop, app_nil_r, <- Hitems.
      destruct Hcfg as (?&?&?&?&?).
      repeat split; try done. apply take_ge. lia. }
  destruct o as [dt a|dt]; cbn [step logged omap].
  - rewrite log_inference_enabled by done.
    set (e := make_event a). set (st1 := enqueue st e).
    assert (Hmlen : deque_len (buffer st) <= MAX_BUFFER) by lia.
    pose proof (enqueue_items st e Hmax Hmlen) as Hitems.
    destruct (Z.eqb_spec (deque_len (buffer st)) MAX_BUFFER) as [Heq|Hneq]; [lia|].
    destruct (enqueue_config st e) as (He1 & Hmax1 & Hbs1 & Hfs1 & _).
    assert (Hd1 : dropped_events st1 = dropped_events st).
    { unfold st1, enqueue.
      destruct (Z.eqb_spec (deque_len (buffer st)) MAX_BUFFER); [lia | done]. }
    assert (Hf1 : flush_failures st1 = flush_failures st).
    { unfold st1, enqueue. by destruct (deque_len (buffer st) =? MAX_BUFFER). }
    assert (Hdsn1 : dsn st1 = dsn st).
    { unfold st1, enqueue. by destruct (deque_len (buffer st) =? MAX_BUFFER). }
    assert (Hlen1 : deque_len (buffer st1) = deque_len (buffer st) + 1).
    { unfold deque_len, st1. rewrite Hitems, length_app. cbn [length]. lia. }
    fold st1 in Hitems, He1, Hmax1, Hbs1, Hfs1.
    destruct (flush_due st1 (advance w dt)) eqn:Hdue; cbn [fst snd].
    + destruct (Hflush st1 (advance w dt)) as (ext & Ht & Hc & Hd & Hf & Hcfg & Hnil);
        [congruence | lia | lia |].
      exists ext. rewrite Hc, Hitems. unfold deque_len at 1. rewrite Hnil.
      destruct Hcfg as (?&?&?&?&?).
      repeat split; try congruence; [exact Ht | cbn; lia].
    + exists []. rewrite app_nil_r.
      change (committed []) with (@nil event). cbn [app].
      split; [done|]. unfold flush_due in Hdue. apply orb_false_iff in Hdue as (Hb & _).
      apply Z.leb_gt in Hb.
      split; [exact Hitems|]. split; [exact Hd1|]. split; [exact Hf1|].
      split; [by repeat split | lia].
  - destruct (Hflush st (advance w dt)) as (ext & Ht & Hc & Hd & Hf & Hcfg & Hnil);
      [done | lia | lia |].
    exists ext. rewrite app_nil_r, Hc. unfold deque_len at 1. rewrite Hnil.
    repeat split; try done; [apply Hcfg.. | cbn; lia].
Qed.

Lemma run_database_up (db : database) (st : client) (w : world)
    (ops : list op) :
  (forall n, db n = WriteOk) ->
  enabled st = true ->
  maxlen (buffer st) = MAX_BUFFER ->
  0 < batch_size st <= MAX_BUFFER ->
  deque_len (buffer st) < batch_size st ->
  let r := run db st w ops in
  committed (since w r.1.2) ++ items (buffer r.1.1)
    = items (buffer st) ++ logged ops /\
  dropped_events r.1.1 = dropped_events st /\
  flush_failures r.1.1 = flush_failures st /\
  deque_len (buffer r.1.1) < batch_size st.
Proof.
  intros Hup. revert st w.
  induction ops as [|o ops IH]; intros st w He Hmax Hbs Hlen.
  - cbn. unfold since. rewrite drop_all, app_nil_r. by repeat split.
  - cbn [run].
    destruct (step_database_up db st w o Hup He Hmax Hbs Hlen)
      as (e1 & Ht1 & Hc1 & Hd1 & Hf1 & Hcfg & Hl1).
    destruct (step db st w o) as [[st1 w1] s]. cbn [fst snd] in *.
    destruct Hcfg as (He1 & _ & Hbs1 & _ & Hmax1).
    specialize (IH st1 w1).
    destruct (run_account db ops st1 w1) as (e2 & Ht2 & _).
    destruct (run db st1 w1 ops) as [[st2 w2] ss]. cbn [fst snd] in *.
    destruct IH as (Hc2 & Hd2 & Hf2 & Hl2); [congruence | congruence | lia | lia |].
    rewrite (since_ext _ _ _ Ht2) in Hc2.
    assert (Hs : since w w2 = e1 ++ e2).
    { apply since_ext. rewrite Ht2, Ht1. by rewrite <- app_assoc. }
    rewrite Hs, committed_app, logged_cons.
    split; [|repeat split; try congruence; lia].
    rewrite <- app_assoc, Hc2, !app_assoc. by rewrite Hc1.
Qed.

(** X7. With the database up, a positive batch size of at most [MAX_BUFFER]
    and a buffer that starts shorter than a batch, a run loses nothing:
    the events committed, followed by the events still buffered, are
    exactly the events that were buffered followed by the events logged,
    in that order; nothing is dropped, no flush fails, the buffer stays
    shorter than a batch, every call returns normally, and the success
    counter has grown by the number of events that left the buffer. *)
Theorem database_up_loses_nothing (db : database) (st : client) (w : world)
    (ops : list op) :
  (forall n, db n = WriteOk) ->
  enabled st = true ->
  maxlen (buffer st) = MAX_BUFFER ->
  0 < batch_size st <= MAX_BUFFER ->
  deque_len (buffer st) < batch_size st ->
  let r := run db st w ops in
  committed (since w r.1.2) ++ items (buffer r.1.1)
    = items (buffer st) ++ logged ops /\
  dropped_events r.1.1 = dropped_events st /\
  flush_failures r.1.1 = flush_failures st /\
  deque_len (buffer r.1.1) < batch_size st /\
  Forall (fun s => s = Returned) r.2 /\
  insert_success r.1.1 + deque_len (buffer r.1.1)
    = insert_success st + deque_len (buffer st) + Z.of_nat (length (logged ops)).
Proof.
  intros Hup He Hmax Hbs Hlen r.
  destruct (run_database_up db st w ops Hup He Hmax Hbs Hlen)
    as (Hc & Hd & Hf & Hl).
  destruct (run_account db ops st w) as (ext & Ht & _ & _ & Hi & _ & Hn).
  fold r in Hc, Hd, Hf, Hl, Ht, Hi, Hn.
  split; [exact Hc|]. split; [exact Hd|]. split; [exact Hf|]. split; [exact Hl|].
  split; [apply Hn; intros n; by rewrite Hup|].
  rewrite (since_ext _ _ _ Ht) in Hc.
  apply (f_equal length) in Hc. rewrite !length_app in Hc.
  rewrite Hi. unfold deque_len. lia.
Qed.

(** With a batch size that is not positive, [flush] takes nothing out of
    the buffer and makes no attempt. *)
Lemma flush_nonpositive (db : database) (st : client) (w : world) :
  batch_size st <= 0 ->
  let r := flush db st w in
  r.2 = Returned /\
  items (buffer r.1.1) = items (buffer st) /\
  r.1.2 = emit w IoFlushCall /\
  same_config st r.1.1 /\
  dropped_events r.1.1 = dropped_events st /\
  insert_success r.1.1 = insert_success st /\
  flush_failures r.1.1 = flush_failures st.
Proof.
  intros Hbs. unfold flush.
  destruct (negb (enabled st) || bool_decide (items (buffer st) = []));
    [by repeat split|].
  rewrite pop_batch_fresh. replace (Z.to_nat (batch_size st)) with 0%nat by lia.
  rewrite take_0, drop_0. by repeat split.
Qed.

Lemma drop_excess_snoc (M : nat) (l : list event) (e : event) (rest : list event) :
  length l = M ->
  drop (length ((tail l ++ [e]) ++ rest) - M) ((tail l ++ [e]) ++ rest)
    = drop (length ((l ++ [e]) ++ rest) - M) ((l ++ [e]) ++ rest).
Proof.
  intros Hl. destruct l as [|x l].
  - cbn [tail app]. reflexivity.
  - cbn [tail app length] in *.
    assert (HL : (M <= length ((l ++ [e]) ++ rest))%nat).
    { rewrite !length_app. cbn [length]. lia. }
    set (L := (l ++ [e]) ++ rest) in *.
    replace (S (length L) - M)%nat with (S (length L - M))%nat by lia.
    reflexivity.
Qed.

(** X8. A batch size that is not positive (DRIFTWATCH_BATCH_SIZE=0, say) turns
    persistence off without a word: over any run no write attempt is made
    and nothing is committed, every call returns normally, the buffer holds
    exactly the last [MAX_BUFFER] events that were buffered or logged, and
    every older one is counted as dropped. *)
Theorem nonpositive_batch_size_never_writes (db : database) (st : client)
    (w : world) (ops : list op) :
  batch_size st <= 0 ->
  enabled st = true ->
  maxlen (buffer st) = MAX_BUFFER ->
  deque_len (buffer st) <= MAX_BUFFER ->
  let r := run db st w ops in
  let all := items (buffer st) ++ logged ops in
  let excess := (length all - Z.to_nat MAX_BUFFER)%nat in
  attempts r.1.2 = attempts w /\
  writes (since w r.1.2) = [] /\
  insert_success r.1.1 = insert_success st /\
  Forall (fun s => s = Returned) r.2 /\
  items (buffer r.1.1) = drop excess all /\
  dropped_events r.1.1 = dropped_events st + Z.of_nat excess.
Proof.
  revert st w. induction ops as [|o ops IH]; intros st w Hbs He Hmax Hlen.
  - cbn [run logged omap fst snd]. rewrite app_nil_r.
    unfold deque_len in Hlen.
    replace (length (items (buffer st)) - Z.to_nat MAX_BUFFER)%nat with 0%nat by lia.
    unfold since. rewrite drop_all, drop_0, Z.add_0_r. by repeat split.
  - cbn [run]. cbv zeta.
    assert (Hstep : exists st1 w1,
              step db st w o = (st1, w1, Returned) /\
              batch_size st1 <= 0 /\ enabled st1 = true /\
              maxlen (buffer st1) = MAX_BUFFER /\
              attempts w1 = attempts w /\
              (exists ext, trace w1 = trace w ++ ext /\ writes ext = []) /\
              insert_success st1 = insert_success st /\
              items (buffer st1) =
                drop (length (items (buffer st) ++ logged [o]) - Z.to_nat MAX_BUFFER)
                     (items (buffer st) ++ logged [o]) /\
              dropped_events st1 = dropped_events st +
                Z.of_nat (length (items (buffer st) ++ logged [o])
                          - Z.to_nat MAX_BUFFER)).
    { unfold deque_len in Hlen. destruct o as [dt a|dt]; cbn [step].
      - change (logged [OpLog dt a]) with [make_event a].
        rewrite log_inference_enabled by done.
        set (e := make_event a). set (st1 := enqueue st e).
        pose proof (enqueue_items st e Hmax Hlen) as Hitems.
        destruct (enqueue_config st e) as (He1 & Hmax1 & Hbs1 & _).
        assert (Hi1 : insert_success st1 = insert_success st)
          by apply enqueue_insert_success.
        assert (Hd1 : dropped_events st1 = dropped_events st +
                        (if deque_len (buffer st) =? MAX_BUFFER then 1 else 0)).
        { unfold st1, enqueue. destruct (deque_len (buffer st) =? MAX_BUFFER);
            cbn; lia. }
        fold st1 in Hitems, He1, Hmax1, Hbs1.
        assert (Hshape :
          items (buffer st1) =
            drop (length (items (buffer st) ++ [e]) - Z.to_nat MAX_BUFFER)
                 (items (buffer st) ++ [e]) /\
          dropped_events st1 = dropped_events st +
            Z.of_nat (length (items (buffer st) ++ [e]) - Z.to_nat MAX_BUFFER)).
        { rewrite Hitems, Hd1, length_app. cbn [length]. unfold deque_len.
          destruct (Z.eqb_spec (Z.of_nat (length (items (buffer st)))) MAX_BUFFER)
            as [Heq|Hneq].
          - replace (length (items (buffer st)) + 1 - Z.to_nat MAX_BUFFER)%nat
              with 1%nat by lia.
            split; [|lia]. pose proof MAX_BUFFER_pos.
            destruct (items (buffer st)); [cbn in Heq; lia | done].
          - replace (length (items (buffer st)) + 1 - Z.to_nat MAX_BUFFER)%nat
              with 0%nat by lia.
            split; [done|lia]. }
        destruct Hshape as (Hs1 & Hs2).
        destruct (flush_due st1 (advance w dt)).
        + destruct (flush_nonpositive db st1 (advance w dt)) as
            (Hr & Hfi & Hfw & Hcfg & Hfd & Hfs & _); [lia|].
          destruct (flush db st1 (advance w dt)) as [[st2 w2] s].
          cbn [fst snd] in *. subst s w2.
          destruct Hcfg as (?&?&?&?&?).
          exists st2, (emit (advance w dt) IoFlushCall).
          split; [done|]. split; [lia|]. split; [congruence|].
          split; [congruence|]. split; [done|].
          split; [exists [IoFlushCall]; by split|].
          split; [congruence|]. split; congruence.
        + exists st1, (advance w dt).
          split; [done|]. split; [lia|]. split; [congruence|].
          split; [congruence|]. split; [done|].
          split; [exists []; split; [by rewrite app_nil_r | done]|].
          by repeat split.
      - change (logged [OpFlush dt]) with (@nil event).
        destruct (flush_nonpositive db st (advance w dt)) as
          (Hr & Hfi & Hfw & Hcfg & Hfd & Hfs & _); [lia|].
        destruct (flush db st (advance w dt)) as [[st2 w2] s].
        cbn [fst snd] in *. subst s w2.
        destruct Hcfg as (?&?&?&?&?).
        exists st2, (emit (advance w dt) IoFlushCall).
        rewrite app_nil_r.
        replace (length (items (buffer st)) - Z.to_nat MAX_BUFFER)%nat
          with 0%nat by lia.
        rewrite drop_0, Z.add_0_r.
        split; [done|]. split; [lia|]. split; [congruence|].
        split; [congruence|]. split; [done|].
        split; [exists [IoFlushCall]; by split|].
        by repeat split. }
    destruct Hstep as (st1 & w1 & Hst & Hbs1 & He1 & Hmax1 & Ha1 & (e1 & Ht1 & Hw1)
                       & Hi1 & Hitems1 & Hd1).
    rewrite Hst.
    assert (Hlen1 : deque_len (buffer st1) <= MAX_BUFFER).
    { unfold deque_len. rewrite Hitems1, length_drop.
      pose proof MAX_BUFFER_pos. lia. }
    specialize (IH st1 w1 Hbs1 He1 Hmax1 Hlen1). cbv zeta in IH.
    destruct (run_account db ops st1 w1) as (e2 & Ht2 & _).
    destruct (run db st1 w1 ops) as [[st2 w2] ss]. cbn [fst snd] in *.
    destruct IH as (Ha2 & Hw2 & Hi2 & Hall & Hitems2 & Hd2).
    rewrite (since_ext _ _ _ Ht2) in Hw2.
    assert (Hs : since w w2 = e1 ++ e2).
    { apply since_ext. rewrite Ht2, Ht1. by rewrite <- app_assoc. }
    rewrite Hs, writes_app, Hw1, Hw2.
    split; [congruence|]. split; [done|]. split; [congruence|].
    split; [by constructor|].
    rewrite logged_cons.
    unfold deque_len in Hlen.
    destruct o as [dt a|dt].
    + change (logged [OpLog dt a]) with [make_event a] in *.
      set (e := make_event a) in *.
      rewrite length_app in Hitems1, Hd1. cbn [length] in Hitems1, Hd1.
      destruct (decide (length (items (buffer st)) = Z.to_nat MAX_BUFFER))
        as [Heq|Hneq].
      * replace (length (items (buffer st)) + 1 - Z.to_nat MAX_BUFFER)%nat
          with 1%nat in Hitems1, Hd1 by lia.
        assert (Hi : items (buffer st1) = tail (items (buffer st)) ++ [e]).
        { rewrite Hitems1. pose proof MAX_BUFFER_pos.
          destruct (items (buffer st)); [cbn in Heq; lia | done]. }
        rewrite Hitems2, Hd2, Hi.
        rewrite (drop_excess_snoc _ _ _ _ Heq).
        rewrite !app_assoc. split; [done|].
        rewrite !length_app. cbn [length].
        assert (Hlt : length (tail (items (buffer st))) = (Z.to_nat MAX_BUFFER - 1)%nat).
        { pose proof MAX_BUFFER_pos.
          destruct (items (buffer st)); cbn [tail length] in *; lia. }
        rewrite Hlt. pose proof MAX_BUFFER_pos. lia.
      * replace (length (items (buffer st)) + 1 - Z.to_nat MAX_BUFFER)%nat
          with 0%nat in Hitems1, Hd1 by lia.
        rewrite drop_0 in Hitems1.
        rewrite Hitems2, Hd2, Hitems1, !app_assoc. split; [done|]. lia.
    + change (logged [OpFlush dt]) with (@nil event) in *.
      rewrite app_nil_r in Hitems1, Hd1.
      replace (length (items (buffer st)) - Z.to_nat MAX_BUFFER)%nat
        with 0%nat in Hitems1, Hd1 by lia.
      rewrite drop_0 in Hitems1. cbn [app].
      rewrite Hitems2, Hd2, Hitems1. split; [done|]. lia.
Qed.

(** * [close] *)

(** On an enabled client with events to send, [flush] takes the
    [batch_size] oldest events out of the buffer, whatever becomes of
    them. *)
Lemma flush_items (db : database) (st : client) (w : world) :
  enabled st = true ->
  items (buffer (flush db st w).1.1)
    = drop (Z.to_nat (batch_size st)) (items (buffer st)).
Proof.
  intros He. unfold flush. rewrite He. cbn [negb orb].
  destruct (bool_decide_reflect (items (buffer st) = [])) as [Hnil|Hne].
  { cbn [fst]. by rewrite Hnil, drop_nil. }
  rewrite pop_batch_fresh.
  destruct (take _ _) as [|e batch]; [done|].
  pose proof (retry_loop_client db (e :: batch) (seq 0 MAX_RETRIES) (1 # 2)%Q
    (set_buffer st (Deque (drop (Z.to_nat (batch_size st)) (items (buffer st)))
                          (maxlen (buffer st))))
    (emit w IoFlushCall)) as (Hbuf & _).
  destruct (retry_loop _ _ _ _ _ _) as [[[st2 w2] ok] s]. cbn [fst snd] in Hbuf.
  destruct s, ok; cbn [fst set_flush_failures buffer]; by rewrite Hbuf.
Qed.

Lemma close_loop_account (db : database) (fuel : nat) :
  forall (st : client) (w : world),
    enabled st = true ->
    0 < batch_size st ->
    (length (items (buffer st)) <= fuel)%nat ->
    exists (st' : client) (w' : world) (s : status) (ext : list io_event),
      close_loop fuel db st w = Some (st', w', s) /\
      (s = Returned -> items (buffer st') = []) /\
      trace w' = trace w ++ ext /\
      committed ext ++ items (buffer st') `sublist_of` items (buffer st) /\
      insert_success st' = insert_success st + Z.of_nat (length (committed ext)) /\
      dropped_events st' = dropped_events st /\
      ((forall n, db n <> WriteOther) -> s = Returned).
Proof.
  induction fuel as [|fuel IH]; intros st w He Hbs Hlen.
  - destruct (items (buffer st)) as [|x l] eqn:Hi; [|cbn in Hlen; lia].
    exists st, w, Returned, []. cbn [close_loop]. rewrite Hi, app_nil_r.
    repeat split; try done. cbn. lia.
  - cbn [close_loop].
    destruct (items (buffer st)) as [|x l] eqn:Hi.
    { exists st, w, Returned, []. rewrite Hi, app_nil_r.
      repeat split; try done. cbn. lia. }
    pose proof (flush_items db st w He) as Hfi.
    destruct (flush_account db st w) as (e1 & Ht1 & _ & _ & _ & Hi1 & Hs1 & _ & Hn1).
    destruct (flush_client db st w) as ((He1 & _ & Hbs1 & _ & _) & _).
    pose proof (flush_dropped_events db st w) as Hd1.
    destruct (flush db st w) as [[st1 w1] s1]. cbn [fst snd] in *.
    rewrite Hi in Hfi, Hs1.
    destruct s1.
    + assert (Hlen1 : (length (items (buffer st1)) <= fuel)%nat).
      { rewrite Hfi, length_drop. cbn [length] in *. lia. }
      destruct (IH st1 w1) as (st' & w' & s & e2 & Hc & Hnil & Ht2 & Hs2 & Hi2 & Hd2 & Hn2);
        [congruence | lia | done |].
      exists st', w', s, (e1 ++ e2). rewrite committed_app, length_app.
      split; [done|]. split; [done|].
      split; [rewrite Ht2, Ht1; by rewrite <- app_assoc|].
      split; [|split; [lia | split; [congruence | done]]].
      rewrite <- app_assoc.
      etrans; [apply sublist_app; [reflexivity | exact Hs2]|]. exact Hs1.
    + exists st1, w1, Raised, e1.
      split; [done|]. split; [done|]. split; [done|].
      split; [done|]. split; [done|]. split; [done|].
      intros Hno. by apply Hn1.
Qed.

(** X9. With a positive batch size [close] ends, after at most as many calls of
    [flush] as there are buffered events. When no exception escapes it
    leaves the buffer empty; either way no event is committed twice or out
    of order, and the success counter counts what was committed. *)
Theorem close_drains_buffer (db : database) (fuel : nat) (st : client) (w : world) :
  enabled st = true ->
  0 < batch_size st ->
  (length (items (buffer st)) <= fuel)%nat ->
  exists (st' : client) (w' : world) (s : status),
    close fuel db st w = Some (st', w', s) /\
    (s = Returned -> items (buffer st') = []) /\
    ((forall n, db n <> WriteOther) -> s = Returned) /\
    committed (since w w') ++ items (buffer st') `sublist_of` items (buffer st) /\
    insert_success st' =
      insert_success st + Z.of_nat (length (committed (since w w'))).
Proof.
  intros He Hbs Hlen.
  destruct (close_loop_account db fuel st w He Hbs Hlen)
    as (st' & w' & s & ext & Hc & Hnil & Ht & Hs & Hi & _ & Hn).
  exists st', w', s. unfold close. rewrite He, (since_ext _ _ _ Ht).
  by repeat split.
Qed.

(** X10. With a batch size that is not positive and an event in the buffer,
    [close] never ends: each [flush] takes nothing out, so the loop goes on
    however many times it is allowed to run. *)
Theorem close_never_ends_without_batches (db : database) (st : client)
    (w : world) (fuel : nat) :
  enabled st = true ->
  batch_size st <= 0 ->
  items (buffer st) <> [] ->
  close fuel db st w = None.
Proof.
  intros He Hbs Hne. unfold close. rewrite He.
  revert st w He Hbs Hne. induction fuel as [|fuel IH]; intros st w He Hbs Hne.
  - cbn [close_loop]. by destruct (items (buffer st)).
  - cbn [close_loop]. destruct (items (buffer st)) as [|x l] eqn:Hi; [done|].
    destruct (flush_nonpositive db st w Hbs) as (Hr & Hfi & _ & Hcfg & _).
    destruct (flush db st w) as [[st1 w1] s1]. cbn [fst snd] in *. subst s1.
    destruct Hcfg as (He1 & _ & Hbs1 & _).
    apply IH; [congruence | lia | congruence].
Qed.

(** A disabled client closes at once and does nothing. *)
Lemma close_disabled (db : database) (fuel : nat) (st : client) (w : world) :
  enabled st = false -> close fuel db st w = Some (st, w, Returned).
Proof. intros He. unfold close. by rewrite He. Qed.

Lemma close_loop_database_up (db : database) (fuel : nat) :
  forall (st : client) (w : world),
    (forall n, db n = WriteOk) ->
    enabled st = true ->
    0 < batch_size st ->
    (length (items (buffer st)) <= fuel)%nat ->
    exists (st' : client) (w' : world) (ext : list io_event),
      close_loop fuel db st w = Some (st', w', Returned) /\
      items (buffer st') = [] /\
      trace w' = trace w ++ ext /\
      committed ext = items (buffer st) /\
      dropped_events st' = dropped_events st /\
      flush_failures st' = flush_failures st /\
      Z.of_nat (attempts w') =
        Z.of_nat (attempts w)
        + (deque_len (buffer st) + batch_size st - 1) / batch_size st.
Proof.
  induction fuel as [|fuel IH]; intros st w Hup He Hbs Hlen.
  - destruct (items (buffer st)) as [|x l] eqn:Hi; [|cbn in Hlen; lia].
    exists st, w, []. cbn [close_loop]. unfold deque_len. rewrite Hi, app_nil_r.
    repeat split; try done. cbn [length].
    rewrite Z.div_small by lia. lia.
  - cbn [close_loop].
    destruct (items (buffer st)) as [|x l] eqn:Hi.
    { exists st, w, []. unfold deque_len. rewrite Hi, app_nil_r.
      repeat split; try done. cbn [length]. rewrite Z.div_small by lia. lia. }
    assert (Hne : items (buffer st) <> []) by by rewrite Hi.
    destruct (flush_first_try db st w He Hne Hbs (Hup _))
      as (Hr & Hfi & Hc & Ha & Hd & Hf & Hcfg).
    destruct (flush_account db st w) as (e1 & Ht1 & _).
    rewrite (since_ext _ _ _ Ht1) in Hc.
    destruct (flush db st w) as [[st1 w1] s1]. cbn [fst snd] in *. subst s1.
    destruct Hcfg as (He1 & _ & Hbs1 & _).
    assert (Hlen1 : (length (items (buffer st1)) <= fuel)%nat).
    { rewrite Hfi, length_drop, Hi. cbn [length] in *. lia. }
    destruct (IH st1 w1 Hup) as (st' & w' & e2 & Hcl & Hnil & Ht2 & Hc2 & Hd2 & Hf2 & Ha2);
      [congruence | lia | done |].
    exists st', w', (e1 ++ e2). rewrite committed_app, Hc, Hc2, Hfi.
    split; [done|]. split; [done|].
    split; [rewrite Ht2, Ht1; by rewrite <- app_assoc|].
    split; [by rewrite Hi, take_drop|].
    split; [congruence|]. split; [congruence|].
    rewrite Ha2, Ha, Hbs1. unfold deque_len. rewrite Hfi, length_drop, Hi.
    set (len := length (x :: l)). set (bs := batch_size st) in *.
    assert (Hpos : (0 < len)%nat) by (subst len; cbn; lia).
    destruct (Z_lt_le_dec (Z.of_nat len) bs) as [Hsmall|Hbig].
    + replace (len - Z.to_nat bs)%nat with 0%nat by lia.
      rewrite (Z.div_small (Z.of_nat 0 + bs - 1)) by lia.
      assert (Hone : (Z.of_nat len + bs - 1) / bs = 1).
      { symmetry. apply (Z.div_unique _ _ 1 (Z.of_nat len - 1)); lia. }
      lia.
    + replace (Z.of_nat (len - Z.to_nat bs)) with (Z.of_nat len - bs) by lia.
      replace (Z.of_nat len + bs - 1) with ((Z.of_nat len - bs + bs - 1) + 1 * bs)
        by lia.
      rewrite Z.div_add by lia. lia.
Qed.

Lemma close_database_up (db : database) (fuel : nat) (st : client)
    (w : world) :
  (forall n, db n = WriteOk) ->
  enabled st = true ->
  0 < batch_size st ->
  (length (items (buffer st)) <= fuel)%nat ->
  exists (st' : client) (w' : world),
    close fuel db st w = Some (st', w', Returned) /\
    items (buffer st') = [] /\
    committed (since w w') = items (buffer st) /\
    dropped_events st' = dropped_events st /\
    flush_failures st' = flush_failures st /\
    Z.of_nat (attempts w') =
      Z.of_nat (attempts w)
      + (deque_len (buffer st) + batch_size st - 1) / batch_size st.
Proof.
  intros Hup He Hbs Hlen.
  destruct (close_loop_database_up db fuel st w Hup He Hbs Hlen)
    as (st' & w' & ext & Hc & Hnil & Ht & Hcm & Hd & Hf & Ha).
  exists st', w'. unfold close. rewrite He, (since_ext _ _ _ Ht).
  by repeat split.
Qed.

(** X11. With the database up and a positive batch size, [close] sends the whole
    buffer: it returns normally with the buffer empty, the events committed
    are exactly the buffered ones in their order, in batches of
    [batch_size] (the last one possibly shorter), one write attempt per
    batch, nothing is dropped or counted as failed, and the success
    counter grows by the number of events that were buffered. *)
Theorem close_sends_whole_buffer (db : database) (fuel : nat) (st : client)
    (w : world) :
  (forall n, db n = WriteOk) ->
  enabled st = true ->
  0 < batch_size st ->
  (length (items (buffer st)) <= fuel)%nat ->
  exists (st' : client) (w' : world),
    close fuel db st w = Some (st', w', Returned) /\
    items (buffer st') = [] /\
    committed (since w w') = items (buffer st) /\
    dropped_events st' = dropped_events st /\
    flush_failures st' = flush_failures st /\
    Z.of_nat (attempts w') =
      Z.of_nat (attempts w)
      + (deque_len (buffer st) + batch_size st - 1) / batch_size st /\
    insert_success st' = insert_success st + deque_len (buffer st).
Proof.
  intros Hup He Hbs Hlen.
  destruct (close_database_up db fuel st w Hup He Hbs Hlen)
    as (st' & w' & Hc & Hnil & Hcm & Hd & Hf & Ha).
  destruct (close_loop_account db fuel st w He Hbs Hlen)
    as (st'' & w'' & s & ext & Hc' & _ & Ht & _ & Hi & _).
  unfold close in Hc. rewrite He, Hc' in Hc. injection Hc as -> -> ->.
  exists st', w'. unfold close. rewrite He, Hc'.
  split; [done|]. split; [exact Hnil|]. split; [exact Hcm|].
  split; [exact Hd|]. split; [exact Hf|]. split; [exact Ha|].
  rewrite (since_ext _ _ _ Ht) in Hcm. by rewrite Hi, Hcm.
Qed.

(** X12. The session of [app/main.py] and of the smoke test, in general: any
    calls of [log_inference] and [flush], then [close]. With the database
    up, a batch size between 1 and [MAX_BUFFER] and a fresh buffer, every
    event logged is committed exactly once, in the order of the calls, and
    the buffer ends empty. *)
Theorem session_delivers_every_event (db : database) (fuel : nat) (st : client)
    (w : world) (ops : list op) :
  (forall n, db n = WriteOk) ->
  enabled st = true ->
  maxlen (buffer st) = MAX_BUFFER ->
  0 < batch_size st <= MAX_BUFFER ->
  items (buffer st) = [] ->
  (Z.to_nat (batch_size st) <= fuel)%nat ->
  let r := run db st w ops in
  exists (st' : client) (w' : world),
    close fuel db r.1.1 r.1.2 = Some (st', w', Returned) /\
    items (buffer st') = [] /\
    committed (since w w') = logged ops /\
    insert_success st' = insert_success st + Z.of_nat (length (logged ops)) /\
    dropped_events st' = dropped_events st /\
    flush_failures st' = flush_failures st.
Proof.
  intros Hup He Hmax Hbs Hnil Hfuel r.
  assert (Hlen : deque_len (buffer st) < batch_size st).
  { unfold deque_len. rewrite Hnil. cbn. lia. }
  destruct (run_database_up db st w ops Hup He Hmax Hbs Hlen)
    as (Hc & Hd & Hf & Hl).
  destruct (run_invariant db ops st w He Hmax) as (He1 & Hmax1 & _); [lia|].
  destruct (run_account db ops st w) as (e1 & Ht1 & _ & _ & Hi1 & _).
  assert (Hbs1 : batch_size r.1.1 = batch_size st).
  { clear -He. subst r. revert st w He. induction ops as [|o ops IH]; intros st w He; [done|].
    cbn [run].
    assert (Hs : batch_size (step db st w o).1.1 = batch_size st /\
                 enabled (step db st w o).1.1 = enabled st).
    { destruct o as [dt a|dt]; cbn [step].
      - rewrite log_inference_enabled by done.
        destruct (enqueue_config st (make_event a)) as (He1 & _ & Hb1 & _).
        destruct (flush_due _ _); cbn [fst]; [|done].
        destruct (flush_client db (enqueue st (make_event a)) (advance w dt))
          as ((He2 & _ & Hb2 & _) & _). split; congruence.
      - destruct (flush_client db st (advance w dt)) as ((He2 & _ & Hb2 & _) & _).
        done. }
    destruct Hs as (Hb & He').
    destruct (step db st w o) as [[st1 w1] s]. cbn [fst] in *.
    specialize (IH st1 w1). destruct (run db st1 w1 ops) as [[st2 w2] ss].
    cbn [fst] in *. rewrite IH; [done | congruence]. }
  fold r in Hc, Hd, Hf, Hl, He1, Hmax1, Ht1, Hi1.
  rewrite (since_ext _ _ _ Ht1) in Hc. rewrite Hnil in Hc. cbn [app] in Hc.
  destruct (close_database_up db fuel r.1.1 r.1.2 Hup He1)
    as (st' & w' & Hcl & Hnil' & Hc2 & Hd2 & Hf2 & _).
  { lia. } { unfold deque_len in Hl. lia. }
  destruct (close_loop_account db fuel r.1.1 r.1.2 He1) as
    (st'' & w'' & s & e2 & Hcl' & _ & Ht2 & _ & Hi2 & _); [lia | unfold deque_len in Hl; lia |].
  unfold close in Hcl. rewrite He1, Hcl' in Hcl. injection Hcl as -> -> ->.
  rewrite (since_ext _ _ _ Ht2) in Hc2.
  exists st', w'. unfold close. rewrite He1, Hcl'.
  assert (Hs : since w w' = e1 ++ e2).
  { apply since_ext. rewrite Ht2, Ht1. by rewrite <- app_assoc. }
  rewrite Hs, committed_app, Hc2, Hc.
  split; [done|]. split; [done|]. split; [done|].
  split; [|split; congruence].
  rewrite Hi2, Hi1, Hc2, <- Hc, length_app. lia.
Qed.

(** * PSI *)

Lemma cut_counts_nonneg (x : list Q) (bins : list edge) :
  Forall (fun c => 0 <= c) (cut_counts x bins).
Proof.
  induction bins as [|lo [|hi rest] IH]; cbn [cut_counts]; try done.
  constructor; [lia | exact IH].
Qed.

(** After the floor of lines 43 and 44 every proportion is positive. *)
Lemma percents_positive (counts : list Z) (n : nat) :
  Forall (fun c => 0 <= c) counts ->
  Forall (fun p => (0 < p)%Q) (percents counts n).
Proof.
  intros Hc. unfold percents. apply Forall_map.
  eapply Forall_impl; [exact Hc|]. intros c Hc0. cbn beta zeta.
  destruct (Qeq_bool _ 0) eqn:Hz; [reflexivity|].
  apply Qeq_bool_neq in Hz.
  assert (Hge : (0 <= inject_Z c / inject_Z (Z.of_nat n))%Q).
  { unfold Qdiv. apply Qmult_le_0_compat.
    - change 0%Q with (inject_Z 0). rewrite <- Zle_Qle. exact Hc0.
    - apply Qinv_le_0_compat. change 0%Q with (inject_Z 0).
      rewrite <- Zle_Qle. lia. }
  apply Qle_lteq in Hge as [Hlt|Heq]; [exact Hlt|].
  exfalso. apply Hz. by symmetry.
Qed.

(** A term of the PSI sum is never negative: the difference of two
    positive proportions and the logarithm of their ratio have the same
    sign. *)
Lemma psi_term_nonneg (a e : Q) :
  (0 < a)%Q -> (0 < e)%Q -> (0 <= psi_term a e)%R.
Proof.
  intros Ha He. unfold psi_term.
  assert (Hx : (0 < Q2R a)%R) by (rewrite <- RMicromega.Q2R_0; by apply Qreals.Qlt_Rlt).
  assert (Hy : (0 < Q2R e)%R) by (rewrite <- RMicromega.Q2R_0; by apply Qreals.Qlt_Rlt).
  set (x := Q2R a) in *. set (y := Q2R e) in *.
  assert (Hr : (0 < x / y)%R) by (apply Rdiv_lt_0_compat; lra).
  destruct (Rle_lt_dec y x) as [Hle|Hlt].
  - apply Rmult_le_pos; [lra|].
    destruct (Req_dec x y) as [->|Hne].
    + rewrite Rdiv_diag by lra. rewrite ln_1. lra.
    + rewrite <- ln_1. left. apply ln_increasing; [lra|].
      apply (Rmult_lt_reg_r y); [lra|]. unfold Rdiv.
      rewrite Rmult_assoc, Rinv_l by lra. lra.
  - assert (Hln : (ln (x / y) < 0)%R).
    { rewrite <- ln_1. apply ln_increasing; [lra|].
      apply (Rmult_lt_reg_r y); [lra|]. unfold Rdiv.
      rewrite Rmult_assoc, Rinv_l by lra. lra. }
    replace ((x - y) * ln (x / y))%R with ((y - x) * - ln (x / y))%R by ring.
    apply Rmult_le_pos; lra.
Qed.

Lemma Rsum_psi_nonneg (la le : list Q) :
  Forall (fun p => (0 < p)%Q) la ->
  Forall (fun p => (0 < p)%Q) le ->
  (0 <= Rsum (zip_with psi_term la le))%R.
Proof.
  intros Ha. revert le. induction Ha as [|a la Ha0 Ha IH]; intros le Hle.
  - cbn. lra.
  - destruct Hle as [|e le He0 Hle]; [cbn; lra|].
    cbn [zip_with Rsum foldr]. fold (Rsum (zip_with psi_term la le)).
    pose proof (psi_term_nonneg a e Ha0 He0). specialize (IH le Hle). lra.
Qed.

(** X13. [compute_psi] never returns a negative number, whatever the samples
    and whatever edges [pd.qcut] gives. *)
Theorem psi_is_never_negative (qcut : list Q -> Z -> result (list edge))
    (expected actual : list Q) (buckets : Z) (r : R) :
  compute_psi qcut expected actual buckets = Return r -> (0 <= r)%R.
Proof.
  unfold compute_psi.
  destruct ((length expected =? 0)%nat || (length actual =? 0)%nat).
  { intros [= <-]. lra. }
  destruct (qcut expected buckets) as [bins0|[]]; [| intros [= <-]; lra | done].
  destruct (clamp_bins bins0) as [bins|]; [|done].
  intros [= <-]. apply Rsum_psi_nonneg; apply percents_positive, cut_counts_nonneg.
Qed.

(** ** Every value falls into one bin *)

Lemma edge_ltb_trans (a b c : edge) :
  edge_ltb a b = true -> edge_ltb b c = true -> edge_ltb a c = true.
Proof.
  destruct a as [|x|], b as [|y|], c as [|z|]; cbn; try done.
  rewrite !negb_true_iff. intros Hxy Hyz.
  destruct (Qle_bool z x) eqn:Hzx; [|done].
  apply Qle_bool_iff in Hzx.
  assert (Hyx : (y <= x)%Q -> False)
    by (intros H; apply Qle_bool_iff in H; congruence).
  assert (Hzy : (z <= y)%Q -> False)
    by (intros H; apply Qle_bool_iff in H; congruence).
  exfalso. apply Hzy. apply Qnot_lt_le. intros Hlt. apply Hyx.
  apply Qle_trans with z; [by apply Qlt_le_weak | done].
Qed.

Lemma edge_leb_ltb_trans (a b c : edge) :
  edge_leb a b = true -> edge_ltb b c = true -> edge_ltb a c = true.
Proof.
  unfold edge_leb.
  destruct a as [|x|], b as [|y|], c as [|z|]; cbn; try done.
  rewrite negb_involutive, !negb_true_iff. intros Hxy Hyz.
  apply Qle_bool_iff in Hxy.
  destruct (Qle_bool z x) eqn:Hzx; [|done].
  apply Qle_bool_iff in Hzx. exfalso.
  assert (Hzy : (z <= y)%Q) by by apply Qle_trans with x.
  apply Qle_bool_iff in Hzy. congruence.
Qed.

Lemma edge_ltb_leb (a b : edge) : edge_ltb a b = true -> edge_leb a b = true.
Proof.
  unfold edge_leb. destruct a as [|x|], b as [|y|]; cbn; try done.
  rewrite !negb_true_iff. intros Hyx.
  destruct (Qle_bool x y) eqn:Hxy; [done|]. exfalso.
  destruct (Qlt_le_dec x y) as [Hlt|Hle].
  - apply Qlt_le_weak, Qle_bool_iff in Hlt. congruence.
  - apply Qle_bool_iff in Hle. congruence.
Qed.

Lemma edge_leb_trans (a b c : edge) :
  edge_leb a b = true -> edge_leb b c = true -> edge_leb a c = true.
Proof.
  unfold edge_leb. destruct a as [|x|], b as [|y|], c as [|z|]; cbn; try done.
  rewrite !negb_involutive. intros Hxy Hyz.
  apply Qle_bool_iff in Hxy, Hyz. apply Qle_bool_iff.
  by apply Qle_trans with y.
Qed.

Lemma last_cons_default (x : edge) (l : list edge) (d d' : edge) :
  List.last (x :: l) d = List.last (x :: l) d'.
Proof.
  revert x. induction l as [|y l IH]; intros x; [done|].
  change (List.last (x :: y :: l) d) with (List.last (y :: l) d).
  change (List.last (x :: y :: l) d') with (List.last (y :: l) d').
  apply IH.
Qed.

(** The last edge of an increasing list is not below its first. *)
Lemma increasing_last (lo : edge) (bins : list edge) :
  increasing (lo :: bins) = true -> edge_leb lo (List.last bins lo) = true.
Proof.
  revert lo. induction bins as [|hi rest IH]; intros lo Hinc.
  - cbn. unfold edge_leb. destruct lo as [|x|]; cbn; try done.
    rewrite negb_involutive. apply Qle_bool_iff, Qle_refl.
  - cbn [increasing] in Hinc. apply andb_true_iff in Hinc as (Hlt & Hrest).
    specialize (IH hi Hrest).
    apply edge_leb_trans with hi; [by apply edge_ltb_leb|].
    destruct rest as [|b rest]; [exact IH|].
    change (List.last (hi :: b :: rest) lo) with (List.last (b :: rest) lo).
    by rewrite (last_cons_default b rest lo hi).
Qed.

Lemma in_bin_split (lo hi top : edge) (v : Q) :
  edge_ltb lo hi = true -> edge_leb hi top = true ->
  (in_bin lo hi v = true /\ in_bin hi top v = false /\ in_bin lo top v = true) \/
  (in_bin lo hi v = false /\ in_bin hi top v = in_bin lo top v).
Proof.
  intros Hlt Hle. unfold in_bin.
  destruct (edge_leb (Fin v) hi) eqn:Hv.
  - assert (Hn : edge_ltb hi (Fin v) = false).
    { unfold edge_leb in Hv. by apply negb_true_iff in Hv. }
    rewrite Hn, (edge_leb_trans _ _ _ Hv Hle). cbn [andb].
    rewrite andb_true_r. destruct (edge_ltb lo (Fin v)); [by left | by right].
  - right. rewrite andb_false_r. split; [done|].
    assert (Hhv : edge_ltb hi (Fin v) = true).
    { unfold edge_leb in Hv. by apply negb_false_iff in Hv. }
    by rewrite Hhv, (edge_ltb_trans _ _ _ Hlt Hhv).
Qed.

Lemma count_in_bin_split (lo hi top : edge) (x : list Q) :
  edge_ltb lo hi = true -> edge_leb hi top = true ->
  (length (filter (fun v => in_bin lo hi v = true) x)
   + length (filter (fun v => in_bin hi top v = true) x))%nat
  = length (filter (fun v => in_bin lo top v = true) x).
Proof.
  intros Hlt Hle. induction x as [|v x IH]; [done|].
  rewrite !filter_cons.
  destruct (in_bin_split lo hi top v Hlt Hle) as [(H1 & H2 & H3)|(H1 & H2)].
  - rewrite H1, H2, H3. repeat case_decide; try done. cbn [length]. lia.
  - rewrite H1, H2. repeat case_decide; try done; cbn [length]; lia.
Qed.

(** The counts of the bins between increasing edges add up to the number
    of values above the first edge and not above the last. *)
Lemma cut_counts_sum (x : list Q) (bins : list edge) :
  forall lo : edge,
    increasing (lo :: bins) = true ->
    Zsum (cut_counts x (lo :: bins))
      = Z.of_nat (length (filter (fun v => in_bin lo (List.last bins lo) v = true) x)).
Proof.
  induction bins as [|hi rest IH]; intros lo Hinc.
  - cbn [cut_counts Zsum foldr List.last].
    assert (Hnone : forall v, in_bin lo lo v = false).
    { intros v. unfold in_bin, edge_leb. by destruct (edge_ltb lo (Fin v)). }
    induction x as [|v x IHx]; [done|].
    rewrite filter_cons, Hnone, decide_False by done. exact IHx.
  - cbn [increasing] in Hinc. apply andb_true_iff in Hinc as (Hlt & Hrest).
    change (cut_counts x (lo :: hi :: rest))
      with (Z.of_nat (length (filter (fun v => in_bin lo hi v = true) x))
            :: cut_counts x (hi :: rest)).
    change (Zsum (?a :: ?l)) with (a + Zsum l).
    rewrite (IH hi Hrest).
    pose proof (increasing_last hi rest Hrest) as Hle.
    rewrite <- Nat2Z.inj_add, (count_in_bin_split lo hi _ x Hlt Hle).
    destruct rest as [|b rest]; [reflexivity|].
    change (List.last (hi :: b :: rest) lo) with (List.last (b :: rest) lo).
    by rewrite (last_cons_default b rest lo hi).
Qed.

Lemma cut_counts_length (x : list Q) (bins : list edge) :
  length (cut_counts x bins) = (length bins - 1)%nat.
Proof.
  induction bins as [|lo [|hi rest] IH]; cbn [cut_counts length] in *; try done.
  rewrite IH. lia.
Qed.

(** Writing plus infinity over the last of some finite edges keeps them
    increasing and makes plus infinity the last edge. *)
Lemma set_last_increasing (qs : list Q) :
  forall lo : edge,
    qs <> [] -> lo <> PosInf ->
    increasing (lo :: map Fin qs) = true ->
    increasing (lo :: <[(length qs - 1)%nat := PosInf]> (map Fin qs)) = true /\
    List.last (<[(length qs - 1)%nat := PosInf]> (map Fin qs)) lo = PosInf.
Proof.
  induction qs as [|q qs IH]; intros lo Hne Hlo Hinc; [done|].
  destruct qs as [|q' qs].
  - cbn. by destruct lo.
  - cbn [map increasing] in Hinc. apply andb_true_iff in Hinc as (H1 & Hrest).
    destruct (IH (Fin q)) as (Hinc' & Hlast); [done | done | exact Hrest |].
    cbn [length Nat.sub map] in *. rewrite ?Nat.sub_0_r in *.
    change (<[S (length qs) := PosInf]> (Fin q :: Fin q' :: map Fin qs))
      with (Fin q :: <[length qs := PosInf]> (Fin q' :: map Fin qs)).
    split.
    + cbn [increasing]. rewrite H1. exact Hinc'.
    + destruct (<[length qs := PosInf]> (Fin q' :: map Fin qs)) as [|b l] eqn:Hl.
      * destruct qs; discriminate Hl.
      * change (List.last (Fin q :: b :: l) lo) with (List.last (b :: l) lo).
        by rewrite (last_cons_default b l lo (Fin q)).
Qed.

(** X14. Lines 35 and 36 do what their comment says. When [pd.qcut] returns at
    least two edges, finite and increasing, the clamped bins are one fewer
    than the edges and every value of any sample, inside the range of the
    baseline or not, is counted in exactly one of them: the counts add up
    to the size of the sample. *)
Theorem clamped_bins_count_every_value (qs : list Q) (x : list Q) :
  (2 <= length qs)%nat ->
  increasing (map Fin qs) = true ->
  exists bins : list edge,
    clamp_bins (map Fin qs) = Return bins /\
    length (cut_counts x bins) = (length qs - 1)%nat /\
    Zsum (cut_counts x bins) = Z.of_nat (length x).
Proof.
  intros Hlen Hinc.
  destruct qs as [|q0 [|q1 qs]]; [cbn in Hlen; lia | cbn in Hlen; lia |].
  exists (NegInf :: <[length qs := PosInf]> (Fin q1 :: map Fin qs)).
  split.
  { unfold clamp_bins. cbn [map length Nat.sub]. rewrite ?Nat.sub_0_r, length_map.
    reflexivity. }
  cbn [map increasing] in Hinc. apply andb_true_iff in Hinc as (_ & Hrest).
  destruct (set_last_increasing (q1 :: qs) NegInf) as (Hinc' & Hlast);
    [done | done | exact Hrest |].
  cbn [length Nat.sub map] in Hinc', Hlast. rewrite ?Nat.sub_0_r in Hinc', Hlast.
  split.
  - rewrite cut_counts_length. cbn [length]. rewrite length_insert.
    cbn [length]. rewrite length_map. lia.
  - rewrite (cut_counts_sum x _ NegInf Hinc'), Hlast. f_equal.
    induction x as [|v x IHx]; [done|].
    rewrite filter_cons. rewrite decide_True by done. cbn [length]. by rewrite IHx.
Qed.

(** * F1 and MAE *)

From Stdlib Require Lqa.

Lemma Qf1_closed_form (a b c : Q) :
  (0 < a)%Q -> (0 <= b)%Q -> (0 <= c)%Q ->
  (2 * (a / (a + b) * (a / (a + c))) / (a / (a + b) + a / (a + c))
   == 2 * a / (2 * a + b + c))%Q.
Proof.
  intros Ha Hb Hc.
  assert (Hp : (0 < a * (a + c) + a * (a + b))%Q).
  { apply Qlt_le_trans with (a * a)%Q; [by apply Qmult_lt_0_compat|].
    assert (0 <= a * c)%Q by (apply Qmult_le_0_compat; [by apply Qlt_le_weak | done]).
    assert (0 <= a * b)%Q by (apply Qmult_le_0_compat; [by apply Qlt_le_weak | done]).
    assert (0 <= a * a)%Q by (apply Qmult_le_0_compat; by apply Qlt_le_weak).
    assert (Heq : (a * (a + c) + a * (a + b)
                   == a * a + (a * a + a * c + a * b))%Q) by ring.
    rewrite Heq. Lqa.lra. }
  field. repeat split; intros H; Lqa.lra.
Qed.

Lemma Qdiv_pos (a d : Q) : (0 < a)%Q -> (0 < d)%Q -> (0 < a / d)%Q.
Proof. intros Ha Hd. apply Qlt_shift_div_l; [done|]. by rewrite Qmult_0_l. Qed.

(** The three quantities of lines 189 to 191, from counts that are not
    negative. *)
Lemma f1_of_counts (tp fp fn : Z) :
  0 <= tp -> 0 <= fp -> 0 <= fn ->
  let f := f1_of (precision_of tp fp) (recall_of tp fn) in
  (0 < tp ->
     (f == 2 * inject_Z tp / (2 * inject_Z tp + inject_Z fp + inject_Z fn))%Q) /\
  (tp = 0 -> f = 0%Q).
Proof.
  intros Htp Hfp Hfn f. split.
  - intros Hpos. subst f. unfold precision_of, recall_of.
    destruct (Z.ltb_spec 0 (tp + fp)) as [_|]; [|lia].
    destruct (Z.ltb_spec 0 (tp + fn)) as [_|]; [|lia].
    assert (Ha : (0 < inject_Z tp)%Q)
      by (change 0%Q with (inject_Z 0); by rewrite <- Zlt_Qlt).
    assert (Hb : (0 <= inject_Z fp)%Q)
      by (change 0%Q with (inject_Z 0); by rewrite <- Zle_Qle).
    assert (Hc : (0 <= inject_Z fn)%Q)
      by (change 0%Q with (inject_Z 0); by rewrite <- Zle_Qle).
    assert (H1 : (0 < inject_Z tp / inject_Z (tp + fp))%Q).
    { apply Qdiv_pos; [done|]. rewrite inject_Z_plus. Lqa.lra. }
    assert (H2 : (0 < inject_Z tp / inject_Z (tp + fn))%Q).
    { apply Qdiv_pos; [done|]. rewrite inject_Z_plus. Lqa.lra. }
    unfold f1_of.
    destruct (Qlt_le_dec 0 _) as [_|Hle]; [|exfalso; Lqa.lra].
    rewrite !inject_Z_plus. by apply Qf1_closed_form.
  - intros ->. subst f. unfold precision_of, recall_of, f1_of.
    assert (Hz : forall d : Z, (inject_Z 0 / inject_Z d == 0)%Q).
    { intros d. unfold Qdiv. apply Qmult_0_l. }
    rewrite !Z.add_0_l.
    destruct (Qlt_le_dec 0 _) as [Hlt|_]; [|done]. exfalso.
    destruct (0 <? fp), (0 <? fn); rewrite ?Hz in Hlt; Lqa.lra.
Qed.

Lemma confusion_count_nonneg (positive : bool) (z : Z) (rows : list perf_row) :
  0 <= confusion_count positive z rows.
Proof. unfold confusion_count. lia. Qed.

Lemma f1_score_counts (rows : list perf_row) (f : Q) :
  f1_score rows = Return f ->
  f = f1_of (precision_of (confusion_count true 1 rows) (confusion_count true 0 rows))
            (recall_of (confusion_count true 1 rows) (confusion_count false 1 rows)).
Proof.
  unfold f1_score. destruct (y_true_binary rows) as [truth|] eqn:Ht; [|done].
  rewrite (count_pairs_rows true 1 _ _ Ht), (count_pairs_rows true 0 _ _ Ht),
          (count_pairs_rows false 1 _ _ Ht).
  by intros [= <-].
Qed.

(** X15. The F1 the job stores is 2tp / (2tp + fp + fn) when there is a true
    positive and 0 when there is none; it lies between 0 and 1, and it is 1
    exactly when some row is a true positive and no row is a false
    positive or a false negative. *)
Theorem f1_closed_form_and_range (rows : list perf_row) (f : Q) :
  f1_score rows = Return f ->
  let tp := confusion_count true 1 rows in
  let fp := confusion_count true 0 rows in
  let fn := confusion_count false 1 rows in
  (0 < tp ->
     (f == 2 * inject_Z tp / (2 * inject_Z tp + inject_Z fp + inject_Z fn))%Q) /\
  (tp = 0 -> f = 0%Q) /\
  (0 <= f <= 1)%Q /\
  ((f == 1)%Q <-> 0 < tp /\ fp = 0 /\ fn = 0).
Proof.
  intros Hf tp fp fn. apply f1_score_counts in Hf. fold tp fp fn in Hf.
  pose proof (confusion_count_nonneg true 1 rows) as Htp.
  pose proof (confusion_count_nonneg true 0 rows) as Hfp.
  pose proof (confusion_count_nonneg false 1 rows) as Hfn.
  fold tp in Htp. fold fp in Hfp. fold fn in Hfn.
  destruct (f1_of_counts tp fp fn Htp Hfp Hfn) as (Hpos & Hzero).
  rewrite <- Hf in Hpos, Hzero.
  split; [exact Hpos|]. split; [exact Hzero|].
  assert (Hb : (0 <= inject_Z fp)%Q)
    by (change 0%Q with (inject_Z 0); by rewrite <- Zle_Qle).
  assert (Hc : (0 <= inject_Z fn)%Q)
    by (change 0%Q with (inject_Z 0); by rewrite <- Zle_Qle).
  destruct (Z.eq_dec tp 0) as [Hz|Hnz].
  - rewrite (Hzero Hz). split; [split; [apply Qle_refl | discriminate]|].
    split; [intros H; discriminate H | intros (Hlt & _); lia].
  - assert (Hlt : 0 < tp) by lia. specialize (Hpos Hlt).
    assert (Ha : (0 < inject_Z tp)%Q)
      by (change 0%Q with (inject_Z 0); by rewrite <- Zlt_Qlt).
    assert (Hd : (0 < 2 * inject_Z tp + inject_Z fp + inject_Z fn)%Q) by Lqa.lra.
    split; [split|].
    + rewrite Hpos. apply Qle_shift_div_l; [done|]. Lqa.lra.
    + rewrite Hpos. apply Qle_shift_div_r; [done|]. Lqa.lra.
    + rewrite Hpos. split.
      * intros H1. split; [done|].
        assert (Heq : (2 * inject_Z tp
                       == 1 * (2 * inject_Z tp + inject_Z fp + inject_Z fn))%Q).
        { rewrite <- H1. field. intros H0. rewrite H0 in Hd.
          by apply (Qlt_irrefl 0). }
        assert (Hsum : (inject_Z fp + inject_Z fn == 0)%Q) by Lqa.lra.
        assert (Hfp0 : (inject_Z fp == 0)%Q) by Lqa.lra.
        assert (Hfn0 : (inject_Z fn == 0)%Q) by Lqa.lra.
        unfold Qeq in Hfp0, Hfn0. cbn in Hfp0, Hfn0. lia.
      * intros (_ & -> & ->). field. intros H0.
        change (inject_Z 0) with 0%Q in Hd. Lqa.lra.
Qed.

(** ** When the performance section fails *)

Lemma y_true_binary_raises (rows : list perf_row) :
  (exists truth, y_true_binary rows = Return truth /\
                 Forall (fun r => r_y_true_num r <> None) rows) \/
  (y_true_binary rows = Raise ValueError /\
   Exists (fun r => r_y_true_num r = None) rows).
Proof.
  induction rows as [|r rows IH]; [left; by exists []|].
  cbn [y_true_binary]. destruct (r_y_true_num r) as [t|] eqn:Ht.
  - destruct IH as [(truth & -> & Hall)|(-> & Hex)].
    + left. eexists. split; [done|]. constructor; [by rewrite Ht | done].
    + right. split; [done|]. by apply Exists_cons_tl.
  - right. split; [done|]. by apply Exists_cons_hd.
Qed.

(** X16. The performance section raises in one case only: at least 200 joined
    rows, the first of them a classification, and a row without a true
    value, which the cast to integer refuses with [ValueError]. With fewer
    rows, for a regression, or with every true value present it returns. *)
Theorem performance_metrics_fails_iff (df_perf : list perf_row) (e : exn) :
  performance_metrics df_perf = Raise e <->
  e = ValueError /\
  200 <= Z.of_nat (length df_perf) /\
  (exists first, head df_perf = Some first /\
                 r_pred_type first = "classification"%string) /\
  Exists (fun r => r_y_true_num r = None) df_perf.
Proof.
  unfold performance_metrics.
  destruct df_perf as [|first rows].
  { split; [done|]. intros (_ & Hlen & _). cbn in Hlen. lia. }
  destruct (Z.leb_spec 200 (Z.of_nat (length (first :: rows)))) as [Hlen|Hlen].
  2:{ split; [done|]. intros (_ & Hl & _). lia. }
  destruct (String.eqb (r_pred_type first) "regression") eqn:Hreg.
  { split; [done|]. intros (_ & _ & (f0 & [= <-] & Hc) & _).
    apply String.eqb_eq in Hreg. rewrite Hc in Hreg. discriminate Hreg. }
  destruct (String.eqb (r_pred_type first) "classification") eqn:Hcls.
  2:{ split; [done|]. intros (_ & _ & (f0 & [= <-] & Hc) & _).
      apply String.eqb_neq in Hcls. done. }
  apply String.eqb_eq in Hcls.
  unfold f1_score.
  destruct (y_true_binary_raises (first :: rows)) as [(truth & Ht & Hall)|(Ht & Hex)];
    rewrite Ht.
  - split; [done|]. intros (_ & _ & _ & Hex). exfalso.
    apply Exists_exists in Hex as (r & Hin & Hnone).
    rewrite Forall_forall in Hall. by apply (Hall r Hin).
  - split.
    + intros [= <-]. split; [done|]. split; [done|]. split; [|done].
      by exists first.
    + by intros (-> & _).
Qed.

(** ** MAE *)

Lemma Qsum_abs_nonneg (l : list Q) :
  Forall (fun d => (0 <= d)%Q) l -> (0 <= foldr Qplus 0 l)%Q.
Proof.
  induction 1 as [|d l Hd Hl IH]; cbn [foldr]; [apply Qle_refl|]. Lqa.lra.
Qed.

(** X17. The mean absolute error is not a number exactly when no row has both
    a prediction and a true value; otherwise it is the mean over the rows
    that have both, and it is never negative. *)
Theorem mae_defined_and_nonnegative (rows : list perf_row) :
  (mae_score rows = None <->
   Forall (fun r => r_y_true_num r = None \/ r_y_pred_num r = None) rows) /\
  (forall m, mae_score rows = Some m -> (0 <= m)%Q).
Proof.
  unfold mae_score.
  set (g := fun r => match r_y_true_num r, r_y_pred_num r with
                     | Some t, Some p => Some (Qabs (t - p))
                     | _, _ => None
                     end).
  assert (Hnn : Forall (fun d => (0 <= d)%Q) (omap g rows)).
  { apply Forall_forall. intros d Hd. apply list_elem_of_omap in Hd as (r & _ & Hr).
    unfold g in Hr. destruct (r_y_true_num r) as [t|], (r_y_pred_num r) as [p|];
      try done.
    replace d with (Qabs (t - p)) by congruence. apply Qabs_nonneg. }
  assert (Hnil : omap g rows = [] <->
                 Forall (fun r => r_y_true_num r = None \/ r_y_pred_num r = None) rows).
  { induction rows as [|r rows IH]; [by split|].
    assert (IH' := IH). clear IH.
    change (omap g (r :: rows)) with
      (match g r with Some d => d :: omap g rows | None => omap g rows end).
    unfold g at 1. destruct (r_y_true_num r) as [t|] eqn:Ht;
      [destruct (r_y_pred_num r) as [p|] eqn:Hp|].
    - split; [done|]. intros Hall. apply Forall_cons in Hall as ([H|H] & _);
        congruence.
    - rewrite IH'.
      + split; [intros H; constructor; [by right | done]
               | intros H; by apply Forall_cons in H as (_ & H)].
      + apply Forall_forall. intros d Hd. rewrite Forall_forall in Hnn.
        apply Hnn. change (omap g (r :: rows)) with
          (match g r with Some d => d :: omap g rows | None => omap g rows end).
        unfold g at 1. by rewrite Ht, Hp.
    - rewrite IH'.
      + split; [intros H; constructor; [by left | done]
               | intros H; by apply Forall_cons in H as (_ & H)].
      + apply Forall_forall. intros d Hd. rewrite Forall_forall in Hnn.
        apply Hnn. change (omap g (r :: rows)) with
          (match g r with Some d => d :: omap g rows | None => omap g rows end).
        unfold g at 1. by rewrite Ht. }
  split.
  - rewrite <- Hnil. by destruct (omap g rows).
  - intros m. destruct (omap g rows) as [|d l] eqn:Hl; [done|].
    intros [= <-]. apply Qle_shift_div_l.
    + change 0%Q with (inject_Z 0). rewrite <- Zlt_Qlt. cbn [length]. lia.
    + rewrite Qmult_0_l. by apply (Qsum_abs_nonneg (d :: l)).
Qed.

(** * The sanitizer and the constructor *)

Lemma sanitize_idempotent (v : pyval) : sanitize (sanitize v) = sanitize v.
Proof.
  destruct v as [| | |f| | |]; try reflexivity.
  cbn [sanitize]. destruct (math_isnan f || math_isinf f) eqn:Hf; [reflexivity|].
  cbn [sanitize]. by rewrite Hf.
Qed.

Lemma sanitize_map_idempotent (m : gmap string pyval) :
  sanitize <$> (sanitize <$> m) = sanitize <$> m.
Proof.
  apply map_eq. intros k. rewrite !lookup_fmap.
  destruct (m !! k) as [v|]; [|done]. cbn. by rewrite sanitize_idempotent.
Qed.

(** X18. Building the event of a call keeps every key of the two maps (a NaN
    becomes an entry holding [None], it is not removed), and building it
    again from the maps and the prediction it already holds changes
    nothing: sanitizing is idempotent. *)
Theorem make_event_keeps_keys_and_is_idempotent (a : call) :
  let e := make_event a in
  let again :=
    make_event (Call (model_id e) (model_version e) (ts e) (pred_type e)
                     (y_pred_num e) (y_pred_text e) (latency_ms e)
                     (features_json e) (segment_json e) (request_id e)) in
  dom (features_json e) = dom (a_features_json a) /\
  dom (segment_json e) = dom (a_segment_json a) /\
  again = e.
Proof.
  intros e again. split; [apply dom_fmap_L|]. split; [apply dom_fmap_L|].
  subst again e. unfold make_event. cbn.
  by rewrite sanitize_idempotent, !sanitize_map_idempotent.
Qed.

(** X19. The two numeric settings stand or fall together: when both parse the
    client uses them, and when either of them does not parse both go back
    to their defaults, 50 events and 5 seconds, the one that did parse
    included. Either way the client starts with an empty buffer and its
    three counters at zero. *)
Theorem init_numeric_settings (py_int : string -> option Z)
    (env : gmap string string) (now : Q) :
  let st := init py_int env now in
  let bs := getenv_int py_int env "DRIFTWATCH_BATCH_SIZE" DEFAULT_BATCH_SIZE in
  let fs := getenv_int py_int env "DRIFTWATCH_FLUSH_SECONDS" DEFAULT_FLUSH_SECONDS in
  (forall b f, bs = Some b -> fs = Some f ->
     batch_size st = b /\ flush_seconds st = f) /\
  (bs = None \/ fs = None -> batch_size st = 50 /\ flush_seconds st = 5) /\
  (env !! "DRIFTWATCH_BATCH_SIZE" = None -> env !! "DRIFTWATCH_FLUSH_SECONDS" = None ->
     batch_size st = 50 /\ flush_seconds st = 5) /\
  items (buffer st) = [] /\ last_flush_time st = now /\
  dropped_events st = 0 /\ flush_failures st = 0 /\ insert_success st = 0.
Proof.
  intros st bs fs. subst st. unfold init. fold bs fs.
  split; [|split; [|split]].
  - intros b f -> ->. done.
  - intros [->| ->]; [done|]. by destruct bs.
  - intros Hb Hf. subst bs fs. unfold getenv_int, getenv. by rewrite Hb, Hf.
  - by destruct bs as [b|]; [destruct fs as [f|]|].
Qed.

(** X20. The client is enabled exactly when DRIFTWATCH_ENABLED is absent or
    reads [true] in any letter case, and the connection string is present
    and not empty. *)
Theorem init_enabled_iff (py_int : string -> option Z)
    (env : gmap string string) (now : Q) :
  enabled (init py_int env now) = true <->
  lower (default "true"%string (env !! "DRIFTWATCH_ENABLED")) = "true"%string /\
  (exists s : string, env !! "DRIFTWATCH_DATABASE_URL" = Some s /\ s <> EmptyString).
Proof.
  unfold init, getenv.
  set (flag := String.eqb _ "true").
  assert (Hflag : flag = true <->
            lower (default "true"%string (env !! "DRIFTWATCH_ENABLED")) = "true"%string)
    by apply String.eqb_eq.
  assert (Hdsn : dsn_present (env !! "DRIFTWATCH_DATABASE_URL") = true <->
            exists s : string, env !! "DRIFTWATCH_DATABASE_URL" = Some s /\ s <> EmptyString).
  { destruct (env !! "DRIFTWATCH_DATABASE_URL") as [[|c s]|]; cbn.
    - split; [done|]. by intros (s & [= <-] & H).
    - split; [|done]. intros _. by eexists.
    - split; [done|]. by intros (s & H & _). }
  rewrite <- Hflag, <- Hdsn.
  case_parsed_config; cbn [enabled];
    destruct flag, (dsn_present (env !! "DRIFTWATCH_DATABASE_URL")); cbn;
    split; try done; by intros [].
Qed.

(** * Latency quantiles *)

From Stdlib Require Import Sorted.

Lemma insert_sorted_Forall (P : Q -> Prop) (v : Q) (l : list Q) :
  P v -> Forall P l -> Forall P (insert_sorted v l).
Proof.
  intros Hv Hl. induction Hl as [|x l Hx Hl IH]; cbn [insert_sorted].
  - by constructor.
  - destruct (Qle_bool v x); repeat constructor; done.
Qed.

Lemma insert_sorted_sorted (v : Q) (l : list Q) :
  StronglySorted Qle l -> StronglySorted Qle (insert_sorted v l).
Proof.
  induction 1 as [|x l Hs IH Hall]; cbn [insert_sorted].
  - repeat constructor.
  - destruct (Qle_bool v x) eqn:Hvx.
    + apply Qle_bool_iff in Hvx. constructor; [by constructor|].
      constructor; [done|]. eapply Forall_impl; [exact Hall|].
      intros y Hy. by apply Qle_trans with x.
    + constructor; [exact IH|]. apply insert_sorted_Forall; [|done].
      destruct (Qlt_le_dec x v) as [Hlt|Hle]; [by apply Qlt_le_weak|].
      apply Qle_bool_iff in Hle. congruence.
Qed.

Lemma sort_values_sorted (l : list Q) : StronglySorted Qle (sort_values l).
Proof.
  induction l as [|v l IH]; [constructor|]. by apply insert_sorted_sorted.
Qed.

Lemma insert_sorted_length (v : Q) (l : list Q) :
  length (insert_sorted v l) = S (length l).
Proof.
  induction l as [|x l IH]; [done|]. cbn [insert_sorted].
  destruct (Qle_bool v x); cbn [length]; [done | by rewrite IH].
Qed.

Lemma sort_values_length (l : list Q) : length (sort_values l) = length l.
Proof.
  induction l as [|v l IH]; [done|].
  cbn [sort_values foldr]. fold (sort_values l).
  by rewrite insert_sorted_length, IH.
Qed.

Lemma sorted_nth_le (l : list Q) :
  StronglySorted Qle l ->
  forall i j : nat, (i <= j)%nat -> (j < length l)%nat ->
    (nth i l 0 <= nth j l 0)%Q.
Proof.
  induction 1 as [|x l Hs IH Hall]; intros i j Hij Hj; [cbn in Hj; lia|].
  destruct j as [|j].
  - replace i with 0%nat by lia. apply Qle_refl.
  - destruct i as [|i].
    + cbn [nth]. rewrite Forall_forall in Hall. apply Hall.
      apply list_elem_of_In, nth_In. cbn in Hj. lia.
    + cbn [nth]. apply IH; [lia | cbn in Hj; lia].
Qed.

(** The anatomy of one interpolated quantile of a sorted sample: the rank
    [i] it starts from is inside the sample, and the value lies between
    the element of rank [i] and the next one (or is the last element). *)
Lemma quantile_anatomy (l : list Q) (p : Q) :
  StronglySorted Qle l -> l <> [] -> (0 <= p <= 1)%Q ->
  let h := (inject_Z (Z.of_nat (length l) - 1) * p)%Q in
  let i := Z.to_nat (Qfloor h) in
  let lo := nth i l 0%Q in
  let hi := nth (S i) l lo in
  (i < length l)%nat /\
  Z.of_nat i = Qfloor h /\
  (0 <= h - inject_Z (Qfloor h) <= 1)%Q /\
  (lo <= hi)%Q /\
  ((S i < length l)%nat -> hi = nth (S i) l 0%Q) /\
  quantile l p = (lo + (h - inject_Z (Qfloor h)) * (hi - lo))%Q /\
  (lo <= quantile l p <= hi)%Q.
Proof.
  intros Hs Hne (Hp0 & Hp1) h i lo hi.
  assert (Hn : (0 < length l)%nat) by (destruct l; [done | cbn; lia]).
  assert (Hn1 : (0 <= inject_Z (Z.of_nat (length l) - 1))%Q).
  { change 0%Q with (inject_Z 0). rewrite <- Zle_Qle. lia. }
  assert (Hh0 : (0 <= h)%Q) by (subst h; by apply Qmult_le_0_compat).
  assert (Hh1 : (h <= inject_Z (Z.of_nat (length l) - 1))%Q).
  { subst h. rewrite <- (Qmult_1_r (inject_Z (Z.of_nat (length l) - 1))) at 2.
    rewrite !(Qmult_comm (inject_Z _)). by apply Qmult_le_compat_r. }
  assert (Hf0 : 0 <= Qfloor h).
  { change 0 with (Qfloor 0). by apply Qfloor_resp_le. }
  assert (Hf1 : Qfloor h <= Z.of_nat (length l) - 1).
  { rewrite <- (Qfloor_Z (Z.of_nat (length l) - 1)). by apply Qfloor_resp_le. }
  assert (Hi : Z.of_nat i = Qfloor h) by (subst i; lia).
  assert (Hil : (i < length l)%nat) by lia.
  assert (Hfr0 : (0 <= h - inject_Z (Qfloor h))%Q).
  { pose proof (Qfloor_le h). Lqa.lra. }
  assert (Hfr1 : (h - inject_Z (Qfloor h) <= 1)%Q).
  { pose proof (Qlt_floor h) as Hlt. rewrite inject_Z_plus in Hlt.
    change (inject_Z 1) with 1%Q in Hlt. Lqa.lra. }
  assert (Hnext : (S i < length l)%nat -> hi = nth (S i) l 0%Q).
  { intros Hlt. subst hi. by apply nth_indep. }
  assert (Hlohi : (lo <= hi)%Q).
  { destruct (Nat.lt_ge_cases (S i) (length l)) as [Hlt|Hge].
    - rewrite (Hnext Hlt). subst lo. apply sorted_nth_le; [done | lia | done].
    - subst hi. rewrite nth_overflow by lia. apply Qle_refl. }
  assert (Hq : quantile l p = (lo + (h - inject_Z (Qfloor h)) * (hi - lo))%Q)
    by reflexivity.
  split; [done|]. split; [done|]. split; [done|]. split; [done|].
  split; [done|]. split; [done|]. rewrite Hq.
  set (fr := (h - inject_Z (Qfloor h))%Q) in *.
  assert (Hd : (0 <= hi - lo)%Q) by Lqa.lra.
  assert (Hprod0 : (0 <= fr * (hi - lo))%Q) by by apply Qmult_le_0_compat.
  assert (Hprod1 : (0 <= (1 - fr) * (hi - lo))%Q)
    by (apply Qmult_le_0_compat; [Lqa.lra | done]).
  assert (Hexp : ((1 - fr) * (hi - lo) == (hi - lo) - fr * (hi - lo))%Q) by ring.
  rewrite Hexp in Hprod1. split; Lqa.lra.
Qed.

(** The interpolated quantile of a sorted sample grows with the level. *)
Lemma quantile_monotone (l : list Q) (p p' : Q) :
  StronglySorted Qle l -> l <> [] ->
  (0 <= p)%Q -> (p <= p')%Q -> (p' <= 1)%Q ->
  (quantile l p <= quantile l p')%Q.
Proof.
  intros Hs Hne Hp0 Hpp Hp1.
  assert (Hpb : (0 <= p <= 1)%Q) by (split; [done | by apply Qle_trans with p']).
  assert (Hpb' : (0 <= p' <= 1)%Q) by (split; [by apply Qle_trans with p | done]).
  destruct (quantile_anatomy l p Hs Hne Hpb)
    as (Hil & Hi & (Hfr0 & Hfr1) & Hlohi & Hnext & Hq & (Hql & Hqh)).
  destruct (quantile_anatomy l p' Hs Hne Hpb')
    as (Hil' & Hi' & (Hfr0' & Hfr1') & Hlohi' & Hnext' & Hq' & (Hql' & Hqh')).
  set (h := (inject_Z (Z.of_nat (length l) - 1) * p)%Q) in *.
  set (h' := (inject_Z (Z.of_nat (length l) - 1) * p')%Q) in *.
  assert (Hn1 : (0 <= inject_Z (Z.of_nat (length l) - 1))%Q).
  { change 0%Q with (inject_Z 0). rewrite <- Zle_Qle.
    destruct l; [done | cbn [length]; lia]. }
  assert (Hhh : (h <= h')%Q).
  { subst h h'. rewrite !(Qmult_comm (inject_Z _)). by apply Qmult_le_compat_r. }
  assert (Hff : Qfloor h <= Qfloor h') by by apply Qfloor_resp_le.
  destruct (Z.eq_dec (Qfloor h) (Qfloor h')) as [Heq|Hneq].
  - rewrite Hq, Hq'. rewrite <- Heq in *.
    set (i := Z.to_nat (Qfloor h)) in *.
    set (lo := nth i l 0%Q) in *. set (hi := nth (S i) l lo) in *.
    assert (Hd : (0 <= hi - lo)%Q) by Lqa.lra.
    assert (Hprod : (0 <= (h' - h) * (hi - lo))%Q)
      by (apply Qmult_le_0_compat; [Lqa.lra | done]).
    assert (Hexp : ((h' - h) * (hi - lo)
                    == (h' - inject_Z (Qfloor h)) * (hi - lo)
                       - (h - inject_Z (Qfloor h)) * (hi - lo))%Q) by ring.
    rewrite Hexp in Hprod. Lqa.lra.
  - assert (Hlt : (S (Z.to_nat (Qfloor h)) <= Z.to_nat (Qfloor h'))%nat) by lia.
    apply Qle_trans with (nth (S (Z.to_nat (Qfloor h))) l 0%Q).
    + rewrite <- Hnext by lia. exact Hqh.
    + apply Qle_trans with (nth (Z.to_nat (Qfloor h')) l 0%Q); [|exact Hql'].
      apply sorted_nth_le; [done | lia | done].
Qed.

Lemma present_latencies_nonneg (lat : list (option Z)) :
  Forall (fun o => forall z, o = Some z -> 0 <= z) lat ->
  Forall (fun q => (0 <= q)%Q) (present_latencies lat).
Proof.
  intros Hall. apply Forall_forall. intros q Hq.
  apply list_elem_of_omap in Hq as (o & Ho & Hoq).
  rewrite Forall_forall in Hall. destruct o as [z|]; [|done].
  injection Hoq as <-. change 0%Q with (inject_Z 0). rewrite <- Zle_Qle.
  by apply (Hall _ Ho).
Qed.

Lemma sort_values_Forall (P : Q -> Prop) (l : list Q) :
  Forall P l -> Forall P (sort_values l).
Proof.
  induction 1 as [|v l Hv Hl IH]; [constructor|].
  by apply insert_sorted_Forall.
Qed.

Lemma Forall_nth_default (P : Q -> Prop) (l : list Q) (d : Q) (i : nat) :
  Forall P l -> P d -> P (nth i l d).
Proof.
  intros Hl Hd. revert i. induction Hl as [|x l Hx Hl IH]; intros [|i]; cbn; auto.
Qed.

Lemma latency_quantile_le (lat : list (option Z)) :
  (latency_quantile lat (1 # 2) <= latency_quantile lat (95 # 100))%Q.
Proof.
  unfold latency_quantile.
  destruct (present_latencies lat) as [|q l] eqn:Hp; [apply Qle_refl|].
  assert (Hne : sort_values (q :: l) <> []).
  { intros H. apply (f_equal length) in H. rewrite sort_values_length in H.
    discriminate H. }
  pose proof (sort_values_sorted (q :: l)) as Hs.
  apply quantile_monotone; try done.
Qed.

(** X21. The stored median never exceeds the stored 95th percentile; both are
    0 when every latency of the day is missing, and neither is negative
    when no latency is. *)
Theorem latency_p50_at_most_p95 (lat : list (option Z)) :
  (latency_quantile lat (1 # 2) <= latency_quantile lat (95 # 100))%Q /\
  (Forall (fun o => o = None) lat ->
     latency_quantile lat (1 # 2) = 0%Q /\ latency_quantile lat (95 # 100) = 0%Q) /\
  (Forall (fun o => forall z, o = Some z -> 0 <= z) lat ->
     (0 <= latency_quantile lat (1 # 2))%Q).
Proof.
  unfold latency_quantile.
  destruct (present_latencies lat) as [|q l] eqn:Hp.
  { split; [apply Qle_refl|]. split; [done|]. intros _. apply Qle_refl. }
  assert (Hne : sort_values (q :: l) <> []).
  { intros H. apply (f_equal length) in H. rewrite sort_values_length in H.
    discriminate H. }
  pose proof (sort_values_sorted (q :: l)) as Hs.
  split; [|split].
  - apply quantile_monotone; try done.
  - intros Hall. exfalso.
    assert (Hin : q ∈ present_latencies lat) by (rewrite Hp; left).
    apply list_elem_of_omap in Hin as (o & Ho & Hoq).
    rewrite Forall_forall in Hall. by rewrite (Hall o Ho) in Hoq.
  - intros Hall. apply present_latencies_nonneg in Hall. rewrite Hp in Hall.
    apply sort_values_Forall in Hall.
    destruct (quantile_anatomy (sort_values (q :: l)) (1 # 2) Hs Hne)
      as (_ & _ & _ & _ & _ & _ & (Hlo & _)); [done|].
    eapply Qle_trans; [|exact Hlo].
    apply (Forall_nth_default (fun x => (0 <= x)%Q)); [done | apply Qle_refl].
Qed.

(** * The feature whitelist *)

Lemma rstrip_cons (c : ascii) (s : string) :
  rstrip (String c s) =
    match rstrip s with
    | EmptyString => if is_space c then EmptyString else String c EmptyString
    | String _ _ as r => String c r
    end.
Proof. reflexivity. Qed.

Lemma rstrip_idempotent (s : string) : rstrip (rstrip s) = rstrip s.
Proof.
  induction s as [|c s IH]; [done|]. rewrite rstrip_cons.
  destruct (rstrip s) as [|c' r] eqn:Hr.
  - destruct (is_space c) eqn:Hc; [done|]. cbn [rstrip]. by rewrite Hc.
  - rewrite rstrip_cons, IH. done.
Qed.

Lemma lstrip_starts_clean (s : string) : starts_clean (lstrip s).
Proof.
  induction s as [|c s IH]; [done|]. cbn [lstrip].
  destruct (is_space c) eqn:Hc; [exact IH | exact Hc].
Qed.

Lemma rstrip_starts_clean (s : string) : starts_clean s -> starts_clean (rstrip s).
Proof.
  destruct s as [|c s]; [done|]. rewrite rstrip_cons. cbn [starts_clean]. intros Hc.
  destruct (rstrip s); by rewrite ?Hc.
Qed.

Lemma lstrip_clean (s : string) : starts_clean s -> lstrip s = s.
Proof. destruct s as [|c s]; [done|]. cbn. by intros ->. Qed.

Lemma strip_idempotent (s : string) : strip (strip s) = strip s.
Proof.
  unfold strip.
  rewrite (lstrip_clean (rstrip (lstrip s)))
    by apply rstrip_starts_clean, lstrip_starts_clean.
  apply rstrip_idempotent.
Qed.

Lemma split_on_clean (sep : ascii) (s : string) :
  occurs sep s = false -> split_on sep s = [s].
Proof.
  induction s as [|c s IH]; [done|]. cbn [occurs split_on].
  intros H. apply orb_false_iff in H as (Hc & Hs). by rewrite Hc, (IH Hs).
Qed.

Lemma split_on_append (sep : ascii) (s rest : string) :
  occurs sep s = false ->
  split_on sep (s ++ String sep rest) = s :: split_on sep rest.
Proof.
  induction s as [|c s IH]; simpl.
  - intros _. by rewrite Ascii.eqb_refl.
  - intros H. apply orb_false_iff in H as (Hc & Hs). by rewrite Hc, (IH Hs).
Qed.

Lemma split_on_concat (sep : ascii) (names : list string) :
  names <> [] ->
  Forall (fun n => occurs sep n = false) names ->
  split_on sep (String.concat (String sep EmptyString) names) = names.
Proof.
  intros Hne Hall. induction Hall as [|n names Hn Hall IH]; [done|].
  destruct names as [|n' names].
  - cbn [String.concat]. by apply split_on_clean.
  - cbn [String.concat]. cbn [String.concat] in IH.
    change (n ++ String sep EmptyString ++ ?t)%string with (n ++ String sep t)%string.
    rewrite split_on_append by done. by rewrite IH.
Qed.

Lemma occurs_lstrip (c : ascii) (s : string) :
  occurs c s = false -> occurs c (lstrip s) = false.
Proof.
  induction s as [|c' s IH]; [done|]. cbn [lstrip]. intros H.
  destruct (is_space c'); [|exact H].
  cbn [occurs] in H. apply orb_false_iff in H as (_ & Hs). by apply IH.
Qed.

Lemma occurs_rstrip (c : ascii) (s : string) :
  occurs c s = false -> occurs c (rstrip s) = false.
Proof.
  induction s as [|c' s IH]; [done|]. rewrite rstrip_cons. cbn [occurs]. intros H.
  apply orb_false_iff in H as (Hc & Hs). specialize (IH Hs).
  destruct (rstrip s) as [|c'' r].
  - destruct (is_space c'); [done|]. cbn [occurs]. by rewrite Hc.
  - cbn [occurs] in *. by rewrite Hc, IH.
Qed.

Lemma split_on_pieces (sep : ascii) (s : string) :
  Forall (fun piece => occurs sep piece = false) (split_on sep s).
Proof.
  induction s as [|c s IH]; [by repeat constructor|]. cbn [split_on].
  destruct (Ascii.eqb c sep) eqn:Hc; [by constructor|].
  destruct (split_on sep s) as [|piece pieces].
  - repeat constructor. cbn [occurs]. by rewrite Hc.
  - apply Forall_cons in IH as (Hp & Hps). constructor; [|done].
    cbn [occurs]. by rewrite Hc, Hp.
Qed.

Lemma nonempty_true (s : string) : nonempty s = true <-> s <> EmptyString.
Proof. by destruct s. Qed.

(** X22. The names the job takes from MODEL_DRIFT_FEATURES are never empty,
    never start or end with white space and never hold a comma; a variable
    that is absent or empty gives no name at all, and then the job falls
    back on every column of the current day. *)
Theorem whitelist_names_are_clean (env : gmap string string) :
  Forall (fun f => f <> EmptyString /\ strip f = f /\ occurs "," f = false)
         (drift_feats_config (DRIFT_Features env)) /\
  (default EmptyString (env !! "MODEL_DRIFT_FEATURES") = EmptyString ->
   drift_feats_config (DRIFT_Features env) = []).
Proof.
  split.
  - unfold drift_feats_config, DRIFT_Features.
    apply Forall_forall. intros f Hf.
    apply list_elem_of_fmap in Hf as (piece & -> & Hin).
    apply list_elem_of_filter in Hin as (Hne & Hin).
    pose proof (split_on_pieces "," (default EmptyString (getenv env "MODEL_DRIFT_FEATURES")))
      as Hall.
    rewrite Forall_forall in Hall.
    split; [by apply nonempty_true|]. split; [apply strip_idempotent|].
    unfold strip. by apply occurs_rstrip, occurs_lstrip, Hall.
  - unfold DRIFT_Features, getenv. by intros ->.
Qed.

(** X23. Reading back a list that was written with commas: names that are not
    empty, hold no comma and have no white space at either end come out of
    MODEL_DRIFT_FEATURES as they went in, in the same order. *)
Theorem whitelist_round_trip (env : gmap string string) (names : list string) :
  env !! "MODEL_DRIFT_FEATURES" = Some (String.concat "," names) ->
  Forall (fun n => n <> EmptyString /\ strip n = n /\ occurs "," n = false) names ->
  drift_feats_config (DRIFT_Features env) = names.
Proof.
  intros Henv Hall. unfold DRIFT_Features, getenv. rewrite Henv.
  change (default EmptyString (Some ?x)) with x.
  destruct names as [|n names]; [done|].
  rewrite split_on_concat; [|done|].
  2:{ eapply Forall_impl; [exact Hall|]. by intros x (_ & _ & H). }
  unfold drift_feats_config.
  assert (Hfilter : filter (fun f => nonempty (strip f) = true) (n :: names)
                    = n :: names).
  { clear Henv. induction Hall as [|x l (Hx & Hs & _) Hl IH]; [done|].
    rewrite filter_cons, Hs. rewrite decide_True by by apply nonempty_true.
    by rewrite IH. }
  rewrite Hfilter. clear Henv Hfilter.
  induction Hall as [|x l (_ & Hs & _) Hl IH]; [done|].
  cbn [map]. by rewrite Hs, IH.
Qed.

(** * The metrics of one model, version and day *)

Section JobProperties.

Variable qcut : list Q -> Z -> result (list edge).
Variable columns : list (gmap string pyval) -> list string.
Variable numeric_column : list (gmap string pyval) -> string -> option (list Q).

Lemma psi_name_prefix (f : string) :
  String.prefix "psi__" ("psi__" ++ f)%string = true.
Proof.
  cbv [String.append String.prefix].
  repeat (destruct (ascii_dec _ _) as [_|H]; [|by destruct H]).
  by destruct f.
Qed.

(** The PSI metrics are named after candidates, in the order of the
    candidates, each one a column of both frames. *)
Lemma drift_metrics_names (candidates : list string)
    (cur base : list (gmap string pyval)) (l : list (string * metric_value)) :
  drift_metrics qcut columns numeric_column candidates cur base = Return l ->
  exists chosen : list string,
    chosen `sublist_of` candidates /\
    map fst l = map (String.append "psi__") chosen /\
    Forall (fun f => f ∈ columns cur /\ f ∈ columns base /\
                     is_Some (numeric_column cur f) /\
                     is_Some (numeric_column base f)) chosen.
Proof.
  revert l. induction candidates as [|feat rest IH]; intros l; cbn [drift_metrics].
  - intros [= <-]. exists []. by repeat split.
  - assert (Hskip : drift_metrics qcut columns numeric_column rest cur base = Return l ->
              exists chosen : list string,
                chosen `sublist_of` feat :: rest /\
                map fst l = map (String.append "psi__") chosen /\
                Forall (fun f => f ∈ columns cur /\ f ∈ columns base /\
                                 is_Some (numeric_column cur f) /\
                                 is_Some (numeric_column base f)) chosen).
    { intros H. destruct (IH l H) as (chosen & Hs & Hn & Hc).
      exists chosen. split; [by apply sublist_cons|done]. }
    destruct (bool_decide_reflect (feat ∈ columns cur)) as [Hcur|]; [|exact Hskip].
    destruct (bool_decide_reflect (feat ∈ columns base)) as [Hbase|]; [|exact Hskip].
    cbn [andb].
    destruct (numeric_column cur feat) as [c|] eqn:Hc; [|exact Hskip].
    destruct (numeric_column base feat) as [b|] eqn:Hb; [|exact Hskip].
    destruct (compute_psi qcut b c 10) as [psi|]; [|done].
    destruct (drift_metrics qcut columns numeric_column rest cur base) as [l'|];
      [|done].
    intros [= <-]. destruct (IH l' eq_refl) as (chosen & Hs & Hn & Hall).
    exists (feat :: chosen). split; [by apply sublist_skip|].
    split; [cbn [map fst]; by rewrite Hn|].
    constructor; [|done]. rewrite Hc, Hb. by repeat split.
Qed.

Lemma performance_metrics_names (df_perf : list perf_row)
    (l : list (string * option Q)) :
  performance_metrics df_perf = Return l ->
  map fst l = [] \/ map fst l = ["mae"%string] \/ map fst l = ["f1"%string].
Proof.
  unfold performance_metrics. destruct df_perf as [|first rows]; [intros [= <-]; by left|].
  destruct (200 <=? _); [|intros [= <-]; by left].
  destruct (String.eqb _ "regression"); [intros [= <-]; right; by left|].
  destruct (String.eqb _ "classification"); [|intros [= <-]; by left].
  destruct (f1_score _); [|done]. intros [= <-]. right. by right.
Qed.

(** X24. Without rows for the day the job computes and stores nothing, whatever
    the other queries return. With rows, what it stores starts with the
    number of rows, the median latency and the 95th percentile, in that
    order, the median not above the percentile; every metric after them is
    a PSI or the one performance metric. *)
Theorem job_metrics_shape (features : list string)
    (df_current : list current_row) (df_baseline : list (gmap string pyval))
    (df_perf : list perf_row) (l : list (string * metric_value)) :
  process_model_metrics qcut columns numeric_column features
    df_current df_baseline df_perf = Return l ->
  (df_current = [] -> l = []) /\
  (df_current <> [] ->
   exists (p50 p95 : Q) (rest : list (string * metric_value)),
     l = ("count_inferences"%string,
          Rational (inject_Z (Z.of_nat (length df_current))))
         :: ("p50_latency_ms"%string, Rational p50)
         :: ("p95_latency_ms"%string, Rational p95) :: rest /\
     (p50 <= p95)%Q /\
     Forall (fun m => String.prefix "psi__" m.1 = true \/
                      m.1 = "mae"%string \/ m.1 = "f1"%string) rest).
Proof.
  unfold process_model_metrics. destruct df_current as [|row rows].
  { intros [= <-]. split; [done|]. by intros []. }
  set (dc := row :: rows).
  destruct (if _ : bool then _ else _) as [drift_l|] eqn:Hd; [|done].
  destruct (performance_metrics df_perf) as [perf_l|] eqn:Hp; [|done].
  intros [= <-]. split; [done|]. intros _.
  exists (latency_quantile (map c_latency_ms dc) (1 # 2)),
         (latency_quantile (map c_latency_ms dc) (95 # 100)),
         (drift_l ++ map (fun m => (m.1, of_float m.2)) perf_l).
  split; [cbn [reliability_metrics map app fst snd of_float]; by rewrite length_map|].
  split; [apply latency_quantile_le|].
  apply Forall_app. split.
  - assert (Hnames : exists chosen, map fst drift_l = map (String.append "psi__") chosen).
    { destruct (_ || _) in Hd; [injection Hd as <-; by exists []|].
      apply drift_metrics_names in Hd as (chosen & _ & Hn & _). by exists chosen. }
    destruct Hnames as (chosen & Hn).
    apply Forall_forall. intros m Hm. left.
    assert (Hin : m.1 ∈ map fst drift_l) by (apply list_elem_of_fmap; by exists m).
    rewrite Hn in Hin. apply list_elem_of_fmap in Hin as (f & -> & _). apply psi_name_prefix.
  - apply performance_metrics_names in Hp.
    apply Forall_forall. intros m Hm.
    apply list_elem_of_fmap in Hm as ([name v] & -> & Hin). cbn [fst].
    assert (Hname : name ∈ map fst perf_l) by (apply list_elem_of_fmap; by exists (name, v)).
    destruct Hp as [Hp|[Hp|Hp]]; rewrite Hp in Hname.
    + by apply elem_of_nil in Hname.
    + apply list_elem_of_singleton in Hname. right. by left.
    + apply list_elem_of_singleton in Hname. right. by right.
Qed.

(** X25. With fewer than 200 rows in the baseline window or in the current day
    the job stores no PSI and does not bin anything: its result does not
    depend on [pd.qcut], so no failure of the binning can reach it. *)
Theorem drift_needs_200_rows (features : list string)
    (df_current : list current_row) (df_baseline : list (gmap string pyval))
    (df_perf : list perf_row)
    (qcut' : list Q -> Z -> result (list edge)) :
  Z.of_nat (length df_baseline) < 200 \/ Z.of_nat (length df_current) < 200 ->
  process_model_metrics qcut columns numeric_column features
    df_current df_baseline df_perf
  = process_model_metrics qcut' columns numeric_column features
      df_current df_baseline df_perf /\
  (forall l,
     process_model_metrics qcut columns numeric_column features
       df_current df_baseline df_perf = Return l ->
     Forall (fun m => String.prefix "psi__" m.1 = false) l).
Proof.
  intros Hfew. unfold process_model_metrics.
  destruct df_current as [|row rows]; [split; [done|]; by intros l [= <-]|].
  assert (Hgate : (Z.of_nat (length df_baseline) <? 200)
                  || (Z.of_nat (length (row :: rows)) <? 200) = true).
  { apply orb_true_iff. destruct Hfew as [H|H]; [left | right]; by apply Z.ltb_lt. }
  rewrite Hgate. split; [done|].
  intros l. destruct (performance_metrics df_perf) as [perf_l|] eqn:Hp; [|done].
  intros [= <-]. cbn [app].
  apply performance_metrics_names in Hp.
  cbn [reliability_metrics map app fst snd of_float].
  do 3 (constructor; [reflexivity|]).
  apply Forall_forall. intros m Hm.
  apply list_elem_of_fmap in Hm as ([name v] & -> & Hin). cbn [fst].
  assert (Hname : name ∈ map fst perf_l) by (apply list_elem_of_fmap; by exists (name, v)).
  destruct Hp as [Hp|[Hp|Hp]]; rewrite Hp in Hname.
  - by apply elem_of_nil in Hname.
  - apply list_elem_of_singleton in Hname. by subst name.
  - apply list_elem_of_singleton in Hname. by subst name.
Qed.

Lemma psi_name_injective (a b : string) :
  ("psi__" ++ a)%string = ("psi__" ++ b)%string -> a = b.
Proof. cbv [String.append]. by intros [= ->]. Qed.

(** X26. The metric names of one run are pairwise distinct, as the single
    upsert statement needs them to be, provided the candidate features
    are: the names of the whitelist when there is one, the columns of the
    current day otherwise. *)
Theorem metric_names_are_distinct (features : list string)
    (df_current : list current_row) (df_baseline : list (gmap string pyval))
    (df_perf : list perf_row) (l : list (string * metric_value)) :
  NoDup (match drift_feats_config features with
         | [] => columns (map c_features_json df_current)
         | _ :: _ => drift_feats_config features
         end) ->
  process_model_metrics qcut columns numeric_column features
    df_current df_baseline df_perf = Return l ->
  NoDup (map fst l).
Proof.
  intros Hnd. unfold process_model_metrics.
  destruct df_current as [|row rows]; [intros [= <-]; constructor|].
  set (dc := row :: rows) in *.
  destruct (if _ : bool then _ else _) as [drift_l|] eqn:Hd; [|done].
  destruct (performance_metrics df_perf) as [perf_l|] eqn:Hp; [|done].
  intros [= <-].
  assert (Hdrift : exists chosen,
             NoDup chosen /\ map fst drift_l = map (String.append "psi__") chosen).
  { destruct (_ || _) in Hd; [injection Hd as <-; exists []; split; [constructor|done]|].
    apply drift_metrics_names in Hd as (chosen & Hs & Hn & _).
    exists chosen. split; [|done]. by eapply sublist_NoDup. }
  destruct Hdrift as (chosen & Hcn & Hn).
  apply performance_metrics_names in Hp.
  assert (Hperf : map fst (map (fun m : string * option Q => (m.1, of_float m.2)) perf_l)
                  = map fst perf_l).
  { rewrite map_map. by apply map_ext. }
  cbn [map fst]. rewrite map_app, Hn, Hperf.
  change (NoDup (["count_inferences"; "p50_latency_ms"; "p95_latency_ms"]%string
                 ++ (map (String.append "psi__") chosen ++ map fst perf_l))).
  assert (Hpsi : forall name,
            name ∈ map (String.append "psi__") chosen ->
            String.prefix "psi__" name = true).
  { intros name Hin. apply list_elem_of_fmap in Hin as (f & -> & _).
    apply psi_name_prefix. }
  assert (Hpsind : NoDup (map (String.append "psi__") chosen)).
  { apply NoDup_fmap_2; [|done]. intros a b. apply psi_name_injective. }
  apply NoDup_app. split; [|split].
  - compute_done.
  - intros name Hrel' Hin. apply elem_of_app in Hin as [Hin|Hin].
    + apply Hpsi in Hin.
      repeat (apply elem_of_cons in Hrel' as [->|Hrel']; [discriminate Hin|]).
      by apply elem_of_nil in Hrel'.
    + destruct Hp as [Hp|[Hp|Hp]]; rewrite Hp in Hin.
      * by apply elem_of_nil in Hin.
      * apply list_elem_of_singleton in Hin. subst name.
        repeat (apply elem_of_cons in Hrel' as [Hrel'|Hrel']; [discriminate Hrel'|]).
        by apply elem_of_nil in Hrel'.
      * apply list_elem_of_singleton in Hin. subst name.
        repeat (apply elem_of_cons in Hrel' as [Hrel'|Hrel']; [discriminate Hrel'|]).
        by apply elem_of_nil in Hrel'.
  - apply NoDup_app. split; [done|]. split.
    + intros name Hin Hin'. apply Hpsi in Hin.
      destruct Hp as [Hp|[Hp|Hp]]; rewrite Hp in Hin'.
      * by apply elem_of_nil in Hin'.
      * apply list_elem_of_singleton in Hin'. by subst name.
      * apply list_elem_of_singleton in Hin'. by subst name.
    + destruct Hp as [Hp|[Hp|Hp]]; rewrite Hp; compute_done.
Qed.

(** X27. A PSI is stored only for a candidate feature that is a numeric column
    of both the current day and the baseline; when MODEL_DRIFT_FEATURES
    names features, for no feature outside that list. *)
Theorem drift_only_for_candidate_columns (features : list string)
    (df_current : list current_row) (df_baseline : list (gmap string pyval))
    (df_perf : list perf_row) (l : list (string * metric_value)) (name : string) :
  process_model_metrics qcut columns numeric_column features
    df_current df_baseline df_perf = Return l ->
  name ∈ map fst l ->
  String.prefix "psi__" name = true ->
  exists feat : string,
    name = ("psi__" ++ feat)%string /\
    (drift_feats_config features <> [] -> feat ∈ drift_feats_config features) /\
    feat ∈ columns (map c_features_json df_current) /\
    feat ∈ columns df_baseline /\
    is_Some (numeric_column (map c_features_json df_current) feat) /\
    is_Some (numeric_column df_baseline feat) /\
    200 <= Z.of_nat (length df_current) /\
    200 <= Z.of_nat (length df_baseline).
Proof.
  unfold process_model_metrics.
  destruct df_current as [|row rows]; [intros [= <-] Hin; by apply elem_of_nil in Hin|].
  set (dc := row :: rows) in *.
  destruct (if _ : bool then _ else _) as [drift_l|] eqn:Hd; [|done].
  destruct (performance_metrics df_perf) as [perf_l|] eqn:Hp; [|done].
  intros [= <-] Hin Hpre.
  apply performance_metrics_names in Hp.
  assert (Hperf : map fst (map (fun m : string * option Q => (m.1, of_float m.2)) perf_l)
                  = map fst perf_l).
  { rewrite map_map. by apply map_ext. }
  cbn [map fst] in Hin. rewrite map_app, Hperf in Hin.
  change (name ∈ ["count_inferences"; "p50_latency_ms"; "p95_latency_ms"]%string
                 ++ (map fst drift_l ++ map fst perf_l)) in Hin.
  apply elem_of_app in Hin as [Hin|Hin].
  { exfalso.
    repeat (apply elem_of_cons in Hin as [->|Hin]; [discriminate Hpre|]).
    by apply elem_of_nil in Hin. }
  apply elem_of_app in Hin as [Hin|Hin].
  2:{ exfalso. destruct Hp as [Hp|[Hp|Hp]]; rewrite Hp in Hin.
      - by apply elem_of_nil in Hin.
      - apply list_elem_of_singleton in Hin. by subst name.
      - apply list_elem_of_singleton in Hin. by subst name. }
  destruct (Z.ltb_spec (Z.of_nat (length df_baseline)) 200) as [Hb|Hb];
    [injection Hd as <-; by apply elem_of_nil in Hin|].
  destruct (Z.ltb_spec (Z.of_nat (length dc)) 200) as [Hc|Hc];
    [injection Hd as <-; by apply elem_of_nil in Hin|].
  cbn [orb] in Hd.
  apply drift_metrics_names in Hd as (chosen & Hs & Hn & Hall).
  rewrite Hn in Hin. apply list_elem_of_fmap in Hin as (feat & -> & Hfeat).
  rewrite Forall_forall in Hall. destruct (Hall feat Hfeat) as (H1 & H2 & H3 & H4).
  exists feat. split; [done|]. split.
  - intros Hne. apply sublist_subseteq in Hs.
    destruct (drift_feats_config features); [done|]. by apply Hs.
  - by repeat split.
Qed.

End JobProperties.

(** * When the job fails *)

(** X28. [compute_psi] raises in two cases only, both with samples that are not
    empty: [pd.qcut] raises something other than [ValueError], which is not
    caught, or it returns no edge at all, and then line 35 raises
    [IndexError]. *)
Theorem compute_psi_fails_iff (qcut : list Q -> Z -> result (list edge))
    (expected actual : list Q) (buckets : Z) (e : exn) :
  compute_psi qcut expected actual buckets = Raise e <->
  expected <> [] /\ actual <> [] /\ e = IndexError /\
  (qcut expected buckets = Raise IndexError \/ qcut expected buckets = Return []).
Proof.
  unfold compute_psi.
  destruct expected as [|x expected]; [cbn; split; [done | by intros ([] & _)]|].
  destruct actual as [|y actual]; [cbn; split; [done | by intros (_ & [] & _)]|].
  cbn [length Nat.eqb orb].
  destruct (qcut (x :: expected) buckets) as [[|b bins]|[]]; cbn [clamp_bins].
  - split; [intros [= <-]; repeat split; try done; by right|].
    by intros (_ & _ & -> & _).
  - split; [done|]. by intros (_ & _ & _ & [|]).
  - split; [done|]. by intros (_ & _ & _ & [|]).
  - split; [intros [= <-]; repeat split; try done; by left|].
    by intros (_ & _ & -> & _).
Qed.

Lemma compute_psi_returns (qcut : list Q -> Z -> result (list edge))
    (expected actual : list Q) (buckets : Z) :
  qcut expected buckets <> Raise IndexError ->
  qcut expected buckets <> Return [] ->
  exists r : R, compute_psi qcut expected actual buckets = Return r.
Proof.
  intros H1 H2. unfold compute_psi.
  destruct (_ || _); [by eexists|].
  destruct (qcut expected buckets) as [[|b bins]|[]]; try done;
    cbn [clamp_bins]; by eexists.
Qed.

Lemma drop_duplicates_nonempty (l : list Q) :
  l <> [] -> drop_duplicates l <> [].
Proof.
  induction l as [|x [|y l] IH]; [done | done |]. intros _.
  cbn [drop_duplicates]. destruct (Qeq_bool x y); [by apply IH | done].
Qed.

(** The quantile edges of [quantile_bins] are never an empty list. *)
Lemma quantile_bins_nonempty (x : list Q) (q : Z) :
  quantile_bins x q <> Raise IndexError /\ quantile_bins x q <> Return [].
Proof.
  unfold quantile_bins. split; [done|]. intros H.
  assert (Hnil : drop_duplicates
            (map (fun p => Qred (quantile (sort_values x) p))
                 (map (fun k => (inject_Z (Z.of_nat k) / inject_Z q)%Q)
                      (seq 0 (S (Z.to_nat q))))) = []).
  { injection H as H. by apply fmap_nil_inv in H. }
  revert Hnil. apply drop_duplicates_nonempty. discriminate.
Qed.

Section JobFailures.

Variable qcut : list Q -> Z -> result (list edge).
Variable columns : list (gmap string pyval) -> list string.
Variable numeric_column : list (gmap string pyval) -> string -> option (list Q).

Hypothesis qcut_edges :
  forall (x : list Q) (k : Z),
    qcut x k <> Raise IndexError /\ qcut x k <> Return [].

Lemma drift_metrics_returns (candidates : list string)
    (cur base : list (gmap string pyval)) :
  exists l : list (string * metric_value),
    drift_metrics qcut columns numeric_column candidates cur base = Return l.
Proof.
  induction candidates as [|feat rest [l IH]]; cbn [drift_metrics]; [by eexists|].
  destruct (_ && _); [|by exists l].
  destruct (numeric_column cur feat) as [c|]; [|by exists l].
  destruct (numeric_column base feat) as [b|]; [|by exists l].
  destruct (compute_psi_returns qcut b c 10) as [r ->]; [apply qcut_edges..|].
  rewrite IH. by eexists.
Qed.

(** X29. As long as the binning gives at least one edge or raises the
    [ValueError] that [compute_psi] catches, the only thing that makes the
    job fail after its queries is a missing true value in the performance
    section: the reliability and the drift sections never raise, and
    nothing is stored when the performance section does. *)
Theorem job_fails_only_in_performance_section (features : list string)
    (df_current : list current_row) (df_baseline : list (gmap string pyval))
    (df_perf : list perf_row) (e : exn) :
  process_model_metrics qcut columns numeric_column features
    df_current df_baseline df_perf = Raise e <->
  df_current <> [] /\ performance_metrics df_perf = Raise e.
Proof.
  unfold process_model_metrics. destruct df_current as [|row rows].
  { split; [done | by intros ([] & _)]. }
  set (dc := row :: rows).
  assert (Hd : exists l, (if (Z.of_nat (length df_baseline) <? 200)
                             || (Z.of_nat (length dc) <? 200)
                          then Return []
                          else drift_metrics qcut columns numeric_column
                                 match drift_feats_config features with
                                 | [] => columns (map c_features_json dc)
                                 | _ :: _ => drift_feats_config features
                                 end (map c_features_json dc) df_baseline)
                         = Return l).
  { destruct (_ || _); [by eexists | apply drift_metrics_returns]. }
  destruct Hd as (l & ->).
  destruct (performance_metrics df_perf) as [perf_l|e']; [split; [done | by intros (_ & ?)]|].
  split; [intros [= ->]; by split | by intros (_ & [= ->])].
Qed.

End JobFailures.

(** The job on enough rows: all three sections run. *)
Lemma process_model_metrics_enough_rows (qcut : list Q -> Z -> result (list edge))
    (columns : list (gmap string pyval) -> list string)
    (numeric_column : list (gmap string pyval) -> string -> option (list Q))
    (features : list string) (df_current : list current_row)
    (df_baseline : list (gmap string pyval)) (df_perf : list perf_row)
    (drift_l : list (string * metric_value)) (perf_l : list (string * option Q)) :
  200 <= Z.of_nat (length df_baseline) ->
  200 <= Z.of_nat (length df_current) ->
  drift_metrics qcut columns numeric_column
    match drift_feats_config features with
    | [] => columns (map c_features_json df_current)
    | _ :: _ => drift_feats_config features
    end (map c_features_json df_current) df_baseline = Return drift_l ->
  performance_metrics df_perf = Return perf_l ->
  process_model_metrics qcut columns numeric_column features
    df_current df_baseline df_perf
  = Return (map (fun m => (m.1, of_float m.2))
                (reliability_metrics (map c_latency_ms df_current))
            ++ drift_l ++ map (fun m => (m.1, of_float m.2)) perf_l).
Proof.
  intros Hb Hc Hd Hp. unfold process_model_metrics.
  destruct df_current as [|row rows]; [cbn in Hc; lia|].
  apply Z.ltb_ge in Hb, Hc. rewrite Hb, Hc. cbn [orb]. by rewrite Hd, Hp.
Qed.

(** * The properties above, on concrete runs *)

Lemma storage_errors_never_propagate_witness :
  (forall n, db_down n <> WriteOther) /\
  Forall (fun s => s = Returned)
    (run db_down default_client world0
       [OpLog 1 (sample_call 0 PNone); OpFlush 6]).2.
Proof.
  assert (H : forall n, db_down n <> WriteOther) by (intros n; discriminate).
  split; [exact H|].
  exact (storage_errors_never_propagate db_down default_client world0 _ H).
Defined.

Lemma one_event_client_ready :
  enabled one_event_client = true /\
  items (buffer one_event_client) = [make_event (sample_call 0 PNone)] /\
  batch_size one_event_client = 50 /\
  maxlen (buffer one_event_client) = MAX_BUFFER.
Proof. repeat split; vm_compute; reflexivity. Qed.

Lemma default_client_ready :
  enabled default_client = true /\
  items (buffer default_client) = [] /\
  batch_size default_client = 50 /\
  maxlen (buffer default_client) = MAX_BUFFER.
Proof. repeat split; vm_compute; reflexivity. Qed.

Lemma unbatched_client_ready :
  enabled unbatched_client = true /\
  items (buffer unbatched_client) = [] /\
  batch_size unbatched_client = 0 /\
  maxlen (buffer unbatched_client) = MAX_BUFFER.
Proof. repeat split; vm_compute; reflexivity. Qed.

Lemma flush_commits_after_failures_witness :
  enabled one_event_client = true /\
  items (buffer one_event_client) <> [] /\
  0 < batch_size one_event_client /\
  (forall j : nat, (j < 2)%nat -> db_flaky (attempts world0 + j)%nat = WriteTransient) /\
  db_flaky (attempts world0 + 2)%nat = WriteOk /\
  (flush db_flaky one_event_client world0).2 = Returned /\
  slept (since world0 (flush db_flaky one_event_client world0).1.2)
    = backoffs (1 # 2) 2.
Proof.
  destruct one_event_client_ready as (He & Hi & Hb & _).
  assert (Hne : items (buffer one_event_client) <> []) by (rewrite Hi; discriminate).
  assert (Hbs : 0 < batch_size one_event_client) by (rewrite Hb; lia).
  assert (Hk : (2 < MAX_RETRIES)%nat) by (unfold MAX_RETRIES; lia).
  assert (Hfail : forall j : nat, (j < 2)%nat ->
            db_flaky (attempts world0 + j)%nat = WriteTransient).
  { intros [|[|j]] Hj; [reflexivity | reflexivity | lia]. }
  assert (Hok : db_flaky (attempts world0 + 2)%nat = WriteOk) by reflexivity.
  destruct (flush_commits_after_failures db_flaky one_event_client world0 2
              He Hne Hbs Hk Hfail Hok) as (Hr & _ & _ & _ & _ & _ & Hs & _).
  split; [exact He|]. split; [exact Hne|]. split; [exact Hbs|].
  split; [exact Hfail|]. split; [exact Hok|]. split; [exact Hr | exact Hs].
Defined.

Lemma flush_unexpected_exception_loses_batch_witness :
  enabled one_event_client = true /\
  items (buffer one_event_client) <> [] /\
  0 < batch_size one_event_client /\
  (forall j : nat, (j < 1)%nat -> db_broken (attempts world0 + j)%nat = WriteTransient) /\
  db_broken (attempts world0 + 1)%nat = WriteOther /\
  (flush db_broken one_event_client world0).2 = Raised /\
  insert_success (flush db_broken one_event_client world0).1.1
    = insert_success one_event_client /\
  flush_failures (flush db_broken one_event_client world0).1.1
    = flush_failures one_event_client.
Proof.
  destruct one_event_client_ready as (He & Hi & Hb & _).
  assert (Hne : items (buffer one_event_client) <> []) by (rewrite Hi; discriminate).
  assert (Hbs : 0 < batch_size one_event_client) by (rewrite Hb; lia).
  assert (Hk : (1 < MAX_RETRIES)%nat) by (unfold MAX_RETRIES; lia).
  assert (Hfail : forall j : nat, (j < 1)%nat ->
            db_broken (attempts world0 + j)%nat = WriteTransient).
  { intros [|j] Hj; [reflexivity | lia]. }
  assert (Hother : db_broken (attempts world0 + 1)%nat = WriteOther) by reflexivity.
  destruct (flush_unexpected_exception_loses_batch db_broken one_event_client
              world0 1 He Hne Hbs Hk Hfail Hother)
    as (Hr & _ & Hs & Hf & _).
  split; [exact He|]. split; [exact Hne|]. split; [exact Hbs|].
  split; [exact Hfail|]. split; [exact Hother|].
  split; [exact Hr|]. split; [exact Hs | exact Hf].
Defined.

Lemma database_up_loses_nothing_witness :
  (forall n, db_up n = WriteOk) /\
  enabled default_client = true /\
  maxlen (buffer default_client) = MAX_BUFFER /\
  0 < batch_size default_client <= MAX_BUFFER /\
  deque_len (buffer default_client) < batch_size default_client /\
  committed (since world0 (run db_up default_client world0
      [OpLog 1 (sample_call 0 PNone); OpLog 6 (sample_call 1 PNone)]).1.2)
  ++ items (buffer (run db_up default_client world0
      [OpLog 1 (sample_call 0 PNone); OpLog 6 (sample_call 1 PNone)]).1.1)
  = items (buffer default_client)
    ++ logged [OpLog 1 (sample_call 0 PNone); OpLog 6 (sample_call 1 PNone)].
Proof.
  destruct default_client_ready as (He & Hi & Hb & Hmax).
  assert (Hup : forall n, db_up n = WriteOk) by reflexivity.
  assert (Hbs : 0 < batch_size default_client <= MAX_BUFFER)
    by (rewrite Hb; unfold MAX_BUFFER; lia).
  assert (Hlen : deque_len (buffer default_client) < batch_size default_client)
    by (unfold deque_len; rewrite Hi, Hb; cbn; lia).
  destruct (database_up_loses_nothing db_up default_client world0
              [OpLog 1 (sample_call 0 PNone); OpLog 6 (sample_call 1 PNone)]
              Hup He Hmax Hbs Hlen) as (Hc & _).
  split; [exact Hup|]. split; [exact He|]. split; [exact Hmax|].
  split; [exact Hbs|]. split; [exact Hlen | exact Hc].
Defined.

Lemma nonpositive_batch_size_never_writes_witness :
  batch_size unbatched_client <= 0 /\
  enabled unbatched_client = true /\
  maxlen (buffer unbatched_client) = MAX_BUFFER /\
  deque_len (buffer unbatched_client) <= MAX_BUFFER /\
  writes (since world0 (run db_up unbatched_client world0
      [OpLog 1 (sample_call 0 PNone); OpFlush 6]).1.2) = [] /\
  insert_success (run db_up unbatched_client world0
      [OpLog 1 (sample_call 0 PNone); OpFlush 6]).1.1
    = insert_success unbatched_client.
Proof.
  destruct unbatched_client_ready as (He & Hi & Hb & Hmax).
  assert (Hbs : batch_size unbatched_client <= 0) by (rewrite Hb; lia).
  assert (Hlen : deque_len (buffer unbatched_client) <= MAX_BUFFER)
    by (unfold deque_len; rewrite Hi; unfold MAX_BUFFER; cbn; lia).
  destruct (nonpositive_batch_size_never_writes db_up unbatched_client world0
              [OpLog 1 (sample_call 0 PNone); OpFlush 6] Hbs He Hmax Hlen)
    as (_ & Hw & Hs & _).
  split; [exact Hbs|]. split; [exact He|]. split; [exact Hmax|].
  split; [exact Hlen|]. split; [exact Hw | exact Hs].
Defined.

Lemma close_drains_buffer_witness :
  enabled one_event_client = true /\
  0 < batch_size one_event_client /\
  (length (items (buffer one_event_client)) <= 1)%nat /\
  exists (st' : client) (w' : world) (s : status),
    close 1 db_down one_event_client world0 = Some (st', w', s) /\
    (s = Returned -> items (buffer st') = []).
Proof.
  destruct one_event_client_ready as (He & Hi & Hb & _).
  assert (Hbs : 0 < batch_size one_event_client) by (rewrite Hb; lia).
  assert (Hlen : (length (items (buffer one_event_client)) <= 1)%nat)
    by (rewrite Hi; cbn; lia).
  destruct (close_drains_buffer db_down 1 one_event_client world0 He Hbs Hlen)
    as (st' & w' & s & Hc & Hnil & _).
  split; [exact He|]. split; [exact Hbs|]. split; [exact Hlen|].
  exists st', w', s. split; [exact Hc | exact Hnil].
Defined.

Lemma close_never_ends_without_batches_witness :
  enabled (enqueue unbatched_client (make_event (sample_call 0 PNone))) = true /\
  batch_size (enqueue unbatched_client (make_event (sample_call 0 PNone))) <= 0 /\
  items (buffer (enqueue unbatched_client (make_event (sample_call 0 PNone)))) <> [] /\
  close 1000 db_up (enqueue unbatched_client (make_event (sample_call 0 PNone)))
    world0 = None.
Proof.
  assert (He : enabled (enqueue unbatched_client
                          (make_event (sample_call 0 PNone))) = true)
    by (vm_compute; reflexivity).
  assert (Hbs : batch_size (enqueue unbatched_client
                              (make_event (sample_call 0 PNone))) <= 0)
    by (apply Z.leb_le; vm_compute; reflexivity).
  assert (Hne : items (buffer (enqueue unbatched_client
                                 (make_event (sample_call 0 PNone)))) <> [])
    by (vm_compute; discriminate).
  split; [exact He|]. split; [exact Hbs|]. split; [exact Hne|].
  exact (close_never_ends_without_batches db_up _ world0 1000 He Hbs Hne).
Defined.

Lemma close_sends_whole_buffer_witness :
  (forall n, db_up n = WriteOk) /\
  enabled one_event_client = true /\
  0 < batch_size one_event_client /\
  (length (items (buffer one_event_client)) <= 1)%nat /\
  exists (st' : client) (w' : world),
    close 1 db_up one_event_client world0 = Some (st', w', Returned) /\
    items (buffer st') = [] /\
    committed (since world0 w') = items (buffer one_event_client).
Proof.
  destruct one_event_client_ready as (He & Hi & Hb & _).
  assert (Hup : forall n, db_up n = WriteOk) by reflexivity.
  assert (Hbs : 0 < batch_size one_event_client) by (rewrite Hb; lia).
  assert (Hlen : (length (items (buffer one_event_client)) <= 1)%nat)
    by (rewrite Hi; cbn; lia).
  destruct (close_sends_whole_buffer db_up 1 one_event_client world0
              Hup He Hbs Hlen) as (st' & w' & Hc & Hnil & Hcm & _).
  split; [exact Hup|]. split; [exact He|]. split; [exact Hbs|].
  split; [exact Hlen|].
  exists st', w'. split; [exact Hc|]. split; [exact Hnil | exact Hcm].
Defined.

Lemma session_delivers_every_event_witness :
  (forall n, db_up n = WriteOk) /\
  enabled default_client = true /\
  maxlen (buffer default_client) = MAX_BUFFER /\
  0 < batch_size default_client <= MAX_BUFFER /\
  items (buffer default_client) = [] /\
  (Z.to_nat (batch_size default_client) <= 50)%nat /\
  exists (st' : client) (w' : world),
    close 50 db_up
      (run db_up default_client world0
         [OpLog 1 (sample_call 0 PNone); OpLog 1 (sample_call 1 PNone);
          OpFlush 1]).1.1
      (run db_up default_client world0
         [OpLog 1 (sample_call 0 PNone); OpLog 1 (sample_call 1 PNone);
          OpFlush 1]).1.2
    = Some (st', w', Returned) /\
    committed (since world0 w')
    = logged [OpLog 1 (sample_call 0 PNone); OpLog 1 (sample_call 1 PNone);
              OpFlush 1].
Proof.
  destruct default_client_ready as (He & Hi & Hb & Hmax).
  assert (Hup : forall n, db_up n = WriteOk) by reflexivity.
  assert (Hbs : 0 < batch_size default_client <= MAX_BUFFER)
    by (rewrite Hb; unfold MAX_BUFFER; lia).
  assert (Hfuel : (Z.to_nat (batch_size default_client) <= 50)%nat)
    by (rewrite Hb; lia).
  destruct (session_delivers_every_event db_up 50 default_client world0
              [OpLog 1 (sample_call 0 PNone); OpLog 1 (sample_call 1 PNone);
               OpFlush 1] Hup He Hmax Hbs Hi Hfuel)
    as (st' & w' & Hc & _ & Hcm & _).
  split; [exact Hup|]. split; [exact He|]. split; [exact Hmax|].
  split; [exact Hbs|]. split; [exact Hi|]. split; [exact Hfuel|].
  exists st', w'. split; [exact Hc | exact Hcm].
Defined.

Lemma psi_is_never_negative_witness :
  exists r : R,
    compute_psi quantile_bins [1; 2; 2; 3; 5; 8]%Q [2; 3; 3; 9]%Q 4 = Return r /\
    (0 <= r)%R.
Proof.
  assert (H : exists r : R,
            compute_psi quantile_bins [1; 2; 2; 3; 5; 8]%Q [2; 3; 3; 9]%Q 4
            = Return r).
  { eexists. lazy -[psi_term Rsum]. reflexivity. }
  destruct H as (r & Hr). exists r. split; [exact Hr|].
  exact (psi_is_never_negative quantile_bins _ _ 4 r Hr).
Defined.

Lemma clamped_bins_count_every_value_witness :
  (2 <= length [1; 2; 5; 7]%Q)%nat /\
  increasing (map Fin [1; 2; 5; 7]%Q) = true /\
  exists bins : list edge,
    clamp_bins (map Fin [1; 2; 5; 7]%Q) = Return bins /\
    Zsum (cut_counts [0; 3; 7; 100; -4]%Q bins) = 5.
Proof.
  assert (Hlen : (2 <= length [1; 2; 5; 7]%Q)%nat) by (cbn; lia).
  assert (Hinc : increasing (map Fin [1; 2; 5; 7]%Q) = true)
    by (vm_compute; reflexivity).
  destruct (clamped_bins_count_every_value [1; 2; 5; 7]%Q [0; 3; 7; 100; -4]%Q
              Hlen Hinc) as (bins & Hb & _ & Hsum).
  split; [exact Hlen|]. split; [exact Hinc|].
  exists bins. split; [exact Hb | exact Hsum].
Defined.

Lemma f1_closed_form_and_range_witness :
  exists f : Q,
    f1_score example_rows = Return f /\ (0 <= f <= 1)%Q.
Proof.
  assert (H : exists f : Q, f1_score example_rows = Return f)
    by (eexists; vm_compute; reflexivity).
  destruct H as (f & Hf). exists f. split; [exact Hf|].
  destruct (f1_closed_form_and_range example_rows f Hf) as (_ & _ & Hrange & _).
  exact Hrange.
Defined.

Lemma whitelist_round_trip_witness :
  env_two_features !! "MODEL_DRIFT_FEATURES"
    = Some (String.concat "," ["age"; "income"]%string) /\
  Forall (fun n => n <> EmptyString /\ strip n = n /\ occurs "," n = false)
         ["age"; "income"]%string /\
  drift_feats_config (DRIFT_Features env_two_features) = ["age"; "income"]%string.
Proof.
  assert (He : env_two_features !! "MODEL_DRIFT_FEATURES"
               = Some (String.concat "," ["age"; "income"]%string))
    by (vm_compute; reflexivity).
  assert (Hn : Forall (fun n => n <> EmptyString /\ strip n = n /\ occurs "," n = false)
                      ["age"; "income"]%string).
  { repeat constructor; try discriminate. }
  split; [exact He|]. split; [exact Hn|].
  exact (whitelist_round_trip _ _ He Hn).
Defined.

Lemma short_day_metrics :
  process_model_metrics quantile_bins key_columns int_column
    (DRIFT_Features env_whitelist) short_day (age_rows 20) []
  = Return [ ("count_inferences"%string, Rational (inject_Z 3));
             ("p50_latency_ms"%string,
              Rational (latency_quantile (map c_latency_ms short_day) (1 # 2)));
             ("p95_latency_ms"%string,
              Rational (latency_quantile (map c_latency_ms short_day) (95 # 100))) ].
Proof.
  unfold process_model_metrics, short_day. cbn [length Z.of_nat].
  replace (Z.pos (Pos.of_succ_nat 2) <? 200) with true by reflexivity.
  rewrite orb_true_r. reflexivity.
Qed.

Lemma job_metrics_shape_witness :
  short_day <> [] /\
  exists (p50 p95 : Q) (rest : list (string * metric_value)),
    process_model_metrics quantile_bins key_columns int_column
      (DRIFT_Features env_whitelist) short_day (age_rows 20) []
    = Return (("count_inferences"%string, Rational (inject_Z (Z.of_nat 3)))
              :: ("p50_latency_ms"%string, Rational p50)
              :: ("p95_latency_ms"%string, Rational p95) :: rest) /\
    (p50 <= p95)%Q.
Proof.
  assert (Hne : short_day <> []) by discriminate.
  destruct (job_metrics_shape quantile_bins key_columns int_column
              (DRIFT_Features env_whitelist) short_day (age_rows 20) [] _
              short_day_metrics) as (_ & Hshape).
  destruct (Hshape Hne) as (p50 & p95 & rest & Hl & Hle & _).
  split; [exact Hne|]. exists p50, p95, rest.
  split; [|exact Hle]. rewrite short_day_metrics. f_equal. exact Hl.
Defined.

Lemma drift_needs_200_rows_witness :
  (Z.of_nat (length (age_rows 20)) < 200 \/ Z.of_nat (length short_day) < 200) /\
  process_model_metrics quantile_bins key_columns int_column
    (DRIFT_Features env_whitelist) short_day (age_rows 20) []
  = process_model_metrics (fun _ _ => Raise IndexError) key_columns int_column
      (DRIFT_Features env_whitelist) short_day (age_rows 20) [].
Proof.
  assert (Hfew : Z.of_nat (length (age_rows 20)) < 200
                 \/ Z.of_nat (length short_day) < 200) by (right; cbn; lia).
  split; [exact Hfew|].
  exact (proj1 (drift_needs_200_rows quantile_bins key_columns int_column
                  (DRIFT_Features env_whitelist) short_day (age_rows 20) []
                  (fun _ _ => Raise IndexError) Hfew)).
Defined.

(** The whitelist names a feature the rows do not have: on the day of two
    hundred inferences the job stores the PSI of the age only. *)
Lemma age_day_metrics :
  exists l : list (string * metric_value),
    process_model_metrics quantile_bins key_columns int_column
      (DRIFT_Features env_whitelist) age_day (age_rows 20) [] = Return l /\
    map fst l = ["count_inferences"; "p50_latency_ms"; "p95_latency_ms";
                 "psi__age"]%string.
Proof.
  assert (Hb : 200 <= Z.of_nat (length (age_rows 20)))
    by (apply Z.leb_le; vm_compute; reflexivity).
  assert (Hc : 200 <= Z.of_nat (length age_day))
    by (apply Z.leb_le; vm_compute; reflexivity).
  assert (Hw : drift_feats_config (DRIFT_Features env_whitelist)
               = ["age"; "income"]%string) by (vm_compute; reflexivity).
  assert (Hage : bool_decide ("age"%string ∈ key_columns (map c_features_json age_day))
                 && bool_decide ("age"%string ∈ key_columns (age_rows 20)) = true)
    by (vm_compute; reflexivity).
  assert (Hincome :
            bool_decide ("income"%string ∈ key_columns (map c_features_json age_day))
            && bool_decide ("income"%string ∈ key_columns (age_rows 20)) = false)
    by (vm_compute; reflexivity).
  assert (Hcur : exists v, int_column (map c_features_json age_day) "age" = Some v)
    by (eexists; vm_compute; reflexivity).
  assert (Hbase : exists v, int_column (age_rows 20) "age" = Some v)
    by (eexists; vm_compute; reflexivity).
  destruct Hcur as (vc & Hcur), Hbase as (vb & Hbase).
  destruct (compute_psi_returns quantile_bins vb vc 10) as (psi & Hpsi);
    [apply quantile_bins_nonempty..|].
  exists (map (fun m => (m.1, of_float m.2))
              (reliability_metrics (map c_latency_ms age_day))
          ++ [("psi__age"%string, Real psi)] ++ []).
  split; [|reflexivity].
  apply (process_model_metrics_enough_rows quantile_bins key_columns int_column
           (DRIFT_Features env_whitelist) age_day (age_rows 20) []
           [("psi__age"%string, Real psi)] []);
    [exact Hb | exact Hc | | reflexivity].
  rewrite Hw. cbn [drift_metrics]. by rewrite Hage, Hincome, Hcur, Hbase, Hpsi.
Qed.

Lemma whitelist_config :
  drift_feats_config (DRIFT_Features env_whitelist) = ["age"; "income"]%string.
Proof. vm_compute. reflexivity. Qed.

Lemma metric_names_are_distinct_witness :
  NoDup (match drift_feats_config (DRIFT_Features env_whitelist) with
         | [] => key_columns (map c_features_json age_day)
         | _ :: _ => drift_feats_config (DRIFT_Features env_whitelist)
         end) /\
  exists l : list (string * metric_value),
    process_model_metrics quantile_bins key_columns int_column
      (DRIFT_Features env_whitelist) age_day (age_rows 20) [] = Return l /\
    NoDup (map fst l).
Proof.
  assert (Hnd : NoDup (match drift_feats_config (DRIFT_Features env_whitelist) with
                       | [] => key_columns (map c_features_json age_day)
                       | _ :: _ => drift_feats_config (DRIFT_Features env_whitelist)
                       end)).
  { rewrite whitelist_config. compute_done. }
  destruct age_day_metrics as (l & Hl & _).
  split; [exact Hnd|]. exists l. split; [exact Hl|].
  exact (metric_names_are_distinct quantile_bins key_columns int_column
           (DRIFT_Features env_whitelist) age_day (age_rows 20) [] l Hnd Hl).
Defined.

Lemma drift_only_for_candidate_columns_witness :
  exists l : list (string * metric_value),
    process_model_metrics quantile_bins key_columns int_column
      (DRIFT_Features env_whitelist) age_day (age_rows 20) [] = Return l /\
    "psi__age"%string ∈ map fst l /\
    String.prefix "psi__" "psi__age" = true /\
    exists feat : string,
      "psi__age"%string = ("psi__" ++ feat)%string /\
      feat ∈ key_columns (age_rows 20) /\
      200 <= Z.of_nat (length age_day).
Proof.
  destruct age_day_metrics as (l & Hl & Hnames).
  assert (Hin : "psi__age"%string ∈ map fst l) by (rewrite Hnames; compute_done).
  assert (Hpre : String.prefix "psi__" "psi__age" = true) by reflexivity.
  destruct (drift_only_for_candidate_columns quantile_bins key_columns int_column
              (DRIFT_Features env_whitelist) age_day (age_rows 20) [] l _
              Hl Hin Hpre) as (feat & Hname & _ & _ & Hbase & _ & _ & Hcur & _).
  exists l. split; [exact Hl|]. split; [exact Hin|]. split; [exact Hpre|].
  exists feat. split; [exact Hname|]. split; [exact Hbase | exact Hcur].
Defined.

Lemma job_fails_only_in_performance_section_witness :
  (forall (x : list Q) (k : Z),
     quantile_bins x k <> Raise IndexError /\ quantile_bins x k <> Return []) /\
  short_day <> [] /\
  performance_metrics unlabelled_day = Raise ValueError /\
  process_model_metrics quantile_bins key_columns int_column
    (DRIFT_Features env_whitelist) short_day (age_rows 20) unlabelled_day
  = Raise ValueError.
Proof.
  assert (Hne : short_day <> []) by discriminate.
  assert (Hp : performance_metrics unlabelled_day = Raise ValueError)
    by (vm_compute; reflexivity).
  split; [exact quantile_bins_nonempty|]. split; [exact Hne|].
  split; [exact Hp|].
  apply (job_fails_only_in_performance_section quantile_bins key_columns
           int_column quantile_bins_nonempty).
  split; [exact Hne | exact Hp].
Defined.
